(** * nisutils: the checksum kernel of nislib.c and the RAMF stage of nisrom.c

    A shallow embedding of
    - [src/cli_utils/nislib.c]: [reconst_32], [reconst_16], [write_32b],
      [checksum_std], [checksum_fix];
    - [src/cli_utils/nisrom.c]: [validate_altcks] and the parts of [find_ramf]
      that look for the RAMF header and that check the alt-checksum bounds;
      [render_md5], [get_path_len], [generate_csv_path] and
      [ecuid_from_filename].

    A ROM image is a [list byte]; a C access [buf[i]] is a bounds-checked
    lookup, and an access outside the buffer (undefined behaviour in C) is a
    [Fault].  [uint32_t] values are integers in [0, 2^32) and every
    [uint32_t] operation that can leave that range is followed by [to_u32].
    [long] is taken to be 64 bits wide: offsets and their sums with a
    [uint32_t] are plain integers, far from overflow.  A shift of the [int]
    1 or of a byte into bit 31 gives the sign bit, as compilers have it, so
    that the converted [uint32_t] has that bit set. *)

From Stdlib Require Import ZArith Lia List Bool Btauto.
From Stdlib Require String.
From coqutil Require Import Byte Z.bitblast Z.PushPullMod.
From stdpp Require Import base list.
Import String.StringSyntax.

Local Open Scope Z_scope.

(** ** Memory accesses and their faults *)

Inductive fault : Type :=
| BadRead (off : Z)      (* a load from [buf[off]] outside the buffer *)
| BadWrite (off : Z)     (* a store to [buf[off]] outside the buffer *)
| UninitRead             (* use of a local that was never assigned *)
| OutOfFuel.             (* the loop bound given to the model was too small *)

Inductive res (A : Type) : Type :=
| Ok (a : A)
| Fault (f : fault).

Arguments Ok {A} a.
Arguments Fault {A} f.

Definition bind {A B : Type} (m : res A) (k : A -> res B) : res B :=
  match m with
  | Ok a => k a
  | Fault f => Fault f
  end.

Notation "'let*' x ':=' m 'in' k" := (bind m (fun x => k))
  (at level 10, x name, m at level 100, k at level 200).
Notation "'let*' ' p ':=' m 'in' k" := (bind m (fun x => let 'p := x in k))
  (at level 10, p pattern, m at level 100, k at level 200).

(** [uint32_t] conversion. *)
Definition to_u32 (z : Z) : Z := z mod 2 ^ 32.

Definition UINT32_MAX : Z := 2 ^ 32 - 1.

(** [MAX_ROMSIZE] of the header of nislib: the largest ROM, 2 MiB. *)
Definition MAX_ROMSIZE : Z := 2048 * 1024.

(** [buf[off]] as an rvalue. *)
Definition rd8 (buf : list byte) (off : Z) : res byte :=
  if off <? 0 then Fault (BadRead off)
  else match buf !! Z.to_nat off with
       | Some b => Ok b
       | None => Fault (BadRead off)
       end.

(** [buf[off] = b]. *)
Definition wr8 (buf : list byte) (off : Z) (b : byte) : res (list byte) :=
  if (0 <=? off) && (off <? Z.of_nat (length buf))
  then Ok (<[Z.to_nat off := b]> buf)
  else Fault (BadWrite off).

(** ** nislib.c: big-endian words *)

(** [reconst_32(&buf[off])]: the four bytes are promoted to [int], shifted
    and or-ed; the conversion of the result to [uint32_t] gives the
    non-negative value below also when [buf[0] << 24] is a negative [int]. *)
Definition reconst_32 (buf : list byte) (off : Z) : res Z :=
  let* b0 := rd8 buf off in
  let* b1 := rd8 buf (off + 1) in
  let* b2 := rd8 buf (off + 2) in
  let* b3 := rd8 buf (off + 3) in
  Ok (Z.lor (Z.lor (Z.lor (Z.shiftl (byte.unsigned b0) 24)
                          (Z.shiftl (byte.unsigned b1) 16))
                   (Z.shiftl (byte.unsigned b2) 8))
            (byte.unsigned b3)).

(** [uint16_t] conversion. *)
Definition to_u16 (z : Z) : Z := z mod 2 ^ 16.

(** [reconst_16(&buf[off])]: the two bytes are promoted to [int], shifted
    and or-ed, and the result is converted to [uint16_t]. *)
Definition reconst_16 (buf : list byte) (off : Z) : res Z :=
  let* b0 := rd8 buf off in
  let* b1 := rd8 buf (off + 1) in
  Ok (to_u16 (Z.lor (Z.shiftl (byte.unsigned b0) 8) (byte.unsigned b1))).

(** [write_32b(val, &buf[off])]: stores from the last byte down to the
    first, shifting [val] right by 8 in between. *)
Definition write_32b (val : Z) (buf : list byte) (off : Z) : res (list byte) :=
  let* buf := wr8 buf (off + 3) (byte.of_Z (Z.land val 255)) in
  let val := Z.shiftr val 8 in
  let* buf := wr8 buf (off + 2) (byte.of_Z (Z.land val 255)) in
  let val := Z.shiftr val 8 in
  let* buf := wr8 buf (off + 1) (byte.of_Z (Z.land val 255)) in
  let val := Z.shiftr val 8 in
  wr8 buf off (byte.of_Z (Z.land val 255)).

(** ** nislib.c: the checksum kernel *)

(** [for (cur = start; cur < siz; cur += 4) body], the loop shape of the
    three word loops of nislib.c.  [fuel] bounds the number of iterations of
    the model; the callers pass a bound that the loop never reaches. *)
Fixpoint for_words {S : Type} (fuel : nat) (body : Z -> S -> res S)
    (cur siz : Z) (s : S) : res S :=
  if cur <? siz then
    match fuel with
    | O => Fault OutOfFuel
    | Datatypes.S fuel' =>
        let* s' := body cur s in
        for_words fuel' body (cur + 4) siz s'
    end
  else Ok s.

(** What the functions print on stdout. *)
Inductive diag : Type :=
| MsgManyCks                     (* "warning : more than one set of checksums found ! ..." *)
| MsgNoCks                       (* "warning : no checksum found !" *)
| MsgDesired (cks ckx : Z)       (* "desired cks=%X, ckx=%X" *)
| MsgActual (s x : Z)            (* "actual s=%X, x=%X" *)
| MsgCorrections (ds dx : Z)     (* "corrections ds=%X, dx=%X" *)
| MsgNoSolution                  (* "no solution? let's not iterate" *)
| MsgFound (a b mang : Z)        (* "found correction vals a=%X, b=%X, mang=%X" *)
| MsgCouldNotFix.                (* "could not fix checksum !!" *)

Module Nislib.

(** *** checksum_std *)

(** The locals of the second loop of [checksum_std], with the two cells
    behind the output pointers.  [None] in [sc_cks] or [sc_ckx]: nothing has
    been stored through the pointer. *)
Record std_scan : Type := mk_scan {
  sc_cks : option Z;
  sc_ckx : option Z;
  ckscount : Z;
  ckxcount : Z
}.

(** What a call of [checksum_std] hands back: its return value, what it
    stored through [p_cks] and [p_ckx] ([None]: the caller's variable is left
    as it was), and what it printed. *)
Record std_out : Type := mk_std {
  std_ret : Z;
  o_cks : option Z;
  o_ckx : option Z;
  std_msgs : list diag
}.

(** Lines 53-59: [sumt += lw; xort ^= lw]. *)
Definition std_fold_body (buf : list byte) (bufcur : Z) (acc : Z * Z)
    : res (Z * Z) :=
  let* lw := reconst_32 buf bufcur in
  Ok (to_u32 (fst acc + lw), Z.lxor (snd acc) lw).

(** Lines 51-62: the fold and the two values derived from it. *)
Definition std_targets (buf : list byte) (siz : Z) : res (Z * Z) :=
  let* acc := for_words (Z.to_nat siz) (std_fold_body buf) 0 siz (0, 0) in
  let sumt := fst acc in
  let xort := snd acc in
  let cks := xort in
  let ckx := to_u32 (sumt - to_u32 (2 * xort)) in
  Ok (cks, ckx).

(** Lines 70-79, for the word [lw] read at [bufcur]: each match overwrites
    the output cell and is counted. *)
Definition std_scan_word (cks ckx : Z) (bufcur lw : Z) (st : std_scan)
    : std_scan :=
  let st :=
    if lw =? cks
    then mk_scan (Some bufcur) (sc_ckx st) (ckscount st + 1) (ckxcount st)
    else st in
  if lw =? ckx
  then mk_scan (sc_cks st) (Some bufcur) (ckscount st) (ckxcount st + 1)
  else st.

(** Lines 67-80, one iteration. *)
Definition std_scan_body (buf : list byte) (cks ckx : Z) (bufcur : Z)
    (st : std_scan) : res std_scan :=
  let* lw := reconst_32 buf bufcur in
  Ok (std_scan_word cks ckx bufcur lw st).

(** Lines 82-90. *)
Definition std_finish (st : std_scan) : std_out :=
  let warn :=
    if (1 <? ckxcount st) || (1 <? ckscount st) then [MsgManyCks] else [] in
  if (ckxcount st =? 0) && (ckscount st =? 0)
  then mk_std (-1) (sc_cks st) (sc_ckx st) (warn ++ [MsgNoCks])
  else mk_std 0 (sc_cks st) (sc_ckx st) warn.

(** Lines 65-90: the search for two given values. *)
Definition std_locate (buf : list byte) (siz : Z) (cks ckx : Z) : res std_out :=
  let* st := for_words (Z.to_nat siz) (std_scan_body buf cks ckx) 0 siz
               (mk_scan None None 0 0) in
  Ok (std_finish st).

(** [checksum_std(buf, siz, p_cks, p_ckx)], with non-null pointers. *)
Definition checksum_std (buf : list byte) (siz : Z) : res std_out :=
  if siz <=? 0 then Ok (mk_std (-1) None None [])
  else
    let* t := std_targets buf siz in
    std_locate buf siz (fst t) (snd t).

(** *** checksum_fix *)

(** The variables of the bit loop (lines 141-199). *)
Record solver : Type := mk_solver {
  sv_a : Z;
  sv_b : Z;
  sv_carry : bool;
  sv_ds : Z;
  sv_dx : Z;
  sv_mang : Z
}.

(** What an iteration of the bit loop does next. *)
Inductive bit_next : Type :=
| BitNext (st : solver)    (* falls through to [bitcur--] *)
| BitReturn.               (* the [return] of line 166 *)

Definition int_of_bool (b : bool) : Z := if b then 1 else 0.
Definition bool_of_int (z : Z) : bool := negb (z =? 0).

(** [x & (1 << bitcur)] converted to [bool]. *)
Definition bit_set (x bitcur : Z) : bool :=
  bool_of_int (Z.land x (Z.shiftl 1 bitcur)).

(** Lines 154-198, one iteration.  The statements after the [return] of
    line 166 are never executed and have no counterpart here.  In line 184,
    [~sn] is the bitwise complement of the promoted [int]. *)
Definition bit_body (bitcur : Z) (st : solver) : bit_next :=
  let xn := bit_set (sv_dx st) bitcur in
  let sn := bit_set (sv_ds st) bitcur in
  let fall (an bn carry : bool) :=
    BitNext (mk_solver
      (to_u32 (Z.lor (sv_a st) (Z.shiftl (int_of_bool an) bitcur)))
      (to_u32 (Z.lor (sv_b st) (Z.shiftl (int_of_bool bn) bitcur)))
      carry (sv_ds st) (sv_dx st) (sv_mang st)) in
  if xn then
    if sv_carry st then
      if sn then BitReturn
      else fall true false true
    else fall true false (bool_of_int (Z.lnot (int_of_bool sn)))
  else
    if sv_carry st then fall true true sn
    else fall false false sn.

(** [for (bitcur = n - 1; bitcur >= 0; bitcur--)]; [None] when an iteration
    returns from [checksum_fix]. *)
Fixpoint bit_loop (n : nat) (st : solver) : option solver :=
  match n with
  | O => Some st
  | Datatypes.S k =>
      match bit_body (Z.of_nat k) st with
      | BitReturn => None
      | BitNext st' => bit_loop k st'
      end
  end.

(** Lines 141-199 from the values of [ds], [dx] and [mang] of line 140. *)
Definition solve (ds dx mang : Z) : option solver :=
  bit_loop 32 (mk_solver 0 0 false ds dx mang).

(** Lines 123-129: the fold that skips the two checksum words. *)
Definition fix_fold_body (buf : list byte) (p_cks p_ckx : Z) (cur : Z)
    (acc : Z * Z) : res (Z * Z) :=
  if (cur =? p_cks) || (cur =? p_ckx) then Ok acc
  else
    let* tw := reconst_32 buf cur in
    Ok (to_u32 (fst acc + tw), Z.lxor (snd acc) tw).

(** How a call of [checksum_fix] ends. *)
Inductive fix_exit : Type :=
| FixAbort                                  (* the [return] of line 109 *)
| FixNoSolution                             (* the [return] of line 166 *)
| FixDone (a b mang : Z) (verified : bool). (* the [return] of line 215 *)

Record fix_out : Type := mk_fix {
  fx_exit : fix_exit;
  fx_buf : list byte;
  fx_msgs : list diag
}.

(** A local [long] that [checksum_std] may have left unassigned. *)
Definition load_cell (c : option Z) : res Z :=
  match c with
  | Some v => Ok v
  | None => Fault UninitRead
  end.

(** [checksum_fix(buf, siz, p_cks, p_ckx, p_cs, p_cx, p_mang)], [buf]
    non-null. *)
Definition checksum_fix (buf : list byte) (siz p_cks p_ckx p_cs p_cx p_mang : Z)
    : res fix_out :=
  if (siz <=? 0) || bool_of_int (Z.land siz 3)
     || (siz <=? p_cks) || (siz <=? p_ckx)
     || (siz <=? p_cs) || (siz <=? p_cx)
  then Ok (mk_fix FixAbort buf [])
  else
    let* cks := reconst_32 buf p_cks in
    let* ckx := reconst_32 buf p_ckx in
    let* buf := write_32b 0 buf p_cs in
    let* buf := write_32b 0 buf p_cx in
    let* buf := write_32b 0 buf p_mang in
    let* acc := for_words (Z.to_nat siz) (fix_fold_body buf p_cks p_ckx)
                  0 siz (0, 0) in
    let s0 := fst acc in
    let x0 := snd acc in
    let ds := to_u32 (cks - s0) in
    let dx := Z.lxor ckx x0 in
    let mang := dx in
    let ds' := to_u32 (ds - mang) in
    let dx' := Z.lxor dx mang in
    let msgs := [MsgDesired cks ckx; MsgActual s0 x0; MsgCorrections ds dx] in
    match solve ds' dx' mang with
    | None => Ok (mk_fix FixNoSolution buf (msgs ++ [MsgNoSolution]))
    | Some st =>
        let a := sv_a st in
        let b := sv_b st in
        let mang := sv_mang st in
        let* buf := write_32b a buf p_cs in
        let* buf := write_32b b buf p_cx in
        let* buf := write_32b mang buf p_mang in
        let* r := checksum_std buf siz in
        let* ocs := load_cell (o_cks r) in
        let* ocx := load_cell (o_ckx r) in
        let* ds := reconst_32 buf ocs in
        let* dx := reconst_32 buf ocx in
        let ok := (ds =? cks) && (dx =? ckx) in
        Ok (mk_fix (FixDone a b mang ok) buf
              (msgs ++ std_msgs r
                    ++ [if ok then MsgFound a b mang else MsgCouldNotFix]))
    end.

End Nislib.

(** ** nislib: helpers whose bodies are not among the sources *)

(** Modelled from the spec: [sum32] is declared in the header of nislib but
    its body is not among the sources.  Per the spec it reads the buffer as
    a sequence of big-endian 32-bit words and returns their wrapping sum and
    their xor; excess bytes of a length that is not a multiple of 4 are
    ignored.  [off] is the offset in [buf] of the pointer the caller passes. *)
Fixpoint sum32_words (n : nat) (buf : list byte) (cur : Z) (acc : Z * Z)
    : res (Z * Z) :=
  match n with
  | O => Ok acc
  | Datatypes.S k =>
      let* w := reconst_32 buf cur in
      sum32_words k buf (cur + 4) (to_u32 (fst acc + w), Z.lxor (snd acc) w)
  end.

Definition sum32 (buf : list byte) (off siz : Z) : res (Z * Z) :=
  sum32_words (Z.to_nat (siz / 4)) buf off (0, 0).

(** Modelled from the spec: [u32memstr] is declared in the header of nislib
    but its body is not among the sources.  Per the spec it searches
    [buflen] bytes for a 4-byte-aligned big-endian word equal to the needle,
    never reads past that length, and returns the first match or the
    not-found indicator ([None] for the NULL pointer).  The result is the
    offset in [buf] of the pointer returned. *)
Fixpoint u32memstr_words (n : nat) (buf : list byte) (cur needle : Z)
    : res (option Z) :=
  match n with
  | O => Ok None
  | Datatypes.S k =>
      let* w := reconst_32 buf cur in
      if w =? needle then Ok (Some cur)
      else u32memstr_words k buf (cur + 4) needle
  end.

Definition u32memstr (buf : list byte) (off buflen needle : Z)
    : res (option Z) :=
  u32memstr_words (Z.to_nat (buflen / 4)) buf off needle.

(** ** nisrom.c: the alt-checksum block and the search for RAMF *)

Module Nisrom.

(** Modelled from the spec: [struct fidtype_t] and the [ROM_HAS_*] feature
    bits are declared in nissan_romdefs.h, which is not among the sources.
    Only the members read by the lines modelled below are kept, and
    [has_ALTCKS] stands for [features & ROM_HAS_ALTCKS]. *)
Record fidtype_t : Type := mk_fidtype {
  has_ALTCKS : bool;
  RAMF_header : Z;
  pRAMF_maxdist : Z
}.

(** The members of [struct romfile] that the lines modelled below use. *)
Record romfile : Type := mk_romfile {
  siz : Z;
  buf : list byte;
  fidtype : fidtype_t;
  p_fid : Z;
  sfid_size : Z;
  p_ramf : Z;
  ramf_offset : Z;
  p_acs : Z;
  p_acx : Z;
  p_acstart : Z;
  p_acend : Z;
  cks_alt_good : bool
}.

Definition set_ramf (rf : romfile) (pramf offset : Z) : romfile :=
  mk_romfile (siz rf) (buf rf) (fidtype rf) (p_fid rf) (sfid_size rf)
    pramf offset (p_acs rf) (p_acx rf) (p_acstart rf) (p_acend rf)
    (cks_alt_good rf).

Definition set_acbounds (rf : romfile) (acstart acend : Z) : romfile :=
  mk_romfile (siz rf) (buf rf) (fidtype rf) (p_fid rf) (sfid_size rf)
    (p_ramf rf) (ramf_offset rf) (p_acs rf) (p_acx rf) acstart acend
    (cks_alt_good rf).

Definition set_altcks (rf : romfile) (acs acx : Z) (good : bool) : romfile :=
  mk_romfile (siz rf) (buf rf) (fidtype rf) (p_fid rf) (sfid_size rf)
    (p_ramf rf) (ramf_offset rf) acs acx (p_acstart rf) (p_acend rf) good.

(** [validate_altcks(rf)]: the return value and the record afterwards. *)
Definition validate_altcks (rf : romfile) : res (Z * romfile) :=
  if negb (has_ALTCKS (fidtype rf)) then Ok (-1, rf)
  else if (p_acstart rf =? UINT32_MAX)
          || (p_acend rf =? UINT32_MAX)
          || (p_acend rf <=? p_acstart rf)
  then Ok (-1, rf)
  else
    let altcs_bsize :=
      to_u32 (Z.land (to_u32 (to_u32 (p_acend rf + 1) - p_acstart rf))
                     (to_u32 (Z.lnot 3)) + 4) in
    let* cs := sum32 (buf rf) (p_acstart rf) altcs_bsize in
    let acs := fst cs in
    let acx := snd cs in
    let* pacs := u32memstr (buf rf) 0 (siz rf) acs in
    let* pacx := u32memstr (buf rf) 0 (siz rf) acx in
    match pacs, pacx with
    | Some ps, Some px => Ok (0, set_altcks rf (to_u32 ps) (to_u32 px) true)
    | _, _ => Ok (-1, rf)
    end.

(** [find_ramf], lines 511-528: the [while] loop around the expected
    position, from the current [ramf_adj] and [sign]. *)
Fixpoint ramf_sweep (fuel : nat) (rf : romfile) (ramf_adj sign : Z)
    : res romfile :=
  if ramf_adj <? pRAMF_maxdist (fidtype rf) then
    match fuel with
    | O => Fault OutOfFuel
    | Datatypes.S fuel' =>
        let* testval := reconst_32 (buf rf) (p_ramf rf + sign * ramf_adj) in
        if testval =? RAMF_header (fidtype rf) then
          let offset := sign * ramf_adj in
          Ok (set_ramf rf (to_u32 (p_ramf rf + offset)) offset)
        else if ramf_adj <? 12 then
          let sign := - sign in
          if sign =? 1 then ramf_sweep fuel' rf (ramf_adj + 4) sign
          else ramf_sweep fuel' rf ramf_adj sign
        else ramf_sweep fuel' rf (ramf_adj + 4) 1
    end
  else Ok rf.

(** [find_ramf], line 489 and lines 505-529: the search for the RAMF header
    when [ft->RAMF_header] is not 0. *)
Definition find_ramf_header (rf : romfile) : res romfile :=
  let rf := set_ramf rf (to_u32 (p_fid rf + sfid_size rf)) (ramf_offset rf) in
  let* testval := reconst_32 (buf rf) (p_ramf rf) in
  if testval =? RAMF_header (fidtype rf) then Ok rf
  else ramf_sweep (Z.to_nat (pRAMF_maxdist (fidtype rf))) rf 4 1.

(** [find_ramf], lines 534-546: the check of the alt-checksum bounds and the
    call of [validate_altcks].  No later line of [find_ramf] assigns
    [p_acstart], [p_acend], [p_acs], [p_acx] or [cks_alt_good]. *)
Definition find_ramf_altcks (rf : romfile) : res romfile :=
  if has_ALTCKS (fidtype rf) then
    let rf :=
      if (siz rf <=? p_acstart rf)
         || (siz rf <=? p_acend rf)
         || (p_acend rf <=? p_acstart rf)
      then set_acbounds rf UINT32_MAX UINT32_MAX
      else rf in
    if negb (p_acstart rf =? UINT32_MAX) then
      let* r := validate_altcks rf in
      Ok (snd r)
    else Ok rf
  else Ok rf.

(** *** Rendering the digest *)

(** [static const char hex[]], line 756: sixteen digits and the NUL. *)
Definition hex : list byte :=
  String.list_byte_of_string "0123456789abcdef" ++ [Byte.x00].

(** [render_md5], lines 761-764: the loop, from [i], over a digest of
    [digest_len] bytes; [digest_len] stands for [MD5_DIGEST_LENGTH], which
    md5.h defines.  The result is the output buffer and the final [i]. *)
Fixpoint render_md5_loop (fuel : nat) (digest_len : Z) (digest out : list byte)
    (i : Z) : res (list byte * Z) :=
  if i <? digest_len then
    match fuel with
    | O => Fault OutOfFuel
    | Datatypes.S fuel' =>
        let* d := rd8 digest i in
        let* c := rd8 hex (Z.shiftr (byte.unsigned d) 4) in
        let* out := wr8 out (i + i) c in
        let* d := rd8 digest i in
        let* c := rd8 hex (Z.land (byte.unsigned d) 15) in
        let* out := wr8 out (i + i + 1) c in
        render_md5_loop fuel' digest_len digest out (i + 1)
    end
  else Ok (out, i).

(** [render_md5(digest, buf)]: the output buffer afterwards. *)
Definition render_md5 (digest_len : Z) (digest out : list byte)
    : res (list byte) :=
  let* r := render_md5_loop (Z.to_nat digest_len) digest_len digest out 0 in
  wr8 (fst r) (snd r + snd r) Byte.x00.

(** *** File names *)

(** A C string is given by the list of its characters; the terminating NUL
    is left implicit, and is what is read at index [length s]. *)
Definition char_at (s : list byte) (i : nat) : byte :=
  default Byte.x00 (s !! i).

(** [(c == '\\') || (c == '/')]. *)
Definition is_dirsep (c : byte) : bool :=
  (byte.unsigned c =? 92) || (byte.unsigned c =? 47).

(** Lines 970-976, and 176-182: [for (; pfile > filename; pfile--)], with
    [pfile] as an index into [filename]; the index the loop ends with. *)
Fixpoint scan_back (filename : list byte) (pfile : nat) : nat :=
  match pfile with
  | O => O
  | Datatypes.S k =>
      if is_dirsep (char_at filename pfile) then Datatypes.S pfile
      else scan_back filename k
  end.

(** [get_path_len(filename)]. *)
Definition get_path_len (filename : list byte) : nat :=
  scan_back filename (length filename).

(** [generate_csv_path(dest, csv_filename, argv0)]: the content of [dest]
    afterwards.  [utstring_bincpy] appends [base_len] bytes of [argv0] and
    [utstring_printf] with ["%s"] appends [csv_filename]. *)
Definition generate_csv_path (dest csv_filename argv0 : list byte)
    : list byte :=
  let base_len := get_path_len argv0 in
  (dest ++ take base_len argv0) ++ csv_filename.

(** The characters of the second argument of [strtok] on line 194. *)
Definition ecuid_delims : list byte := String.list_byte_of_string "-_. ".

Definition is_delim (c : byte) : bool :=
  existsb (fun d => byte.unsigned c =? byte.unsigned d) ecuid_delims.

(** [isalnum] and [toupper] of the C locale: the digits and the letters of
    ASCII; no byte from 0x80 on is alphanumeric. *)
Definition isalnum (c : byte) : bool :=
  let v := byte.unsigned c in
  ((48 <=? v) && (v <=? 57)) || ((65 <=? v) && (v <=? 90))
  || ((97 <=? v) && (v <=? 122)).

Definition toupper (c : byte) : byte :=
  let v := byte.unsigned c in
  if (97 <=? v) && (v <=? 122) then byte.of_Z (v - 32) else c.

(** The first call of [strtok] on a string: the leading delimiters are
    skipped; at the end of the string there is no token (NULL); otherwise
    the token runs up to the next delimiter or the end. *)
Fixpoint skip_delims (s : list byte) : list byte :=
  match s with
  | [] => []
  | c :: r => if is_delim c then skip_delims r else s
  end.

Fixpoint token (s : list byte) : list byte :=
  match s with
  | [] => []
  | c :: r => if is_delim c then [] else c :: token r
  end.

Definition strtok (s : list byte) : option (list byte) :=
  match skip_delims s with
  | [] => None
  | t => Some (token t)
  end.

(** Lines 205-210: every character must be alphanumeric and is replaced by
    its upper case; [None] for the [return 0] of line 207. *)
Fixpoint upper_alnum (tok : list byte) : option (list byte) :=
  match tok with
  | [] => Some []
  | c :: r =>
      if isalnum c then
        match upper_alnum r with
        | Some r' => Some (toupper c :: r')
        | None => None
        end
      else None
  end.

Section Ecuid.

(** [ECUID_LEN] is defined in a header that is not among the sources;
    [ECUID_STR_LEN] is taken to be [ECUID_LEN + 1], the characters and the
    terminator, as the documentation of the [ecuid] parameter has it. *)
Variable ECUID_LEN : nat.

(** [ecuid_from_filename(filename, ecuid)]: [None] for a return value of
    0, which leaves [ecuid] as it was, and the string copied to [ecuid] for
    a return value of 1.  [tmp_basename] has one byte more than [strncpy]
    may fill, so it holds the first [ECUID_LEN + 2] characters of the base
    name as a string; the [memcpy] of [ECUID_STR_LEN] bytes copies the
    [ECUID_LEN] characters and the NUL that ends the token. *)
Definition ecuid_from_filename (filename : list byte) : option (list byte) :=
  let pfile := scan_back filename (length filename) in
  let basename := drop pfile filename in
  if (length basename <? ECUID_LEN)%nat then None
  else
    let tmp_basename := take (ECUID_LEN + 2) basename in
    match strtok tmp_basename with
    | None => None
    | Some tok =>
        let tok_len := length tok in
        if negb (tok_len =? ECUID_LEN)%nat && negb (tok_len =? 1 + ECUID_LEN)%nat
        then None
        else
          match upper_alnum tok with
          | None => None
          | Some tok =>
              if (tok_len =? ECUID_LEN + 1)%nat
                 && (byte.unsigned (char_at tok 0) =? 49)
              then Some (drop 1 tok)
              else if (tok_len =? ECUID_LEN)%nat then Some tok
              else None
          end
    end.

End Ecuid.

End Nisrom.

(** ** Reference definitions *)

(** The big-endian words of a byte sequence; a tail of fewer than 4 bytes
    holds no word. *)
Definition be32 (b0 b1 b2 b3 : byte) : Z :=
  byte.unsigned b0 * 2 ^ 24 + byte.unsigned b1 * 2 ^ 16
  + byte.unsigned b2 * 2 ^ 8 + byte.unsigned b3.

Fixpoint words_of (l : list byte) : list Z :=
  match l with
  | b0 :: b1 :: b2 :: b3 :: r => be32 b0 b1 b2 b3 :: words_of r
  | _ => []
  end.

(** Sum modulo 2^32 and xor of a list of words. *)
Definition wsum (ws : list Z) : Z := to_u32 (foldr Z.add 0 ws).
Definition wxor (ws : list Z) : Z := foldr Z.lxor 0 ws.

(** [o] is the offset of a 4-byte-aligned word of the first [siz] bytes of
    [buf] that equals [v]. *)
Definition word_match (buf : list byte) (siz v o : Z) : Prop :=
  0 <= o /\ o mod 4 = 0 /\ o < siz /\ reconst_32 buf o = Ok v.

(** The offsets, from [off] on and 4 apart, of the words of [ws] that equal
    [v], in increasing order. *)
Fixpoint match_offsets (off : Z) (ws : list Z) (v : Z) : list Z :=
  match ws with
  | [] => []
  | w :: ws' =>
      (if w =? v then [off] else []) ++ match_offsets (off + 4) ws' v
  end.

(** The content of an output cell after the stores [l], in order. *)
Definition last_or (d : option Z) (l : list Z) : option Z :=
  match last l with
  | Some o => Some o
  | None => d
  end.

(** [out] names a match that no other match comes before / after. *)
Definition reports_first (buf : list byte) (siz v : Z) (out : option Z) : Prop :=
  forall o, word_match buf siz v o ->
    exists o1, out = Some o1 /\ word_match buf siz v o1 /\ o1 <= o.

Definition reports_last (buf : list byte) (siz v : Z) (out : option Z) : Prop :=
  forall o, word_match buf siz v o ->
    exists o1, out = Some o1 /\ word_match buf siz v o1 /\ o <= o1.

(** The values [checksum_std] derives, from the reference fold. *)
Definition derived_cks (buf : list byte) : Z := wxor (words_of buf).
Definition derived_ckx (buf : list byte) : Z :=
  to_u32 (wsum (words_of buf) - 2 * wxor (words_of buf)).

(** The image with words [ws] carries its standard checksums at the word
    indices [i] and [j]: the word at [i] is the sum modulo 2^32 of all the
    other words and the word at [j] is their xor (nislib.c, lines 36-37). *)
Definition std_valid (ws : list Z) (i j : nat) : Prop :=
  i <> j
  /\ ws !! i = Some (wsum (<[i := 0]> (<[j := 0]> ws)))
  /\ ws !! j = Some (wxor (<[i := 0]> (<[j := 0]> ws))).

(** The lower-case hexadecimal digit of a value from 0 to 15, and the
    string of the two digits of every byte of a sequence, high digit first. *)
Definition hex_digit (v : Z) : byte :=
  default Byte.x00 (Nisrom.hex !! Z.to_nat v).

Fixpoint hex_string (l : list byte) : list byte :=
  match l with
  | [] => []
  | d :: r =>
      hex_digit (byte.unsigned d / 16) :: hex_digit (byte.unsigned d mod 16)
      :: hex_string r
  end.

(** A digit or an upper-case letter. *)
Definition is_upper_alnum (c : byte) : Prop :=
  48 <= byte.unsigned c <= 57 \/ 65 <= byte.unsigned c <= 90.

(** ** Word loops as folds *)

(** The state that a word loop reaches over the words [ws] met from offset
    [off] on, when its body maps the word [w] read at offset [o] and the
    state [s] to [g o w s]. *)
Fixpoint wfold {S : Type} (g : Z -> Z -> S -> S) (off : Z) (ws : list Z)
    (s : S) : S :=
  match ws with
  | [] => s
  | w :: ws' => wfold g (off + 4) ws' (g off w s)
  end.

(** The words [ws], met from offset [off] on, with 0 in place of the words
    at the offsets [p_cks] and [p_ckx], which the fold of [checksum_fix]
    skips. *)
Fixpoint skip_words (p_cks p_ckx off : Z) (ws : list Z) : list Z :=
  match ws with
  | [] => []
  | w :: ws' =>
      (if (off =? p_cks) || (off =? p_ckx) then 0 else w)
      :: skip_words p_cks p_ckx (off + 4) ws'
  end.

(** ** Reference values of a run of checksum_fix *)

(** The words of the image once the three correction words, at the word
    indices [i_cs], [i_cx] and [i_mang], hold [a], [b] and [mang]. *)
Definition with_corrections (ws : list Z) (i_cs i_cx i_mang : nat)
    (a b mang : Z) : list Z :=
  <[i_mang := mang]> (<[i_cx := b]> (<[i_cs := a]> ws)).

(** Sum modulo 2^32 and xor of all words but the two targets [cks] and
    [ckx], which are among the words. *)
Definition sum_others (ws : list Z) (cks ckx : Z) : Z :=
  to_u32 (foldr Z.add 0 ws - cks - ckx).
Definition xor_others (ws : list Z) (cks ckx : Z) : Z :=
  Z.lxor (Z.lxor (foldr Z.lxor 0 ws) cks) ckx.

(** The mangler [checksum_fix] settles on, and the sum target it leaves for
    [a + b]: both from the words [ws0] with the correction words zeroed. *)
Definition fix_mang (ws0 : list Z) (cks ckx : Z) : Z :=
  Z.lxor ckx (xor_others ws0 cks ckx).
Definition fix_residue (ws0 : list Z) (cks ckx : Z) : Z :=
  to_u32 (to_u32 (cks - sum_others ws0 cks ckx) - fix_mang ws0 cks ckx).

(** ** The order of the RAMF probes *)

(** The deltas [find_ramf] tries around the expected position: +4, -4, +8,
    -8, +12, then +16, +20, ... upwards only, each of magnitude below
    [maxdist]. *)
Definition ramf_probes (maxdist : Z) : list Z :=
  List.filter (fun d => Z.abs d <? maxdist) [4; -4; 8; -8; 12]
  ++ map (fun k => 16 + 4 * Z.of_nat k)
         (seq 0 (Z.to_nat ((maxdist - 13) / 4))).

(** The order with a probe at -12 as well, the way
    "+-4, +-8, +-12, +16, +20, ..." reads. *)
Definition ramf_probes_claimed (maxdist : Z) : list Z :=
  List.filter (fun d => Z.abs d <? maxdist) [4; -4; 8; -8; 12; -12]
  ++ map (fun k => 16 + 4 * Z.of_nat k)
         (seq 0 (Z.to_nat ((maxdist - 13) / 4))).

(** Reading the words at [p + d] for the deltas [d] of [ds] in turn: the
    first delta whose word equals [header], if any. *)
Fixpoint first_probe (buf : list byte) (p header : Z) (ds : list Z)
    : res (option Z) :=
  match ds with
  | [] => Ok None
  | d :: ds' =>
      let* w := reconst_32 buf (p + d) in
      if w =? header then Ok (Some d) else first_probe buf p header ds'
  end.

(** The record after a sweep that hit at delta [d], or hit nowhere. *)
Definition ramf_found (rf : Nisrom.romfile) (hit : option Z) : Nisrom.romfile :=
  match hit with
  | Some d => Nisrom.set_ramf rf (to_u32 (Nisrom.p_ramf rf + d)) d
  | None => rf
  end.

(** ** Sample inputs *)

Definition sample_bytes : list byte :=
  [Byte.xde; Byte.xad; Byte.xbe; Byte.xef; Byte.x00; Byte.x01; Byte.x02; Byte.x03].

Definition zeros8 : list byte :=
  [Byte.x00; Byte.x00; Byte.x00; Byte.x00; Byte.x00; Byte.x00; Byte.x00; Byte.x00].

Definition one_word : list byte := [Byte.x00; Byte.x00; Byte.x00; Byte.x01].

Definition zeros20 : list byte := replicate 20 Byte.x00.

(** The words 6, 5, 0, 0, 0, 4: targets [cks = 6] and [ckx = 5] at offsets 0
    and 4, three free correction words at offsets 8, 12 and 16. *)
Definition fix_image : list byte :=
  [Byte.x00; Byte.x00; Byte.x00; Byte.x06; Byte.x00; Byte.x00; Byte.x00; Byte.x05;
   Byte.x00; Byte.x00; Byte.x00; Byte.x00; Byte.x00; Byte.x00; Byte.x00; Byte.x00;
   Byte.x00; Byte.x00; Byte.x00; Byte.x00; Byte.x00; Byte.x00; Byte.x00; Byte.x04].

(** [fix_image] with the word 1 at offset 16. *)
Definition fix_image_after : list byte :=
  [Byte.x00; Byte.x00; Byte.x00; Byte.x06; Byte.x00; Byte.x00; Byte.x00; Byte.x05;
   Byte.x00; Byte.x00; Byte.x00; Byte.x00; Byte.x00; Byte.x00; Byte.x00; Byte.x00;
   Byte.x00; Byte.x00; Byte.x00; Byte.x01; Byte.x00; Byte.x00; Byte.x00; Byte.x04].

(** The words 8, 6, 5, 3: the first is the sum and the second the xor of the
    last two. *)
Definition valid_image : list byte :=
  [Byte.x00; Byte.x00; Byte.x00; Byte.x08; Byte.x00; Byte.x00; Byte.x00; Byte.x06;
   Byte.x00; Byte.x00; Byte.x00; Byte.x05; Byte.x00; Byte.x00; Byte.x00; Byte.x03].

(** The words 6, 4, 0, 0, 0, 4: as [fix_image], with the target [ckx = 4],
    which agrees with [cks = 6] on bit 0. *)
Definition fix_image_even : list byte :=
  [Byte.x00; Byte.x00; Byte.x00; Byte.x06; Byte.x00; Byte.x00; Byte.x00; Byte.x04;
   Byte.x00; Byte.x00; Byte.x00; Byte.x00; Byte.x00; Byte.x00; Byte.x00; Byte.x00;
   Byte.x00; Byte.x00; Byte.x00; Byte.x00; Byte.x00; Byte.x00; Byte.x00; Byte.x04].

(** The words 6, 5, 0, 0, 0, 2: as [fix_image], with 2 for the last word. *)
Definition fix_image_odd : list byte :=
  [Byte.x00; Byte.x00; Byte.x00; Byte.x06; Byte.x00; Byte.x00; Byte.x00; Byte.x05;
   Byte.x00; Byte.x00; Byte.x00; Byte.x00; Byte.x00; Byte.x00; Byte.x00; Byte.x00;
   Byte.x00; Byte.x00; Byte.x00; Byte.x00; Byte.x00; Byte.x00; Byte.x00; Byte.x02].

(** A 64-byte image, zero but for the word 0xFFFF8000 at offset 8, and a
    record that expects RAMF at offset 20 with a search distance of 32. *)
Definition ramf_image : list byte :=
  replicate 8 Byte.x00 ++ [Byte.xff; Byte.xff; Byte.x80; Byte.x00]
  ++ replicate 52 Byte.x00.

Definition ramf_rom (image : list byte) : Nisrom.romfile :=
  Nisrom.mk_romfile (Z.of_nat (length image)) image
    (Nisrom.mk_fidtype true 4294934528 32) 0 20 0 0 0 0 0 0 false.

(** The same with the header word at offset 28. *)
Definition ramf_image_drift : list byte :=
  replicate 28 Byte.x00 ++ [Byte.xff; Byte.xff; Byte.x80; Byte.x00]
  ++ replicate 32 Byte.x00.

(** Sixteen zero bytes as a ROM with an alt-checksum block from offset 0 to
    offset 3. *)
Definition altcks_rom : Nisrom.romfile :=
  Nisrom.mk_romfile 16 (replicate 16 Byte.x00)
    (Nisrom.mk_fidtype true 4294934528 32) 0 0 0 0 0 0 0 3 false.

(** * Facts about the memory model *)

Lemma byte_unsigned_range (b : byte) : 0 <= byte.unsigned b < 256.
Proof.
  unfold byte.unsigned. pose proof (Byte.to_N_bounded b). lia.
Qed.

Lemma byte_testbit_high (b : byte) (i : Z) :
  8 <= i -> Z.testbit (byte.unsigned b) i = false.
Proof.
  intros Hi. pose proof (byte_unsigned_range b) as Hb.
  destruct (Z.eq_dec (byte.unsigned b) 0) as [-> | Hnz].
  - apply Z.bits_0.
  - apply Z.bits_above_log2; [lia |].
    assert (Z.log2 (byte.unsigned b) < 8); [| lia].
    apply Z.log2_lt_pow2; lia.
Qed.

Lemma u32_testbit_high (v i : Z) :
  0 <= v < 2 ^ 32 -> 32 <= i -> Z.testbit v i = false.
Proof.
  intros Hv Hi.
  destruct (Z.eq_dec v 0) as [-> | Hnz].
  - apply Z.bits_0.
  - apply Z.bits_above_log2; [lia |].
    assert (Z.log2 v < 32); [| lia].
    apply Z.log2_lt_pow2; lia.
Qed.

Lemma to_u32_range (z : Z) : 0 <= to_u32 z < 2 ^ 32.
Proof. unfold to_u32. apply Z.mod_pos_bound. lia. Qed.

Lemma to_u32_small (z : Z) : 0 <= z < 2 ^ 32 -> to_u32 z = z.
Proof. intros H. unfold to_u32. apply Z.mod_small. exact H. Qed.

Lemma rd8_lookup (buf : list byte) (off : Z) (b : byte) :
  rd8 buf off = Ok b <-> 0 <= off /\ buf !! Z.to_nat off = Some b.
Proof.
  unfold rd8. destruct (Z.ltb_spec off 0) as [Hneg | Hpos].
  - split; [discriminate | lia].
  - destruct (buf !! Z.to_nat off) as [c |]; split.
    + intros [= ->]. auto.
    + intros [_ [= ->]]. reflexivity.
    + discriminate.
    + intros [_ [=]].
Qed.

Lemma rd8_in_bounds (buf : list byte) (off : Z) :
  0 <= off < Z.of_nat (length buf) -> exists b, rd8 buf off = Ok b.
Proof.
  intros H. destruct (lookup_lt_is_Some_2 buf (Z.to_nat off)) as [b Hb]; [lia |].
  exists b. apply rd8_lookup. split; [lia | exact Hb].
Qed.

Lemma rd8_ok_bounds (buf : list byte) (off : Z) (b : byte) :
  rd8 buf off = Ok b -> 0 <= off < Z.of_nat (length buf).
Proof.
  intros H. apply rd8_lookup in H as [H0 H1].
  apply lookup_lt_Some in H1. lia.
Qed.

Lemma wr8_in_bounds (buf : list byte) (off : Z) (b : byte) :
  0 <= off < Z.of_nat (length buf) ->
  wr8 buf off b = Ok (<[Z.to_nat off := b]> buf).
Proof.
  intros H. unfold wr8.
  destruct (Z.leb_spec 0 off); [| lia].
  destruct (Z.ltb_spec off (Z.of_nat (length buf))); [| lia].
  reflexivity.
Qed.

Lemma wr8_inv (buf buf' : list byte) (off : Z) (b : byte) :
  wr8 buf off b = Ok buf' ->
  0 <= off < Z.of_nat (length buf) /\ buf' = <[Z.to_nat off := b]> buf.
Proof.
  unfold wr8.
  destruct (Z.leb_spec 0 off); destruct (Z.ltb_spec off (Z.of_nat (length buf)));
    simpl; intros [=]; subst; split; (lia || reflexivity).
Qed.

Lemma rd8_insert_eq (buf : list byte) (off : Z) (b : byte) :
  0 <= off < Z.of_nat (length buf) ->
  rd8 (<[Z.to_nat off := b]> buf) off = Ok b.
Proof.
  intros H. apply rd8_lookup. split; [lia |].
  apply list_lookup_insert_eq. lia.
Qed.

Lemma rd8_insert_ne (buf : list byte) (off off' : Z) (b : byte) :
  0 <= off -> off <> off' ->
  rd8 (<[Z.to_nat off := b]> buf) off' = rd8 buf off'.
Proof.
  intros H0 Hne. unfold rd8.
  destruct (Z.ltb_spec off' 0); [reflexivity |].
  rewrite list_lookup_insert_ne by lia. reflexivity.
Qed.

Ltac byte_bits_step :=
  match goal with
  | |- context [Z.testbit (byte.unsigned ?b) ?j] =>
      first [ rewrite (byte_testbit_high b j) by lia
            | rewrite (Z.testbit_neg_r (byte.unsigned b) j) by lia ]
  | |- context [Z.testbit (byte.unsigned ?b) ?j] =>
      first [ assert_fails (assert (0 <= j) by lia);
              assert_fails (assert (j < 0) by lia);
              destruct (Z.lt_ge_cases j 0)
            | assert_fails (assert (8 <= j) by lia);
              assert_fails (assert (j < 8) by lia);
              destruct (Z.lt_ge_cases j 8) ]
  end.
Ltac byte_bits := Z.bitblast; subst; repeat byte_bits_step; try btauto.

Lemma lor_bytes_be32 (b0 b1 b2 b3 : byte) :
  Z.lor (Z.lor (Z.lor (Z.shiftl (byte.unsigned b0) 24)
                      (Z.shiftl (byte.unsigned b1) 16))
               (Z.shiftl (byte.unsigned b2) 8))
        (byte.unsigned b3)
  = be32 b0 b1 b2 b3.
Proof.
  unfold be32.
  rewrite <- !Z.shiftl_mul_pow2 by lia.
  rewrite <- !Z.add_nocarry_lor; [reflexivity | | |]; byte_bits.
Qed.

Lemma be32_range b0 b1 b2 b3 : 0 <= be32 b0 b1 b2 b3 < 2 ^ 32.
Proof.
  unfold be32.
  pose proof (byte_unsigned_range b0). pose proof (byte_unsigned_range b1).
  pose proof (byte_unsigned_range b2). pose proof (byte_unsigned_range b3).
  lia.
Qed.

(* bytes of a word *)
Lemma split_word_bytes (v : Z) : 0 <= v < 2 ^ 32 ->
  be32 (byte.of_Z (Z.land (Z.shiftr (Z.shiftr (Z.shiftr v 8) 8) 8) 255))
       (byte.of_Z (Z.land (Z.shiftr (Z.shiftr v 8) 8) 255))
       (byte.of_Z (Z.land (Z.shiftr v 8) 255))
       (byte.of_Z (Z.land v 255)) = v.
Proof.
  intros Hv. rewrite <- lor_bytes_be32.
  rewrite !byte.unsigned_of_Z. unfold byte.wrap.
  change 255 with (Z.ones 8). rewrite <- !Z.land_ones by lia.
  Z.bitblast. subst.
  rewrite (u32_testbit_high v) by lia. btauto.
Qed.

Lemma word_byte3 b0 b1 b2 b3 :
  byte.of_Z (Z.land (be32 b0 b1 b2 b3) 255) = b3.
Proof.
  apply byte.unsigned_inj. rewrite byte.unsigned_of_Z. unfold byte.wrap.
  rewrite <- lor_bytes_be32.
  change 255 with (Z.ones 8). rewrite <- !Z.land_ones by lia.
  byte_bits.
Qed.
Lemma word_byte2 b0 b1 b2 b3 :
  byte.of_Z (Z.land (Z.shiftr (be32 b0 b1 b2 b3) 8) 255) = b2.
Proof.
  apply byte.unsigned_inj. rewrite byte.unsigned_of_Z. unfold byte.wrap.
  rewrite <- lor_bytes_be32.
  change 255 with (Z.ones 8). rewrite <- !Z.land_ones by lia.
  byte_bits.
Qed.
Lemma word_byte1 b0 b1 b2 b3 :
  byte.of_Z (Z.land (Z.shiftr (Z.shiftr (be32 b0 b1 b2 b3) 8) 8) 255) = b1.
Proof.
  apply byte.unsigned_inj. rewrite byte.unsigned_of_Z. unfold byte.wrap.
  rewrite <- lor_bytes_be32.
  change 255 with (Z.ones 8). rewrite <- !Z.land_ones by lia.
  byte_bits.
Qed.
Lemma word_byte0 b0 b1 b2 b3 :
  byte.of_Z (Z.land (Z.shiftr (Z.shiftr (Z.shiftr (be32 b0 b1 b2 b3) 8) 8) 8) 255) = b0.
Proof.
  apply byte.unsigned_inj. rewrite byte.unsigned_of_Z. unfold byte.wrap.
  rewrite <- lor_bytes_be32.
  change 255 with (Z.ones 8). rewrite <- !Z.land_ones by lia.
  byte_bits.
Qed.

Lemma reconst_32_inv (buf : list byte) (off w : Z) :
  reconst_32 buf off = Ok w <->
  exists b0 b1 b2 b3,
    rd8 buf off = Ok b0 /\ rd8 buf (off + 1) = Ok b1 /\
    rd8 buf (off + 2) = Ok b2 /\ rd8 buf (off + 3) = Ok b3 /\
    w = be32 b0 b1 b2 b3.
Proof.
  unfold reconst_32. split.
  - destruct (rd8 buf off) as [b0 |]; [| discriminate].
    destruct (rd8 buf (off + 1)) as [b1 |]; [| discriminate].
    destruct (rd8 buf (off + 2)) as [b2 |]; [| discriminate].
    destruct (rd8 buf (off + 3)) as [b3 |]; [| discriminate].
    simpl. rewrite lor_bytes_be32. intros [= <-].
    exists b0, b1, b2, b3. auto.
  - intros (b0 & b1 & b2 & b3 & -> & -> & -> & -> & ->). simpl.
    rewrite lor_bytes_be32. reflexivity.
Qed.

Lemma reconst_32_range (buf : list byte) (off w : Z) :
  reconst_32 buf off = Ok w -> 0 <= w < 2 ^ 32.
Proof.
  intros H. apply reconst_32_inv in H as (b0 & b1 & b2 & b3 & _ & _ & _ & _ & ->).
  apply be32_range.
Qed.

Lemma reconst_32_bounds (buf : list byte) (off w : Z) :
  reconst_32 buf off = Ok w -> 0 <= off /\ off + 4 <= Z.of_nat (length buf).
Proof.
  intros H. apply reconst_32_inv in H as (b0 & b1 & b2 & b3 & H0 & _ & _ & H3 & _).
  apply rd8_ok_bounds in H0, H3. lia.
Qed.

Lemma reconst_32_in_bounds (buf : list byte) (off : Z) :
  0 <= off -> off + 4 <= Z.of_nat (length buf) ->
  exists w, reconst_32 buf off = Ok w.
Proof.
  intros H0 H1.
  destruct (rd8_in_bounds buf off) as [b0 E0]; [lia |].
  destruct (rd8_in_bounds buf (off + 1)) as [b1 E1]; [lia |].
  destruct (rd8_in_bounds buf (off + 2)) as [b2 E2]; [lia |].
  destruct (rd8_in_bounds buf (off + 3)) as [b3 E3]; [lia |].
  exists (be32 b0 b1 b2 b3). apply reconst_32_inv. eauto 10.
Qed.

(** The four stores of [write_32b], when the word lies inside the buffer. *)
Lemma write_32b_in_bounds (val : Z) (buf : list byte) (off : Z) :
  0 <= off -> off + 4 <= Z.of_nat (length buf) ->
  write_32b val buf off
  = Ok (<[Z.to_nat off := byte.of_Z (Z.land (Z.shiftr (Z.shiftr (Z.shiftr val 8) 8) 8) 255)]>
       (<[Z.to_nat (off + 1) := byte.of_Z (Z.land (Z.shiftr (Z.shiftr val 8) 8) 255)]>
       (<[Z.to_nat (off + 2) := byte.of_Z (Z.land (Z.shiftr val 8) 255)]>
       (<[Z.to_nat (off + 3) := byte.of_Z (Z.land val 255)]> buf)))).
Proof.
  intros H0 H1. unfold write_32b.
  rewrite wr8_in_bounds by lia. simpl.
  rewrite wr8_in_bounds by (rewrite length_insert; lia). simpl.
  rewrite wr8_in_bounds by (rewrite !length_insert; lia). simpl.
  rewrite wr8_in_bounds by (rewrite !length_insert; lia).
  reflexivity.
Qed.

Lemma write_32b_length (val : Z) (buf buf' : list byte) (off : Z) :
  write_32b val buf off = Ok buf' -> length buf' = length buf.
Proof.
  unfold write_32b. intros H.
  destruct (wr8 buf (off + 3) _) as [b1 |] eqn:E1; [| discriminate].
  simpl in H.
  destruct (wr8 b1 (off + 2) _) as [b2 |] eqn:E2; [| discriminate].
  simpl in H.
  destruct (wr8 b2 (off + 1) _) as [b3 |] eqn:E3; [| discriminate].
  simpl in H.
  apply wr8_inv in E1 as [_ ->], E2 as [_ ->], E3 as [_ ->], H as [_ ->].
  rewrite !length_insert. reflexivity.
Qed.

Lemma write_32b_bounds (val : Z) (buf buf' : list byte) (off : Z) :
  write_32b val buf off = Ok buf' ->
  0 <= off /\ off + 4 <= Z.of_nat (length buf).
Proof.
  unfold write_32b. intros H.
  destruct (wr8 buf (off + 3) _) as [b1 |] eqn:E1; [| discriminate].
  simpl in H.
  destruct (wr8 b1 (off + 2) _) as [b2 |] eqn:E2; [| discriminate].
  simpl in H.
  destruct (wr8 b2 (off + 1) _) as [b3 |] eqn:E3; [| discriminate].
  simpl in H.
  apply wr8_inv in E1 as [B1 ->], E2 as [B2 ->], E3 as [B3 ->], H as [B4 ->].
  lia.
Qed.

(** A byte outside the word keeps its value. *)
Lemma rd8_write_32b_other (val : Z) (buf buf' : list byte) (off o : Z) :
  write_32b val buf off = Ok buf' ->
  o < off \/ off + 4 <= o ->
  rd8 buf' o = rd8 buf o.
Proof.
  intros H Ho. pose proof (write_32b_bounds _ _ _ _ H) as [B0 B1].
  rewrite write_32b_in_bounds in H by lia. injection H as <-.
  rewrite !rd8_insert_ne by lia. reflexivity.
Qed.

Lemma reconst_32_write_32b (val : Z) (buf buf' : list byte) (off : Z) :
  0 <= val < 2 ^ 32 ->
  write_32b val buf off = Ok buf' ->
  reconst_32 buf' off = Ok val.
Proof.
  intros Hv H. pose proof (write_32b_bounds _ _ _ _ H) as [B0 B1].
  rewrite write_32b_in_bounds in H by lia. injection H as <-.
  apply reconst_32_inv.
  eexists _, _, _, _. repeat split.
  - apply rd8_insert_eq. rewrite !length_insert. lia.
  - rewrite rd8_insert_ne by lia. apply rd8_insert_eq. rewrite !length_insert. lia.
  - rewrite !rd8_insert_ne by lia. apply rd8_insert_eq. rewrite !length_insert. lia.
  - rewrite !rd8_insert_ne by lia. apply rd8_insert_eq. lia.
  - symmetry. apply split_word_bytes. exact Hv.
Qed.

(** A word that does not overlap the one written keeps its value. *)
Lemma reconst_32_write_32b_other (val : Z) (buf buf' : list byte) (off o : Z) :
  write_32b val buf off = Ok buf' ->
  o + 4 <= off \/ off + 4 <= o ->
  reconst_32 buf' o = reconst_32 buf o.
Proof.
  intros H Ho. unfold reconst_32.
  rewrite !(rd8_write_32b_other _ _ _ _ _ H) by lia. reflexivity.
Qed.

Lemma write_32b_reconst_32 (buf : list byte) (off w : Z) :
  reconst_32 buf off = Ok w -> write_32b w buf off = Ok buf.
Proof.
  intros H. pose proof (reconst_32_bounds _ _ _ H) as [B0 B1].
  apply reconst_32_inv in H as (b0 & b1 & b2 & b3 & H0 & H1 & H2 & H3 & ->).
  rewrite write_32b_in_bounds by lia.
  rewrite word_byte0, word_byte1, word_byte2, word_byte3.
  apply rd8_lookup in H0 as [_ H0], H1 as [_ H1], H2 as [_ H2], H3 as [_ H3].
  rewrite (list_insert_id _ _ _ H3), (list_insert_id _ _ _ H2),
          (list_insert_id _ _ _ H1), (list_insert_id _ _ _ H0).
  reflexivity.
Qed.

(** * Big-endian word access (C10) *)

(** C10.  Big-endian word access round-trips: for a 32-bit value [v] and a
    word that lies inside the buffer, [reconst_32] after [write_32b] of [v]
    returns [v]; and [write_32b] of the value [reconst_32] returns stores the
    bytes that were there, so the buffer is unchanged. *)
Theorem reconst_write_roundtrip (v : Z) (buf : list byte) (off : Z) :
  0 <= v < 2 ^ 32 ->
  0 <= off ->
  off + 4 <= Z.of_nat (length buf) ->
  (exists buf', write_32b v buf off = Ok buf' /\ reconst_32 buf' off = Ok v)
  /\ (exists w, reconst_32 buf off = Ok w /\ write_32b w buf off = Ok buf).
Proof.
  intros Hv H0 H1. split.
  - eexists. split.
    + apply write_32b_in_bounds; lia.
    + eapply reconst_32_write_32b; [exact Hv |].
      apply write_32b_in_bounds; lia.
  - destruct (reconst_32_in_bounds buf off H0 H1) as [w Hw].
    exists w. split; [exact Hw |].
    apply write_32b_reconst_32. exact Hw.
Qed.

Lemma reconst_write_roundtrip_witness :
  (0 <= 305419896 < 2 ^ 32) /\ 0 <= 4 /\ 4 + 4 <= Z.of_nat (length sample_bytes)
  /\ (exists buf', write_32b 305419896 sample_bytes 4 = Ok buf'
                   /\ reconst_32 buf' 4 = Ok 305419896)
  /\ (exists w, reconst_32 sample_bytes 4 = Ok w
                /\ write_32b w sample_bytes 4 = Ok sample_bytes).
Proof.
  assert (Hv : 0 <= 305419896 < 2 ^ 32) by lia.
  assert (H0 : 0 <= 4) by lia.
  assert (H1 : 4 + 4 <= Z.of_nat (length sample_bytes)) by (simpl; lia).
  split; [exact Hv |]. split; [exact H0 |]. split; [exact H1 |].
  exact (reconst_write_roundtrip 305419896 sample_bytes 4 Hv H0 H1).
Defined.

Example reconst_32_sample : reconst_32 sample_bytes 0 = Ok 3735928559.
Proof. reflexivity. Qed.

Example write_32b_sample :
  write_32b 66051 sample_bytes 0
  = Ok [Byte.x00; Byte.x01; Byte.x02; Byte.x03; Byte.x00; Byte.x01; Byte.x02; Byte.x03].
Proof. reflexivity. Qed.

(** * Word loops *)

Lemma rd8_app_r (pre suf : list byte) (k : Z) (b : byte) :
  rd8 suf k = Ok b -> rd8 (pre ++ suf) (Z.of_nat (length pre) + k) = Ok b.
Proof.
  intros H. apply rd8_lookup in H as [Hk H]. apply rd8_lookup.
  split; [lia |].
  replace (Z.to_nat (Z.of_nat (length pre) + k))
    with (length pre + Z.to_nat k)%nat by lia.
  rewrite lookup_app_r by lia.
  replace (length pre + Z.to_nat k - length pre)%nat with (Z.to_nat k) by lia.
  exact H.
Qed.

Lemma reconst_32_app_r (pre suf : list byte) (k w : Z) :
  reconst_32 suf k = Ok w ->
  reconst_32 (pre ++ suf) (Z.of_nat (length pre) + k) = Ok w.
Proof.
  intros H.
  apply reconst_32_inv in H as (b0 & b1 & b2 & b3 & H0 & H1 & H2 & H3 & ->).
  apply reconst_32_inv. exists b0, b1, b2, b3.
  rewrite <- !Z.add_assoc.
  repeat split; apply rd8_app_r; assumption.
Qed.

Lemma reconst_32_head (b0 b1 b2 b3 : byte) (r : list byte) :
  reconst_32 (b0 :: b1 :: b2 :: b3 :: r) 0 = Ok (be32 b0 b1 b2 b3).
Proof. unfold reconst_32. simpl. rewrite lor_bytes_be32. reflexivity. Qed.

Lemma length_words_of (n : nat) (l : list byte) :
  length l = (4 * n)%nat -> length (words_of l) = n.
Proof.
  revert l. induction n as [| n IH]; intros l Hl.
  - destruct l; [reflexivity | discriminate].
  - destruct l as [| b0 [| b1 [| b2 [| b3 r]]]]; simpl in Hl; try lia.
    simpl. f_equal. apply IH. lia.
Qed.

(** A word loop over a buffer of [4 * n] bytes runs its body on the [n]
    words in order and stops; [n] is fuel enough. *)
Lemma for_words_wfold {S : Type} (g : Z -> Z -> S -> S)
    (body : Z -> S -> res S) (buf : list byte) :
  (forall off w s, reconst_32 buf off = Ok w -> body off s = Ok (g off w s)) ->
  forall (n : nat) (suf pre : list byte) (s : S) (fuel : nat),
    buf = pre ++ suf ->
    length suf = (4 * n)%nat ->
    (n <= fuel)%nat ->
    for_words fuel body (Z.of_nat (length pre)) (Z.of_nat (length buf)) s
    = Ok (wfold g (Z.of_nat (length pre)) (words_of suf) s).
Proof.
  intros Hbody. induction n as [| n IH]; intros suf pre s fuel Hbuf Hlen Hfuel.
  - destruct suf; [| discriminate]. subst buf. rewrite app_nil_r.
    destruct fuel; simpl; rewrite Z.ltb_irrefl; reflexivity.
  - destruct suf as [| b0 [| b1 [| b2 [| b3 r]]]]; simpl in Hlen; try lia.
    destruct fuel as [| fuel]; [lia |].
    assert (Hw : reconst_32 buf (Z.of_nat (length pre)) = Ok (be32 b0 b1 b2 b3)).
    { subst buf. rewrite <- (Z.add_0_r (Z.of_nat (length pre))).
      apply reconst_32_app_r, reconst_32_head. }
    simpl for_words.
    destruct (Z.ltb_spec (Z.of_nat (length pre)) (Z.of_nat (length buf))) as [_ | Hge].
    2: { subst buf. rewrite length_app in Hge. simpl in Hge. lia. }
    rewrite (Hbody _ _ s Hw). simpl bind. cbn [words_of wfold].
    replace (Z.of_nat (length pre) + 4)
      with (Z.of_nat (length (pre ++ [b0; b1; b2; b3])))
      by (rewrite length_app; simpl; lia).
    rewrite (IH r (pre ++ [b0; b1; b2; b3]) _ fuel).
    + reflexivity.
    + subst buf. rewrite <- app_assoc. reflexivity.
    + lia.
    + lia.
Qed.

Lemma for_words_whole {S : Type} (g : Z -> Z -> S -> S)
    (body : Z -> S -> res S) (buf : list byte) (s : S) :
  (forall off w s, reconst_32 buf off = Ok w -> body off s = Ok (g off w s)) ->
  Z.of_nat (length buf) mod 4 = 0 ->
  for_words (Z.to_nat (Z.of_nat (length buf))) body 0 (Z.of_nat (length buf)) s
  = Ok (wfold g 0 (words_of buf) s).
Proof.
  intros Hbody Hmod.
  apply (for_words_wfold g body buf Hbody (length buf / 4)%nat buf [] s).
  - reflexivity.
  - apply Z.mod_divide in Hmod; [| lia]. destruct Hmod as [k Hk].
    assert (length buf = (Z.to_nat k * 4)%nat) as -> by lia.
    rewrite Nat.div_mul by lia. lia.
  - rewrite Nat2Z.id. apply Nat.Div0.div_le_upper_bound. lia.
Qed.

(** The sum and xor accumulated by the two folds of nislib.c. *)
Lemma wfold_sum_xor (off : Z) (ws : list Z) (s x : Z) :
  0 <= s < 2 ^ 32 ->
  wfold (fun _ w acc => (to_u32 (fst acc + w), Z.lxor (snd acc) w)) off ws (s, x)
  = (to_u32 (s + foldr Z.add 0 ws), Z.lxor x (foldr Z.lxor 0 ws)).
Proof.
  revert off s x. induction ws as [| w ws IH]; intros off s x Hs.
  - simpl. rewrite Z.add_0_r, Z.lxor_0_r, to_u32_small by exact Hs. reflexivity.
  - cbn [wfold foldr fst snd]. rewrite IH by apply to_u32_range.
    f_equal.
    + unfold to_u32. rewrite Zplus_mod_idemp_l. f_equal. lia.
    + apply Z.lxor_assoc.
Qed.

Lemma std_fold_body_spec (buf : list byte) (off w : Z) (acc : Z * Z) :
  reconst_32 buf off = Ok w ->
  Nislib.std_fold_body buf off acc
  = Ok (to_u32 (fst acc + w), Z.lxor (snd acc) w).
Proof. intros H. unfold Nislib.std_fold_body. rewrite H. reflexivity. Qed.

(** * checksum_std: the derived values *)

(** Lines 51-62 on a buffer of whole words. *)
Lemma std_targets_spec (buf : list byte) :
  Z.of_nat (length buf) mod 4 = 0 ->
  Nislib.std_targets buf (Z.of_nat (length buf))
  = Ok (wxor (words_of buf),
        to_u32 (wsum (words_of buf) - 2 * wxor (words_of buf))).
Proof.
  intros Hmod. unfold Nislib.std_targets.
  rewrite (for_words_whole _ _ buf (0, 0) (std_fold_body_spec buf) Hmod).
  rewrite wfold_sum_xor by lia. cbn [bind fst snd].
  rewrite Z.add_0_l, Z.lxor_0_l. unfold wsum, wxor.
  do 2 f_equal. unfold to_u32. rewrite Zminus_mod_idemp_r. reflexivity.
Qed.

(** The call as a search for the two derived values. *)
Lemma checksum_std_whole (buf : list byte) :
  0 < Z.of_nat (length buf) ->
  Z.of_nat (length buf) mod 4 = 0 ->
  Nislib.checksum_std buf (Z.of_nat (length buf))
  = Nislib.std_locate buf (Z.of_nat (length buf)) (wxor (words_of buf))
      (to_u32 (wsum (words_of buf) - 2 * wxor (words_of buf))).
Proof.
  intros Hpos Hmod. unfold Nislib.checksum_std.
  destruct (Z.leb_spec (Z.of_nat (length buf)) 0); [lia |].
  rewrite (std_targets_spec buf Hmod). reflexivity.
Qed.

Example std_targets_sample :
  Nislib.std_targets sample_bytes 8 = Ok (3735862508, 559236890).
Proof. reflexivity. Qed.

(** * checksum_std: the search (C5, C6, C7) *)

Lemma words_of_lookup (buf : list byte) (i : nat) (w : Z) :
  words_of buf !! i = Some w -> reconst_32 buf (4 * Z.of_nat i) = Ok w.
Proof.
  revert buf. induction i as [| i IH]; intros buf H;
    destruct buf as [| b0 [| b1 [| b2 [| b3 r]]]]; try discriminate.
  - simpl in H. injection H as <-. apply reconst_32_head.
  - cbn [words_of] in H. simpl lookup in H.
    apply IH in H.
    apply (reconst_32_app_r [b0; b1; b2; b3]) in H. simpl in H.
    replace (4 * Z.of_nat (Datatypes.S i)) with (4 + 4 * Z.of_nat i) by lia.
    exact H.
Qed.

Lemma word_match_lookup (buf : list byte) (v o : Z) :
  Z.of_nat (length buf) mod 4 = 0 ->
  word_match buf (Z.of_nat (length buf)) v o <->
  exists i : nat, words_of buf !! i = Some v /\ o = 4 * Z.of_nat i.
Proof.
  intros Hmod. split.
  - intros (H0 & H4 & Hlt & Hr).
    apply Z.mod_divide in H4 as [k Hk]; [| lia].
    apply Z.mod_divide in Hmod as [n Hn]; [| lia].
    assert (Hlen : length (words_of buf) = Z.to_nat n)
      by (apply length_words_of; lia).
    exists (Z.to_nat k).
    destruct (lookup_lt_is_Some_2 (words_of buf) (Z.to_nat k)) as [w Hw]; [lia |].
    pose proof (words_of_lookup _ _ _ Hw) as Hr'.
    replace (4 * Z.of_nat (Z.to_nat k)) with o in Hr' by lia.
    rewrite Hr in Hr'. injection Hr' as <-. split; [exact Hw | lia].
  - intros (i & Hi & ->).
    pose proof (words_of_lookup _ _ _ Hi) as Hr.
    pose proof (reconst_32_bounds _ _ _ Hr).
    unfold word_match. repeat split; try lia; [| exact Hr].
    rewrite Z.mul_comm. apply Z.mod_mul. lia.
Qed.

Lemma elem_of_match_offsets (off : Z) (ws : list Z) (v o : Z) :
  o ∈ match_offsets off ws v <->
  exists i : nat, ws !! i = Some v /\ o = off + 4 * Z.of_nat i.
Proof.
  revert off. induction ws as [| w ws IH]; intros off.
  - simpl. split; [intros H; inversion H | intros (i & Hi & _); discriminate].
  - cbn [match_offsets]. rewrite elem_of_app, IH. split.
    + intros [H | (i & Hi & ->)].
      * destruct (Z.eqb_spec w v) as [-> | _]; [| inversion H].
        apply list_elem_of_singleton in H as ->. exists 0%nat. split; [reflexivity | lia].
      * exists (Datatypes.S i). split; [exact Hi | lia].
    + intros ([| i] & Hi & ->).
      * left. simpl in Hi. injection Hi as ->. rewrite Z.eqb_refl.
        apply list_elem_of_singleton. lia.
      * right. exists i. split; [exact Hi | lia].
Qed.

Lemma match_offsets_lower (off : Z) (ws : list Z) (v o : Z) :
  o ∈ match_offsets off ws v -> off <= o.
Proof. intros H. apply elem_of_match_offsets in H as (i & _ & ->). lia. Qed.

Lemma last_or_cons (d : option Z) (x : Z) (l : list Z) :
  last_or d (x :: l) = last_or (Some x) l.
Proof. unfold last_or. rewrite last_cons. destruct (last l); reflexivity. Qed.

(** The last offset of [match_offsets] is the greatest. *)
Lemma match_offsets_last (off : Z) (ws : list Z) (v m o : Z) :
  last (match_offsets off ws v) = Some m ->
  o ∈ match_offsets off ws v ->
  m ∈ match_offsets off ws v /\ o <= m.
Proof.
  revert off. induction ws as [| w ws IH]; intros off Hl Ho.
  - inversion Ho.
  - cbn [match_offsets] in *.
    destruct (last (match_offsets (off + 4) ws v)) as [m' |] eqn:El.
    + assert (m' = m) as ->.
      { destruct (w =? v); simpl in Hl; [rewrite last_cons, El in Hl |];
          congruence. }
      apply elem_of_app in Ho as [Ho | Ho].
      * assert (m ∈ match_offsets (off + 4) ws v) as Hm.
        { apply last_Some in El as [l' ->]. apply elem_of_app. right. left. }
        split; [apply elem_of_app; right; exact Hm |].
        apply match_offsets_lower in Hm.
        destruct (w =? v); [| inversion Ho].
        apply list_elem_of_singleton in Ho as ->. lia.
      * destruct (IH _ El Ho) as [Hm Hle].
        split; [apply elem_of_app; right; exact Hm | exact Hle].
    + apply last_None in El. rewrite El in *. rewrite app_nil_r in *.
      destruct (w =? v); [| inversion Ho].
      simpl in Hl. injection Hl as <-.
      apply list_elem_of_singleton in Ho as ->. split; [left | lia].
Qed.

(** The second loop of [checksum_std], on the words met. *)
Lemma wfold_scan (cks ckx off : Z) (ws : list Z) (st : Nislib.std_scan) :
  wfold (Nislib.std_scan_word cks ckx) off ws st
  = Nislib.mk_scan
      (last_or (Nislib.sc_cks st) (match_offsets off ws cks))
      (last_or (Nislib.sc_ckx st) (match_offsets off ws ckx))
      (Nislib.ckscount st + Z.of_nat (length (match_offsets off ws cks)))
      (Nislib.ckxcount st + Z.of_nat (length (match_offsets off ws ckx))).
Proof.
  revert off st. induction ws as [| w ws IH]; intros off st.
  - destruct st. simpl. unfold last_or. simpl. rewrite !Z.add_0_r. reflexivity.
  - cbn [wfold match_offsets]. rewrite IH. unfold Nislib.std_scan_word.
    destruct (w =? cks), (w =? ckx); cbn [app Nislib.sc_cks Nislib.sc_ckx
      Nislib.ckscount Nislib.ckxcount length];
      rewrite ?last_or_cons; f_equal; lia.
Qed.

Lemma std_scan_body_spec (buf : list byte) (cks ckx off w : Z)
    (st : Nislib.std_scan) :
  reconst_32 buf off = Ok w ->
  Nislib.std_scan_body buf cks ckx off st
  = Ok (Nislib.std_scan_word cks ckx off w st).
Proof. intros H. unfold Nislib.std_scan_body. rewrite H. reflexivity. Qed.

(** What [std_locate] returns on a buffer of whole words. *)
Lemma std_locate_spec (buf : list byte) (cks ckx : Z) :
  Z.of_nat (length buf) mod 4 = 0 ->
  Nislib.std_locate buf (Z.of_nat (length buf)) cks ckx
  = Ok (Nislib.std_finish
          (Nislib.mk_scan
             (last (match_offsets 0 (words_of buf) cks))
             (last (match_offsets 0 (words_of buf) ckx))
             (Z.of_nat (length (match_offsets 0 (words_of buf) cks)))
             (Z.of_nat (length (match_offsets 0 (words_of buf) ckx))))).
Proof.
  intros Hmod. unfold Nislib.std_locate.
  rewrite (for_words_whole _ _ buf _ (std_scan_body_spec buf cks ckx) Hmod).
  rewrite wfold_scan. cbn [bind]. do 2 f_equal.
  unfold last_or. cbn [Nislib.sc_cks Nislib.sc_ckx].
  f_equal; try (destruct (last _); reflexivity).
Qed.

Lemma word_match_offsets (buf : list byte) (v o : Z) :
  Z.of_nat (length buf) mod 4 = 0 ->
  word_match buf (Z.of_nat (length buf)) v o
  <-> o ∈ match_offsets 0 (words_of buf) v.
Proof.
  intros Hmod. rewrite word_match_lookup by exact Hmod.
  rewrite elem_of_match_offsets. reflexivity.
Qed.

Lemma reports_last_offsets (buf : list byte) (v : Z) :
  Z.of_nat (length buf) mod 4 = 0 ->
  reports_last buf (Z.of_nat (length buf)) v
    (last (match_offsets 0 (words_of buf) v)).
Proof.
  intros Hmod o Ho. apply word_match_offsets in Ho; [| exact Hmod].
  destruct (last (match_offsets 0 (words_of buf) v)) as [m |] eqn:El.
  - destruct (match_offsets_last _ _ _ _ _ El Ho) as [Hm Hle].
    exists m. split; [reflexivity |]. split; [| exact Hle].
    apply word_match_offsets; assumption.
  - apply last_None in El. rewrite El in Ho. inversion Ho.
Qed.

Lemma two_elems_length (l : list Z) (o1 o2 : Z) :
  o1 ∈ l -> o2 ∈ l -> o1 <> o2 -> (2 <= length l)%nat.
Proof.
  intros H1 H2 Hne. destruct l as [| a [| b l]]; simpl; try lia.
  - inversion H1.
  - apply list_elem_of_singleton in H1, H2. congruence.
Qed.

Lemma std_finish_cells (st : Nislib.std_scan) :
  Nislib.o_cks (Nislib.std_finish st) = Nislib.sc_cks st
  /\ Nislib.o_ckx (Nislib.std_finish st) = Nislib.sc_ckx st.
Proof.
  unfold Nislib.std_finish.
  destruct ((Nislib.ckxcount st =? 0) && (Nislib.ckscount st =? 0)); auto.
Qed.

Lemma std_finish_warns (st : Nislib.std_scan) :
  1 < Nislib.ckscount st \/ 1 < Nislib.ckxcount st ->
  In MsgManyCks (Nislib.std_msgs (Nislib.std_finish st)).
Proof.
  intros H. unfold Nislib.std_finish.
  assert ((1 <? Nislib.ckxcount st) || (1 <? Nislib.ckscount st) = true) as ->.
  { apply orb_true_iff. rewrite !Z.ltb_lt. lia. }
  destruct ((Nislib.ckxcount st =? 0) && (Nislib.ckscount st =? 0));
    simpl; auto.
Qed.

(** The outputs of [checksum_std] on a buffer of whole words. *)
Lemma checksum_std_cells (buf : list byte) (r : Nislib.std_out) :
  0 < Z.of_nat (length buf) ->
  Z.of_nat (length buf) mod 4 = 0 ->
  Nislib.checksum_std buf (Z.of_nat (length buf)) = Ok r ->
  Nislib.o_cks r = last (match_offsets 0 (words_of buf) (derived_cks buf))
  /\ Nislib.o_ckx r = last (match_offsets 0 (words_of buf) (derived_ckx buf))
  /\ (Nislib.std_ret r
      = if (Z.of_nat (length (match_offsets 0 (words_of buf) (derived_ckx buf))) =? 0)
           && (Z.of_nat (length (match_offsets 0 (words_of buf) (derived_cks buf))) =? 0)
        then -1 else 0).
Proof.
  intros Hpos Hmod Hr.
  rewrite (checksum_std_whole buf Hpos Hmod) in Hr.
  rewrite std_locate_spec in Hr by exact Hmod. injection Hr as <-.
  unfold derived_cks, derived_ckx.
  destruct (std_finish_cells
    (Nislib.mk_scan
       (last (match_offsets 0 (words_of buf) (wxor (words_of buf))))
       (last (match_offsets 0 (words_of buf)
          (to_u32 (wsum (words_of buf) - 2 * wxor (words_of buf)))))
       (Z.of_nat (length (match_offsets 0 (words_of buf) (wxor (words_of buf)))))
       (Z.of_nat (length (match_offsets 0 (words_of buf)
          (to_u32 (wsum (words_of buf) - 2 * wxor (words_of buf))))))))
    as [E1 E2].
  split; [exact E1 |]. split; [exact E2 |].
  unfold Nislib.std_finish. cbn [Nislib.ckxcount Nislib.ckscount].
  destruct (_ && _); reflexivity.
Qed.

(** On a buffer of whole words the call returns. *)
Lemma checksum_std_total (buf : list byte) :
  0 < Z.of_nat (length buf) ->
  Z.of_nat (length buf) mod 4 = 0 ->
  exists r, Nislib.checksum_std buf (Z.of_nat (length buf)) = Ok r.
Proof.
  intros Hpos Hmod.
  rewrite (checksum_std_whole buf Hpos Hmod), std_locate_spec by exact Hmod.
  eexists. reflexivity.
Qed.

Lemma last_nonempty (l : list Z) (o : Z) :
  o ∈ l -> exists m, last l = Some m.
Proof.
  intros Ho. destruct (last l) as [m |] eqn:El; [eauto |].
  apply last_None in El. subst l. inversion Ho.
Qed.

(** C5.  For a buffer whose length is a positive multiple of 4,
    [checksum_std] computes the sum modulo 2^32 and the xor of all the
    big-endian words and derives [cks = xort] and [ckx = sumt - 2 * xort]
    modulo 2^32.  These are the values it searches for in the image: the
    call returns; an offset it stores through [p_cks] (through [p_ckx]) is
    an aligned offset of the image whose word is [cks] ([ckx]); a value
    that occurs as an aligned word of the image has an offset stored; and
    the return value is 0 exactly when one of the two values occurs. *)
Theorem checksum_std_derives (buf : list byte) (siz : Z) :
  siz = Z.of_nat (length buf) ->
  0 < siz ->
  siz mod 4 = 0 ->
  let cks := wxor (words_of buf) in
  let ckx := to_u32 (wsum (words_of buf) - 2 * wxor (words_of buf)) in
  Nislib.std_targets buf siz = Ok (cks, ckx)
  /\ exists r,
       Nislib.checksum_std buf siz = Ok r
       /\ (forall p, Nislib.o_cks r = Some p -> word_match buf siz cks p)
       /\ (forall q, Nislib.o_ckx r = Some q -> word_match buf siz ckx q)
       /\ (forall o, word_match buf siz cks o ->
             exists p, Nislib.o_cks r = Some p)
       /\ (forall o, word_match buf siz ckx o ->
             exists q, Nislib.o_ckx r = Some q)
       /\ (Nislib.std_ret r = 0 <->
           exists o, word_match buf siz cks o \/ word_match buf siz ckx o).
Proof.
  intros -> Hpos Hmod cks ckx.
  split; [apply std_targets_spec; exact Hmod |].
  destruct (checksum_std_total buf Hpos Hmod) as [r Hr].
  destruct (checksum_std_cells buf r Hpos Hmod Hr) as (Ec & Ex & Eret).
  change (derived_cks buf) with cks in Ec, Eret.
  change (derived_ckx buf) with ckx in Ex, Eret.
  exists r. split; [exact Hr |].
  split.
  { intros p Hp. rewrite Ec in Hp. apply last_Some_elem_of in Hp.
    apply word_match_offsets; assumption. }
  split.
  { intros q Hq. rewrite Ex in Hq. apply last_Some_elem_of in Hq.
    apply word_match_offsets; assumption. }
  split.
  { intros o Ho. apply word_match_offsets in Ho; [| exact Hmod].
    rewrite Ec. exact (last_nonempty _ _ Ho). }
  split.
  { intros o Ho. apply word_match_offsets in Ho; [| exact Hmod].
    rewrite Ex. exact (last_nonempty _ _ Ho). }
  rewrite Eret. split.
  - destruct (match_offsets 0 (words_of buf) ckx) as [| o l] eqn:Elx.
    + destruct (match_offsets 0 (words_of buf) cks) as [| o l] eqn:Els;
        [discriminate |].
      intros _. exists o. left. apply word_match_offsets; [exact Hmod |].
      rewrite Els. left.
    + intros _. exists o. right. apply word_match_offsets; [exact Hmod |].
      rewrite Elx. left.
  - intros (o & [Ho | Ho]); apply word_match_offsets in Ho; try exact Hmod.
    + destruct (match_offsets 0 (words_of buf) cks) as [| o' l];
        [inversion Ho |].
      rewrite andb_false_r. reflexivity.
    + destruct (match_offsets 0 (words_of buf) ckx) as [| o' l];
        [inversion Ho |].
      reflexivity.
Qed.

Lemma checksum_std_derives_witness :
  16 = Z.of_nat (length valid_image) /\ 0 < 16 /\ 16 mod 4 = 0
  /\ Nislib.std_targets valid_image 16 = Ok (8, 6)
  /\ exists r,
       Nislib.checksum_std valid_image 16 = Ok r
       /\ (forall p, Nislib.o_cks r = Some p -> word_match valid_image 16 8 p)
       /\ (forall q, Nislib.o_ckx r = Some q -> word_match valid_image 16 6 q)
       /\ (forall o, word_match valid_image 16 8 o ->
             exists p, Nislib.o_cks r = Some p)
       /\ (forall o, word_match valid_image 16 6 o ->
             exists q, Nislib.o_ckx r = Some q)
       /\ (Nislib.std_ret r = 0 <->
           exists o, word_match valid_image 16 8 o
                     \/ word_match valid_image 16 6 o).
Proof.
  assert (H0 : 16 = Z.of_nat (length valid_image)) by reflexivity.
  assert (H1 : 0 < 16) by lia.
  assert (H2 : 16 mod 4 = 0) by reflexivity.
  split; [exact H0 |]. split; [exact H1 |]. split; [exact H2 |].
  exact (checksum_std_derives valid_image 16 H0 H1 H2).
Defined.

(** C6, as the code has it.  On a buffer of whole words [checksum_std]
    returns, and each of its outputs is the last matching offset, that is
    the greatest aligned offset whose word equals the derived value; and
    when one of the two derived values is found at two offsets, the warning
    about more than one set of checksums is printed. *)
Theorem checksum_std_reports_last (buf : list byte) (siz : Z) :
  siz = Z.of_nat (length buf) ->
  0 < siz ->
  siz mod 4 = 0 ->
  exists r,
    Nislib.checksum_std buf siz = Ok r
    /\ reports_last buf siz (derived_cks buf) (Nislib.o_cks r)
    /\ reports_last buf siz (derived_ckx buf) (Nislib.o_ckx r)
    /\ (forall v o1 o2,
          v = derived_cks buf \/ v = derived_ckx buf ->
          word_match buf siz v o1 -> word_match buf siz v o2 -> o1 <> o2 ->
          In MsgManyCks (Nislib.std_msgs r)).
Proof.
  intros Hsiz Hpos Hmod.
  subst siz. rewrite (checksum_std_whole buf Hpos Hmod).
  rewrite std_locate_spec by exact Hmod.
  eexists. split; [reflexivity |].
  destruct (std_finish_cells
    (Nislib.mk_scan
       (last (match_offsets 0 (words_of buf) (wxor (words_of buf))))
       (last (match_offsets 0 (words_of buf)
          (to_u32 (wsum (words_of buf) - 2 * wxor (words_of buf)))))
       (Z.of_nat (length (match_offsets 0 (words_of buf) (wxor (words_of buf)))))
       (Z.of_nat (length (match_offsets 0 (words_of buf)
          (to_u32 (wsum (words_of buf) - 2 * wxor (words_of buf)))))))) as [-> ->].
  cbn [Nislib.sc_cks Nislib.sc_ckx].
  split; [apply reports_last_offsets; exact Hmod |].
  split; [apply reports_last_offsets; exact Hmod |].
  intros v o1 o2 Hv H1 H2 Hne.
  apply word_match_offsets in H1, H2; try exact Hmod.
  pose proof (two_elems_length _ _ _ H1 H2 Hne) as Hlen.
  apply std_finish_warns. cbn [Nislib.ckscount Nislib.ckxcount].
  unfold derived_cks, derived_ckx in Hv.
  destruct Hv as [-> | ->]; [left | right]; lia.
Qed.

Lemma checksum_std_reports_last_witness :
  8 = Z.of_nat (length zeros8) /\ 0 < 8 /\ 8 mod 4 = 0
  /\ exists r,
       Nislib.checksum_std zeros8 8 = Ok r
       /\ reports_last zeros8 8 (derived_cks zeros8) (Nislib.o_cks r)
       /\ reports_last zeros8 8 (derived_ckx zeros8) (Nislib.o_ckx r)
       /\ (forall v o1 o2,
             v = derived_cks zeros8 \/ v = derived_ckx zeros8 ->
             word_match zeros8 8 v o1 -> word_match zeros8 8 v o2 ->
             o1 <> o2 ->
             In MsgManyCks (Nislib.std_msgs r)).
Proof.
  assert (H0 : 8 = Z.of_nat (length zeros8)) by reflexivity.
  assert (H1 : 0 < 8) by lia.
  assert (H2 : 8 mod 4 = 0) by reflexivity.
  split; [exact H0 |]. split; [exact H1 |]. split; [exact H2 |].
  exact (checksum_std_reports_last zeros8 8 H0 H1 H2).
Defined.

(** C6, as stated, fails: in an image of two zero words both derived values
    are 0 and both words match; the first match is at offset 0, and
    [checksum_std] reports offset 4. *)
Lemma checksum_std_first_match_counterexample :
  Nislib.checksum_std zeros8 8
  = Ok (Nislib.mk_std 0 (Some 4) (Some 4) [MsgManyCks])
  /\ word_match zeros8 8 (derived_cks zeros8) 0
  /\ word_match zeros8 8 (derived_cks zeros8) 4
  /\ ~ reports_first zeros8 8 (derived_cks zeros8) (Some 4).
Proof.
  split; [reflexivity |].
  assert (H0 : word_match zeros8 8 (derived_cks zeros8) 0).
  { unfold word_match. repeat split; try lia; reflexivity. }
  split; [exact H0 |].
  split; [unfold word_match; repeat split; try lia; reflexivity |].
  intros Hfirst. destruct (Hfirst 0 H0) as (o1 & Ho1 & _ & Hle).
  injection Ho1 as <-. lia.
Qed.

(** On a buffer of whole words [checksum_std] returns, with -1 exactly
    when neither derived value is found and 0 otherwise; a value that is
    not found leaves its output cell unwritten. *)
Lemma checksum_std_return (buf : list byte) (siz : Z) :
  siz = Z.of_nat (length buf) ->
  0 < siz ->
  siz mod 4 = 0 ->
  exists r,
    Nislib.checksum_std buf siz = Ok r
    /\ (Nislib.std_ret r = -1 \/ Nislib.std_ret r = 0)
    /\ (Nislib.std_ret r = -1 <->
        (forall o, ~ word_match buf siz (derived_cks buf) o)
        /\ (forall o, ~ word_match buf siz (derived_ckx buf) o))
    /\ ((forall o, ~ word_match buf siz (derived_cks buf) o) ->
        Nislib.o_cks r = None)
    /\ ((forall o, ~ word_match buf siz (derived_ckx buf) o) ->
        Nislib.o_ckx r = None).
Proof.
  intros Hsiz Hpos Hmod.
  subst siz. rewrite (checksum_std_whole buf Hpos Hmod).
  rewrite std_locate_spec by exact Hmod.
  eexists. split; [reflexivity |].
  unfold derived_cks, derived_ckx.
  assert (Hnone : forall v,
    (forall o, ~ word_match buf (Z.of_nat (length buf)) v o)
    <-> match_offsets 0 (words_of buf) v = []).
  { intros v. split.
    - intros H. destruct (match_offsets 0 (words_of buf) v) as [| o l] eqn:E;
        [reflexivity |].
      exfalso. apply (H o). apply word_match_offsets; [exact Hmod |].
      rewrite E. left.
    - intros E o H. apply word_match_offsets in H; [| exact Hmod].
      rewrite E in H. inversion H. }
  rewrite !Hnone. unfold Nislib.std_finish.
  cbn [Nislib.ckscount Nislib.ckxcount Nislib.sc_cks Nislib.sc_ckx].
  destruct (match_offsets 0 (words_of buf) (wxor (words_of buf))) as [| o1 l1];
    destruct (match_offsets 0 (words_of buf)
                (to_u32 (wsum (words_of buf) - 2 * wxor (words_of buf))))
      as [| o2 l2];
    cbn [length];
    repeat match goal with
           | |- context [Z.of_nat (Datatypes.S ?k) =? 0] =>
               destruct (Z.eqb_spec (Z.of_nat (Datatypes.S k)) 0); [lia |]
           end;
    cbn [Z.of_nat Z.eqb andb Nislib.std_ret Nislib.o_cks Nislib.o_ckx last];
    repeat split; auto; try discriminate;
    try (intros [? ?]; discriminate); try (intros ?; discriminate).
Qed.

(** C7, the failing input: in an image of the single word 1 the derived
    values are [cks = 1], found at offset 0, and [ckx = 0xFFFFFFFF], found
    nowhere; [checksum_std] returns 0 and stores nothing through [p_ckx]. *)
Theorem checksum_std_success_ckx_unset :
  Nislib.std_targets one_word 4 = Ok (1, 4294967295)
  /\ (forall o, ~ word_match one_word 4 4294967295 o)
  /\ Nislib.checksum_std one_word 4 = Ok (Nislib.mk_std 0 (Some 0) None []).
Proof.
  split; [reflexivity |]. split; [| reflexivity].
  intros o H.
  apply (word_match_offsets one_word 4294967295 o eq_refl) in H.
  simpl in H. inversion H.
Qed.

(** * checksum_fix: the bit loop with a xor target of 0 *)

Lemma testbit_b2z (b : bool) (l : Z) :
  Z.testbit (Z.b2z b) l = b && (l =? 0).
Proof.
  destruct (Z.eqb_spec l 0) as [-> | Hne].
  - rewrite Z.b2z_bit0, andb_true_r. reflexivity.
  - rewrite andb_false_r. destruct (Z.lt_ge_cases l 0).
    + apply Z.testbit_neg_r. lia.
    + destruct b; simpl Z.b2z; [| apply Z.bits_0].
      apply Z.bits_above_log2; simpl; lia.
Qed.

Lemma land_bit (x k : Z) :
  0 <= k -> Z.land x (Z.shiftl 1 k) = Z.shiftl (Z.b2z (Z.testbit x k)) k.
Proof.
  intros Hk. Z.bitblast. subst.
  change 1 with (Z.b2z true). rewrite !testbit_b2z.
  destruct (Z.eqb_spec (i - k) 0) as [E | _].
  - replace i with k by lia. rewrite !andb_true_r. reflexivity.
  - rewrite !andb_false_r. reflexivity.
Qed.

Lemma bit_set_testbit (x k : Z) :
  0 <= k -> Nislib.bit_set x k = Z.testbit x k.
Proof.
  intros Hk. unfold Nislib.bit_set, Nislib.bool_of_int.
  rewrite land_bit by exact Hk.
  destruct (Z.testbit x k); simpl Z.b2z.
  - rewrite Z.shiftl_1_l. destruct (Z.eqb_spec (2 ^ k) 0); [lia | reflexivity].
  - rewrite Z.shiftl_0_l. reflexivity.
Qed.

(** With a xor target of 0 the bit loop never returns early, and it leaves
    in [a] and [b] the sum target shifted right by one: bit [i] of both is
    bit [i + 1] of [ds]; the carry left over, bit 0 of [ds], is dropped. *)
Lemma bit_loop_dx0 (ds mang : Z) (n : nat) :
  0 <= ds < 2 ^ 32 ->
  Nislib.bit_loop n
    (Nislib.mk_solver (Z.shiftl (Z.shiftr ds (Z.of_nat n + 1)) (Z.of_nat n))
                      (Z.shiftl (Z.shiftr ds (Z.of_nat n + 1)) (Z.of_nat n))
                      (Z.testbit ds (Z.of_nat n)) ds 0 mang)
  = Some (Nislib.mk_solver (Z.shiftr ds 1) (Z.shiftr ds 1)
            (Z.testbit ds 0) ds 0 mang).
Proof.
  intros Hds. induction n as [| n IH].
  - simpl. rewrite Z.shiftl_0_r. reflexivity.
  - cbn [Nislib.bit_loop]. unfold Nislib.bit_body.
    cbn [Nislib.sv_dx Nislib.sv_ds Nislib.sv_carry Nislib.sv_a Nislib.sv_b
         Nislib.sv_mang].
    rewrite !bit_set_testbit by lia. rewrite Z.bits_0.
    replace (Z.of_nat (Datatypes.S n)) with (Z.of_nat n + 1) by lia.
    assert (E : forall c : bool, c = Z.testbit ds (Z.of_nat n + 1) ->
      to_u32 (Z.lor (Z.shiftl (Z.shiftr ds (Z.of_nat n + 1 + 1)) (Z.of_nat n + 1))
                    (Z.shiftl (Nislib.int_of_bool c) (Z.of_nat n)))
      = Z.shiftl (Z.shiftr ds (Z.of_nat n + 1)) (Z.of_nat n)).
    { intros c ->.
      assert (R : 0 <= Z.shiftl (Z.shiftr ds (Z.of_nat n + 1)) (Z.of_nat n) < 2 ^ 32).
      { rewrite Z.shiftl_mul_pow2, Z.shiftr_div_pow2 by lia.
        assert (0 < 2 ^ Z.of_nat n) by (apply Z.pow_pos_nonneg; lia).
        assert (2 ^ (Z.of_nat n + 1) = 2 * 2 ^ Z.of_nat n) as ->
          by (rewrite Z.pow_add_r; lia).
        assert (0 <= ds / (2 * 2 ^ Z.of_nat n)) by (apply Z.div_pos; lia).
        split; [lia |].
        assert (ds / (2 * 2 ^ Z.of_nat n) * (2 * 2 ^ Z.of_nat n) <= ds)
          by (rewrite Z.mul_comm; apply Z.mul_div_le; lia).
        nia. }
      rewrite <- (to_u32_small _ R). f_equal.
      change (Nislib.int_of_bool ?b) with (Z.b2z b).
      Z.bitblast; subst; rewrite ?testbit_b2z;
        destruct (Z.eqb_spec (i - Z.of_nat n) 0); try lia;
        cbn [negb andb orb];
        rewrite ?andb_true_r, ?andb_false_r, ?orb_false_r, ?orb_false_l;
        try reflexivity; try (f_equal; lia). }
    destruct (Z.testbit ds (Z.of_nat n + 1)) eqn:Ec;
      rewrite (E _ eq_refl); exact IH.
Qed.

Lemma solve_dx0 (ds mang : Z) :
  0 <= ds < 2 ^ 32 ->
  Nislib.solve ds 0 mang
  = Some (Nislib.mk_solver (Z.shiftr ds 1) (Z.shiftr ds 1)
            (Z.testbit ds 0) ds 0 mang).
Proof.
  intros Hds. unfold Nislib.solve.
  rewrite <- (bit_loop_dx0 ds mang 32 Hds). do 2 f_equal.
  - rewrite Z.shiftr_div_pow2, Z.div_small by lia. reflexivity.
  - rewrite Z.shiftr_div_pow2, Z.div_small by lia. reflexivity.
  - symmetry. apply u32_testbit_high; lia.
Qed.

(** [checksum_fix] enters the bit loop with a xor target of 0, so the
    [return] of line 166 is never taken: no call ends in [FixNoSolution]. *)
Lemma checksum_fix_no_solution_unreachable
    (buf : list byte) (siz p_cks p_ckx p_cs p_cx p_mang : Z)
    (out : Nislib.fix_out) :
  Nislib.checksum_fix buf siz p_cks p_ckx p_cs p_cx p_mang = Ok out ->
  Nislib.fx_exit out <> Nislib.FixNoSolution.
Proof.
  unfold Nislib.checksum_fix.
  destruct (_ || _ || _ || _ || _ || _); [intros [= <-]; discriminate |].
  destruct (reconst_32 buf p_cks) as [cks |]; [| discriminate].
  destruct (reconst_32 buf p_ckx) as [ckx |]; [| discriminate].
  cbn [bind].
  destruct (write_32b 0 buf p_cs) as [buf1 |]; [| discriminate]. cbn [bind].
  destruct (write_32b 0 buf1 p_cx) as [buf2 |]; [| discriminate]. cbn [bind].
  destruct (write_32b 0 buf2 p_mang) as [buf3 |]; [| discriminate]. cbn [bind].
  destruct (for_words _ _ _ _ _) as [[s0 x0] |]; [| discriminate].
  cbn [bind fst snd]. rewrite Z.lxor_nilpotent.
  rewrite solve_dx0 by apply to_u32_range.
  cbn [Nislib.sv_a Nislib.sv_b Nislib.sv_mang].
  destruct (write_32b _ buf3 p_cs) as [buf4 |]; [| discriminate]. cbn [bind].
  destruct (write_32b _ buf4 p_cx) as [buf5 |]; [| discriminate]. cbn [bind].
  destruct (write_32b _ buf5 p_mang) as [buf6 |]; [| discriminate]. cbn [bind].
  destruct (Nislib.checksum_std buf6 siz) as [r |]; [| discriminate]. cbn [bind].
  destruct (Nislib.load_cell (Nislib.o_cks r)) as [ocs |]; [| discriminate].
  destruct (Nislib.load_cell (Nislib.o_ckx r)) as [ocx |]; [| discriminate].
  cbn [bind].
  destruct (reconst_32 buf6 ocs) as [ds |]; [| discriminate].
  destruct (reconst_32 buf6 ocx) as [dx |]; [| discriminate].
  cbn [bind]. intros [= <-]. discriminate.
Qed.

(** The guard of lines 107-109 is the one exit that hands the buffer back
    as it was. *)
Lemma checksum_fix_abort_untouched
    (buf : list byte) (siz p_cks p_ckx p_cs p_cx p_mang : Z)
    (out : Nislib.fix_out) :
  Nislib.checksum_fix buf siz p_cks p_ckx p_cs p_cx p_mang = Ok out ->
  Nislib.fx_exit out = Nislib.FixAbort ->
  Nislib.fx_buf out = buf.
Proof.
  unfold Nislib.checksum_fix.
  destruct (_ || _ || _ || _ || _ || _); [intros [= <-]; reflexivity |].
  destruct (reconst_32 buf p_cks) as [cks |]; [| discriminate].
  destruct (reconst_32 buf p_ckx) as [ckx |]; [| discriminate].
  cbn [bind].
  destruct (write_32b 0 buf p_cs) as [buf1 |]; [| discriminate]. cbn [bind].
  destruct (write_32b 0 buf1 p_cx) as [buf2 |]; [| discriminate]. cbn [bind].
  destruct (write_32b 0 buf2 p_mang) as [buf3 |]; [| discriminate]. cbn [bind].
  destruct (for_words _ _ _ _ _) as [[s0 x0] |]; [| discriminate].
  cbn [bind fst snd].
  destruct (Nislib.solve _ _ _) as [st |]; [| intros [= <-]; discriminate].
  destruct (write_32b _ buf3 p_cs) as [buf4 |]; [| discriminate]. cbn [bind].
  destruct (write_32b _ buf4 p_cx) as [buf5 |]; [| discriminate]. cbn [bind].
  destruct (write_32b _ buf5 p_mang) as [buf6 |]; [| discriminate]. cbn [bind].
  destruct (Nislib.checksum_std buf6 siz) as [r |]; [| discriminate]. cbn [bind].
  destruct (Nislib.load_cell (Nislib.o_cks r)) as [ocs |]; [| discriminate].
  destruct (Nislib.load_cell (Nislib.o_ckx r)) as [ocx |]; [| discriminate].
  cbn [bind].
  destruct (reconst_32 buf6 ocs) as [ds |]; [| discriminate].
  destruct (reconst_32 buf6 ocx) as [dx |]; [| discriminate].
  cbn [bind]. intros [= <-]. discriminate.
Qed.

(** * Words of a buffer under word writes *)

Lemma words_of_lookup_lt (buf : list byte) (n k : nat) :
  length buf = (4 * n)%nat -> (k < n)%nat ->
  exists w, words_of buf !! k = Some w /\ reconst_32 buf (4 * Z.of_nat k) = Ok w.
Proof.
  intros Hlen Hk.
  destruct (lookup_lt_is_Some_2 (words_of buf) k) as [w Hw].
  { rewrite (length_words_of n) by exact Hlen. exact Hk. }
  exists w. split; [exact Hw |]. apply words_of_lookup. exact Hw.
Qed.

(** Writing a word at an aligned offset replaces one word of the buffer. *)
Lemma words_of_write_32b (buf buf' : list byte) (n j : nat) (v : Z) :
  length buf = (4 * n)%nat ->
  0 <= v < 2 ^ 32 ->
  write_32b v buf (4 * Z.of_nat j) = Ok buf' ->
  words_of buf' = <[j := v]> (words_of buf).
Proof.
  intros Hlen Hv Hw.
  pose proof (write_32b_length _ _ _ _ Hw) as Hlen'.
  pose proof (write_32b_bounds _ _ _ _ Hw) as [_ Hb].
  assert (Hj : (j < n)%nat) by lia.
  apply list_eq. intros k.
  destruct (Nat.lt_ge_cases k n) as [Hk | Hk].
  - destruct (words_of_lookup_lt buf' n k) as (w' & Hw' & Hr'); [lia | exact Hk |].
    destruct (words_of_lookup_lt buf n k Hlen Hk) as (w & Hw0 & Hr).
    rewrite Hw'. destruct (Nat.eq_dec k j) as [-> | Hne].
    + rewrite list_lookup_insert_eq
        by (rewrite (length_words_of n) by exact Hlen; exact Hj).
      rewrite (reconst_32_write_32b _ _ _ _ Hv Hw) in Hr'. congruence.
    + rewrite list_lookup_insert_ne by congruence.
      rewrite (reconst_32_write_32b_other _ _ _ _ _ Hw) in Hr' by lia.
      congruence.
  - rewrite !lookup_ge_None_2; [reflexivity | |].
    + rewrite length_insert, (length_words_of n) by exact Hlen. exact Hk.
    + rewrite (length_words_of n) by lia. exact Hk.
Qed.

Lemma sum_insert (l : list Z) (j : nat) (u v : Z) :
  l !! j = Some u ->
  foldr Z.add 0 (<[j := v]> l) = foldr Z.add 0 l - u + v.
Proof.
  revert j. induction l as [| x l IH]; intros [| j] H; try discriminate.
  - injection H as ->. simpl. lia.
  - simpl in *. rewrite (IH j H). lia.
Qed.

Ltac xor_solve :=
  apply Z.bits_inj'; intros ? ?; rewrite ?Z.lxor_spec, ?Z.bits_0; btauto.

Lemma xor_insert (l : list Z) (j : nat) (u v : Z) :
  l !! j = Some u ->
  foldr Z.lxor 0 (<[j := v]> l) = Z.lxor (Z.lxor (foldr Z.lxor 0 l) u) v.
Proof.
  revert j. induction l as [| x l IH]; intros [| j] H; try discriminate.
  - injection H as ->. simpl. xor_solve.
  - simpl in *. rewrite (IH j H). xor_solve.
Qed.

(** * What checksum_fix computes *)

Lemma fix_fold_body_spec (buf : list byte) (p_cks p_ckx off w : Z)
    (acc : Z * Z) :
  reconst_32 buf off = Ok w ->
  Nislib.fix_fold_body buf p_cks p_ckx off acc
  = Ok (if (off =? p_cks) || (off =? p_ckx) then acc
        else (to_u32 (fst acc + w), Z.lxor (snd acc) w)).
Proof.
  intros H. unfold Nislib.fix_fold_body.
  destruct ((off =? p_cks) || (off =? p_ckx)); [reflexivity |].
  rewrite H. reflexivity.
Qed.

(** Skipping a word is adding and xoring 0. *)
Lemma wfold_skip (p_cks p_ckx off : Z) (ws : list Z) (s x : Z) :
  0 <= s < 2 ^ 32 ->
  wfold (fun o w acc =>
           if (o =? p_cks) || (o =? p_ckx) then acc
           else (to_u32 (fst acc + w), Z.lxor (snd acc) w)) off ws (s, x)
  = (to_u32 (s + foldr Z.add 0 (skip_words p_cks p_ckx off ws)),
     Z.lxor x (foldr Z.lxor 0 (skip_words p_cks p_ckx off ws))).
Proof.
  revert off s x. induction ws as [| w ws IH]; intros off s x Hs.
  - simpl. rewrite Z.add_0_r, Z.lxor_0_r, to_u32_small by exact Hs. reflexivity.
  - cbn [wfold skip_words foldr].
    destruct ((off =? p_cks) || (off =? p_ckx)).
    + rewrite IH by exact Hs. rewrite Z.add_0_l, Z.lxor_0_l. reflexivity.
    + cbn [fst snd]. rewrite IH by apply to_u32_range. f_equal.
      * unfold to_u32. rewrite Zplus_mod_idemp_l. f_equal. lia.
      * apply Z.lxor_assoc.
Qed.

Lemma skip_words_lookup (p_cks p_ckx : Z) (ws : list Z) :
  forall (off : Z) (j : nat),
    skip_words p_cks p_ckx off ws !! j
    = (fun w => if (off + 4 * Z.of_nat j =? p_cks) || (off + 4 * Z.of_nat j =? p_ckx)
                then 0 else w) <$> ws !! j.
Proof.
  induction ws as [| w ws IH]; intros off [| j]; try reflexivity.
  - cbn [skip_words]. simpl. rewrite Z.add_0_r. reflexivity.
  - cbn [skip_words]. simpl lookup. rewrite IH.
    replace (off + 4 + 4 * Z.of_nat j) with (off + 4 * Z.of_nat (Datatypes.S j))
      by lia.
    reflexivity.
Qed.

Lemma skip_words_insert (ws : list Z) (i k : nat) :
  (i < length ws)%nat -> (k < length ws)%nat ->
  skip_words (4 * Z.of_nat i) (4 * Z.of_nat k) 0 ws
  = <[i := 0]> (<[k := 0]> ws).
Proof.
  intros Hi Hk. apply list_eq. intros j. rewrite skip_words_lookup.
  rewrite !Z.add_0_l.
  destruct (Nat.eq_dec j i) as [-> | Hji].
  - rewrite list_lookup_insert_eq by (rewrite length_insert; exact Hi).
    destruct (lookup_lt_is_Some_2 ws i Hi) as [w ->]. simpl.
    rewrite Z.eqb_refl. reflexivity.
  - rewrite list_lookup_insert_ne by congruence.
    destruct (Nat.eq_dec j k) as [-> | Hjk].
    + rewrite list_lookup_insert_eq by exact Hk.
      destruct (lookup_lt_is_Some_2 ws k Hk) as [w ->]. simpl.
      rewrite Z.eqb_refl, orb_true_r. reflexivity.
    + rewrite list_lookup_insert_ne by congruence.
      destruct (ws !! j) as [w |]; [| reflexivity]. simpl.
      destruct (Z.eqb_spec (4 * Z.of_nat j) (4 * Z.of_nat i)); [lia |].
      destruct (Z.eqb_spec (4 * Z.of_nat j) (4 * Z.of_nat k)); [lia |].
      reflexivity.
Qed.

(** The fold of lines 121-129 on a buffer of whole words: the sum and xor
    of all words but the two targets. *)
Lemma fix_fold_spec (buf : list byte) (i k : nat) (c1 c2 : Z) :
  Z.of_nat (length buf) mod 4 = 0 ->
  i <> k ->
  words_of buf !! i = Some c1 ->
  words_of buf !! k = Some c2 ->
  for_words (Z.to_nat (Z.of_nat (length buf)))
    (Nislib.fix_fold_body buf (4 * Z.of_nat i) (4 * Z.of_nat k))
    0 (Z.of_nat (length buf)) (0, 0)
  = Ok (to_u32 (foldr Z.add 0 (words_of buf) - c1 - c2),
        Z.lxor (Z.lxor (foldr Z.lxor 0 (words_of buf)) c1) c2).
Proof.
  intros Hmod Hik H1 H2.
  rewrite (for_words_whole _ _ buf (0, 0)
             (fix_fold_body_spec buf (4 * Z.of_nat i) (4 * Z.of_nat k)) Hmod).
  rewrite wfold_skip by lia.
  rewrite skip_words_insert by (eapply lookup_lt_Some; eassumption).
  assert (H1' : <[k := 0]> (words_of buf) !! i = Some c1)
    by (rewrite list_lookup_insert_ne by congruence; exact H1).
  rewrite (sum_insert _ _ _ _ H1'), (sum_insert _ _ _ _ H2).
  rewrite (xor_insert _ _ _ _ H1'), (xor_insert _ _ _ _ H2).
  apply (f_equal Ok).
  apply f_equal2; [apply (f_equal to_u32); lia | xor_solve].
Qed.

Lemma write_32b_ok (val : Z) (buf : list byte) (off : Z) :
  0 <= off -> off + 4 <= Z.of_nat (length buf) ->
  exists buf', write_32b val buf off = Ok buf'.
Proof. intros H0 H1. eexists. apply write_32b_in_bounds; assumption. Qed.

Lemma last_match_offsets (off : Z) (ws : list Z) (v o : Z) :
  o ∈ match_offsets off ws v ->
  exists m, last (match_offsets off ws v) = Some m
            /\ m ∈ match_offsets off ws v.
Proof.
  intros Ho. destruct (last (match_offsets off ws v)) as [m |] eqn:El.
  - exists m. split; [reflexivity |].
    exact (proj1 (match_offsets_last _ _ _ _ _ El Ho)).
  - apply last_None in El. rewrite El in Ho. inversion Ho.
Qed.

Lemma land_3_aligned (n : nat) : Z.land (4 * Z.of_nat n) 3 = 0.
Proof.
  change 3 with (Z.ones 2). rewrite Z.land_ones by lia.
  change (2 ^ 2) with 4. rewrite Z.mul_comm. apply Z.mod_mul. lia.
Qed.

Lemma shiftr1_even (r : Z) : Z.even r = true -> 2 * Z.shiftr r 1 = r.
Proof.
  intros H. rewrite Z.shiftr_div_pow2 by lia. change (2 ^ 1) with 2.
  pose proof (Zmod_even r) as E. rewrite H in E.
  pose proof (Z.div_mod r 2). lia.
Qed.

Lemma shiftr1_odd (r : Z) : Z.even r = false -> 2 * Z.shiftr r 1 = r - 1.
Proof.
  intros H. rewrite Z.shiftr_div_pow2 by lia. change (2 ^ 1) with 2.
  pose proof (Zmod_even r) as E. rewrite H in E.
  pose proof (Z.div_mod r 2). lia.
Qed.

Lemma shiftr1_range (r : Z) : 0 <= r < 2 ^ 32 -> 0 <= Z.shiftr r 1 < 2 ^ 32.
Proof.
  intros H. rewrite Z.shiftr_div_pow2 by lia. change (2 ^ 1) with 2.
  split; [apply Z.div_pos; lia |].
  apply Z.div_lt_upper_bound; lia.
Qed.

Lemma lxor_range (x y : Z) :
  0 <= x < 2 ^ 32 -> 0 <= y < 2 ^ 32 -> 0 <= Z.lxor x y < 2 ^ 32.
Proof.
  intros Hx Hy. split; [apply Z.lxor_nonneg; lia |].
  destruct (Z.eq_dec (Z.lxor x y) 0) as [-> | Hnz]; [lia |].
  assert (0 < Z.lxor x y) by (pose proof (proj2 (Z.lxor_nonneg x y)); lia).
  apply Z.log2_lt_pow2; [lia |].
  eapply Z.le_lt_trans; [apply Z.log2_lxor; lia |].
  apply Z.max_lub_lt.
  - destruct (Z.eq_dec x 0) as [-> | ?]; [simpl; lia |].
    apply Z.log2_lt_pow2; lia.
  - destruct (Z.eq_dec y 0) as [-> | ?]; [simpl; lia |].
    apply Z.log2_lt_pow2; lia.
Qed.

Lemma words_of_range (buf : list byte) (i : nat) (w : Z) :
  words_of buf !! i = Some w -> 0 <= w < 2 ^ 32.
Proof.
  intros H. apply words_of_lookup in H. eapply reconst_32_range. exact H.
Qed.

Lemma wxor_range (ws : list Z) :
  (forall i w, ws !! i = Some w -> 0 <= w < 2 ^ 32) ->
  0 <= foldr Z.lxor 0 ws < 2 ^ 32.
Proof.
  induction ws as [| w ws IH]; intros H; simpl; [lia |].
  apply lxor_range.
  - apply (H 0%nat). reflexivity.
  - apply IH. intros i v Hi. apply (H (Datatypes.S i)). exact Hi.
Qed.

Section FixRun.

Variable buf : list byte.
Variable n : nat.
Variables i_cks i_ckx i_cs i_cx i_mang : nat.
Variables cks ckx : Z.

Hypothesis Hlen : length buf = (4 * n)%nat.
Hypothesis Hslots : NoDup [i_cks; i_ckx; i_cs; i_cx; i_mang].
Hypothesis Hcks : words_of buf !! i_cks = Some cks.
Hypothesis Hckx : words_of buf !! i_ckx = Some ckx.
Hypothesis Hcs : (i_cs < n)%nat.
Hypothesis Hcx : (i_cx < n)%nat.
Hypothesis Hmang : (i_mang < n)%nat.

Let ws0 := with_corrections (words_of buf) i_cs i_cx i_mang 0 0 0.
Let mang := fix_mang ws0 cks ckx.
Let r := fix_residue ws0 cks ckx.
Let a := Z.shiftr r 1.

Lemma fix_run_distinct :
  i_cks <> i_ckx /\ i_cks <> i_cs /\ i_cks <> i_cx /\ i_cks <> i_mang
  /\ i_ckx <> i_cs /\ i_ckx <> i_cx /\ i_ckx <> i_mang
  /\ i_cs <> i_cx /\ i_cs <> i_mang /\ i_cx <> i_mang.
Proof.
  clear - Hslots.
  apply NoDup_cons in Hslots as [N1 Hs1]. apply NoDup_cons in Hs1 as [N2 Hs2].
  apply NoDup_cons in Hs2 as [N3 Hs3]. apply NoDup_cons in Hs3 as [N4 _].
  repeat rewrite elem_of_cons in N1. repeat rewrite elem_of_cons in N2.
  repeat rewrite elem_of_cons in N3. repeat rewrite elem_of_cons in N4.
  repeat split; intros E; tauto.
Qed.

Lemma fix_run_lengths :
  (i_cks < n)%nat /\ (i_ckx < n)%nat /\ length (words_of buf) = n.
Proof.
  pose proof (length_words_of n buf Hlen) as Hn.
  apply lookup_lt_Some in Hcks, Hckx. lia.
Qed.

(** Lines 111-129: the targets, the zeroed correction words, the fold. *)
Lemma fix_run_prepare :
  exists buf3,
    reconst_32 buf (4 * Z.of_nat i_cks) = Ok cks
    /\ reconst_32 buf (4 * Z.of_nat i_ckx) = Ok ckx
    /\ (exists buf1 buf2,
          write_32b 0 buf (4 * Z.of_nat i_cs) = Ok buf1
          /\ write_32b 0 buf1 (4 * Z.of_nat i_cx) = Ok buf2
          /\ write_32b 0 buf2 (4 * Z.of_nat i_mang) = Ok buf3)
    /\ length buf3 = (4 * n)%nat
    /\ words_of buf3 = ws0
    /\ for_words (Z.to_nat (4 * Z.of_nat n))
         (Nislib.fix_fold_body buf3 (4 * Z.of_nat i_cks) (4 * Z.of_nat i_ckx))
         0 (4 * Z.of_nat n) (0, 0)
       = Ok (sum_others ws0 cks ckx, xor_others ws0 cks ckx).
Proof.
  destruct fix_run_distinct as (D1 & D2 & D3 & D4 & D5 & D6 & D7 & D8 & D9 & D10).
  destruct fix_run_lengths as (L1 & L2 & L3).
  destruct (write_32b_ok 0 buf (4 * Z.of_nat i_cs)) as [buf1 W1]; try lia.
  pose proof (write_32b_length _ _ _ _ W1) as E1.
  destruct (write_32b_ok 0 buf1 (4 * Z.of_nat i_cx)) as [buf2 W2]; try lia.
  pose proof (write_32b_length _ _ _ _ W2) as E2.
  destruct (write_32b_ok 0 buf2 (4 * Z.of_nat i_mang)) as [buf3 W3]; try lia.
  pose proof (write_32b_length _ _ _ _ W3) as E3.
  assert (Hws : words_of buf3 = ws0).
  { unfold ws0, with_corrections.
    rewrite (words_of_write_32b buf2 buf3 n i_mang 0) by (lia || exact W3).
    rewrite (words_of_write_32b buf1 buf2 n i_cx 0) by (lia || exact W2).
    rewrite (words_of_write_32b buf buf1 n i_cs 0) by (lia || exact W1).
    reflexivity. }
  exists buf3.
  split; [apply words_of_lookup; exact Hcks |].
  split; [apply words_of_lookup; exact Hckx |].
  split; [exists buf1, buf2; auto |].
  split; [lia |]. split; [exact Hws |].
  replace (4 * Z.of_nat n) with (Z.of_nat (length buf3)) by lia.
  unfold sum_others, xor_others. rewrite <- Hws.
  apply fix_fold_spec.
  - replace (Z.of_nat (length buf3)) with (Z.of_nat n * 4) by lia.
    apply Z.mod_mul. lia.
  - exact D1.
  - rewrite Hws. unfold ws0, with_corrections.
    rewrite !list_lookup_insert_ne by congruence. exact Hcks.
  - rewrite Hws. unfold ws0, with_corrections.
    rewrite !list_lookup_insert_ne by congruence. exact Hckx.
Qed.

Let bit := if Z.even r then 0 else 1.
Let ws1 := with_corrections ws0 i_cs i_cx i_mang a a mang.

Lemma fix_run_ranges :
  0 <= cks < 2 ^ 32 /\ 0 <= ckx < 2 ^ 32 /\ 0 <= mang < 2 ^ 32
  /\ 0 <= r < 2 ^ 32 /\ 0 <= a < 2 ^ 32 /\ 2 * a = r - bit.
Proof.
  destruct fix_run_prepare as (buf3 & _ & _ & _ & _ & Hws & _).
  assert (Hc : 0 <= cks < 2 ^ 32) by (eapply words_of_range; exact Hcks).
  assert (Hx : 0 <= ckx < 2 ^ 32) by (eapply words_of_range; exact Hckx).
  assert (Hr : 0 <= r < 2 ^ 32) by apply to_u32_range.
  split; [exact Hc |]. split; [exact Hx |]. split.
  - unfold mang, fix_mang, xor_others. rewrite <- Hws.
    repeat apply lxor_range; try assumption.
    apply wxor_range. intros i w. apply words_of_range.
  - split; [exact Hr |]. split; [apply shiftr1_range; exact Hr |].
    unfold a, bit. destruct (Z.even r) eqn:E.
    + rewrite shiftr1_even by exact E. lia.
    + apply shiftr1_odd. exact E.
Qed.

Lemma fix_run_ws0_lookup :
  ws0 !! i_cks = Some cks /\ ws0 !! i_ckx = Some ckx
  /\ ws0 !! i_cs = Some 0 /\ ws0 !! i_cx = Some 0 /\ ws0 !! i_mang = Some 0.
Proof.
  destruct fix_run_distinct as (D1 & D2 & D3 & D4 & D5 & D6 & D7 & D8 & D9 & D10).
  destruct fix_run_lengths as (L1 & L2 & L3).
  unfold ws0, with_corrections. repeat split.
  - rewrite !list_lookup_insert_ne by congruence. exact Hcks.
  - rewrite !list_lookup_insert_ne by congruence. exact Hckx.
  - rewrite !list_lookup_insert_ne by congruence.
    apply list_lookup_insert_eq. lia.
  - rewrite list_lookup_insert_ne by congruence.
    apply list_lookup_insert_eq. rewrite length_insert. lia.
  - apply list_lookup_insert_eq. rewrite !length_insert. lia.
Qed.

Lemma fix_run_ws1_lookup :
  ws1 !! i_cks = Some cks /\ ws1 !! i_ckx = Some ckx.
Proof.
  destruct fix_run_distinct as (D1 & D2 & D3 & D4 & D5 & D6 & D7 & D8 & D9 & D10).
  destruct fix_run_ws0_lookup as (K1 & K2 & _).
  unfold ws1, with_corrections.
  split; rewrite !list_lookup_insert_ne by congruence; assumption.
Qed.

(** Sum and xor of the words after the corrections are written. *)
Lemma fix_run_ws1_folds :
  foldr Z.add 0 ws1 = foldr Z.add 0 ws0 + 2 * a + mang
  /\ foldr Z.lxor 0 ws1 = Z.lxor (foldr Z.lxor 0 ws0) mang.
Proof.
  destruct fix_run_distinct as (D1 & D2 & D3 & D4 & D5 & D6 & D7 & D8 & D9 & D10).
  destruct fix_run_ws0_lookup as (_ & _ & K3 & K4 & K5).
  assert (J2 : <[i_cs := a]> ws0 !! i_cx = Some 0)
    by (rewrite list_lookup_insert_ne by congruence; exact K4).
  assert (J3 : <[i_cx := a]> (<[i_cs := a]> ws0) !! i_mang = Some 0)
    by (rewrite !list_lookup_insert_ne by congruence; exact K5).
  unfold ws1, with_corrections. split.
  - rewrite (sum_insert _ _ _ _ J3), (sum_insert _ _ _ _ J2),
            (sum_insert _ _ _ _ K3). lia.
  - rewrite (xor_insert _ _ _ _ J3), (xor_insert _ _ _ _ J2),
            (xor_insert _ _ _ _ K3). xor_solve.
Qed.

(** The fold identity after the run: the xor channel always holds, the
    additive channel is short by the dropped carry. *)
Lemma fix_run_identity :
  xor_others ws1 cks ckx = ckx
  /\ sum_others ws1 cks ckx = to_u32 (cks - bit)
  /\ wxor ws1 = cks
  /\ to_u32 (wsum ws1 - 2 * wxor ws1) = to_u32 (ckx - bit).
Proof.
  destruct fix_run_ws1_folds as [Es Ex].
  destruct fix_run_ranges as (_ & _ & _ & _ & _ & Ha).
  assert (Exor : foldr Z.lxor 0 ws1 = cks).
  { rewrite Ex. unfold mang, fix_mang, xor_others. xor_solve. }
  assert (Esum : to_u32 (foldr Z.add 0 ws1) = to_u32 (2 * cks + ckx - bit)).
  { rewrite Es, Ha. unfold r, fix_residue, sum_others, to_u32.
    fold mang. Z.mod_equality. }
  split; [unfold xor_others; rewrite Exor; xor_solve |].
  split.
  - unfold sum_others. unfold to_u32 in *.
    rewrite <- (Zminus_mod_idemp_l (foldr Z.add 0 ws1 - cks)).
    rewrite <- (Zminus_mod_idemp_l (foldr Z.add 0 ws1)), Esum.
    Z.mod_equality.
  - split; [exact Exor |].
    unfold wsum, wxor. rewrite Exor. unfold to_u32 in *.
    rewrite Zminus_mod_idemp_l.
    rewrite <- (Zminus_mod_idemp_l (foldr Z.add 0 ws1)), Esum.
    Z.mod_equality.
Qed.

(** Lines 107-203: the call passes the guard and reaches the re-run of
    [checksum_std] with the corrections written. *)
Lemma fix_run_unfold :
  exists buf6 msgs,
    length buf6 = (4 * n)%nat
    /\ words_of buf6 = ws1
    /\ Nislib.checksum_fix buf (4 * Z.of_nat n) (4 * Z.of_nat i_cks)
         (4 * Z.of_nat i_ckx) (4 * Z.of_nat i_cs) (4 * Z.of_nat i_cx)
         (4 * Z.of_nat i_mang)
       = (let* rr := Nislib.checksum_std buf6 (4 * Z.of_nat n) in
          let* ocs := Nislib.load_cell (Nislib.o_cks rr) in
          let* ocx := Nislib.load_cell (Nislib.o_ckx rr) in
          let* ds := reconst_32 buf6 ocs in
          let* dx := reconst_32 buf6 ocx in
          let ok := (ds =? cks) && (dx =? ckx) in
          Ok (Nislib.mk_fix (Nislib.FixDone a a mang ok) buf6
                (msgs ++ Nislib.std_msgs rr
                      ++ [if ok then MsgFound a a mang else MsgCouldNotFix]))).
Proof.
  destruct fix_run_prepare
    as (buf3 & R1 & R2 & (buf1 & buf2 & W1 & W2 & W3) & L3 & Hws & Hfold).
  destruct fix_run_lengths as (L1 & L2 & _).
  destruct fix_run_ranges as (_ & _ & Hm & Hr & Ha & _).
  destruct (write_32b_ok a buf3 (4 * Z.of_nat i_cs)) as [buf4 W4]; try lia.
  pose proof (write_32b_length _ _ _ _ W4) as E4.
  destruct (write_32b_ok a buf4 (4 * Z.of_nat i_cx)) as [buf5 W5]; try lia.
  pose proof (write_32b_length _ _ _ _ W5) as E5.
  destruct (write_32b_ok mang buf5 (4 * Z.of_nat i_mang)) as [buf6 W6]; try lia.
  pose proof (write_32b_length _ _ _ _ W6) as E6.
  exists buf6. eexists. split; [lia |]. split.
  - unfold ws1, with_corrections. rewrite <- Hws.
    rewrite (words_of_write_32b buf5 buf6 n i_mang mang) by (lia || exact W6).
    rewrite (words_of_write_32b buf4 buf5 n i_cx a) by (lia || exact W5).
    rewrite (words_of_write_32b buf3 buf4 n i_cs a) by (lia || exact W4).
    reflexivity.
  - unfold Nislib.checksum_fix.
    destruct (Z.leb_spec (4 * Z.of_nat n) 0); [lia |].
    rewrite land_3_aligned.
    destruct (Z.leb_spec (4 * Z.of_nat n) (4 * Z.of_nat i_cks)); [lia |].
    destruct (Z.leb_spec (4 * Z.of_nat n) (4 * Z.of_nat i_ckx)); [lia |].
    destruct (Z.leb_spec (4 * Z.of_nat n) (4 * Z.of_nat i_cs)); [lia |].
    destruct (Z.leb_spec (4 * Z.of_nat n) (4 * Z.of_nat i_cx)); [lia |].
    cbn [orb Nislib.bool_of_int Z.eqb negb].
    rewrite R1, R2. cbn [bind]. rewrite W1. cbn [bind]. rewrite W2. cbn [bind].
    rewrite W3. cbn [bind]. rewrite Hfold. cbn [bind fst snd].
    rewrite Z.lxor_nilpotent.
    change (Z.lxor ckx (xor_others ws0 cks ckx)) with mang.
    change (to_u32 (to_u32 (cks - sum_others ws0 cks ckx) - mang)) with r.
    rewrite (solve_dx0 r mang Hr).
    cbn [Nislib.sv_a Nislib.sv_b Nislib.sv_mang]. fold a.
    rewrite W4. cbn [bind]. rewrite W5. cbn [bind]. rewrite W6. cbn [bind].
    reflexivity.
Qed.

(** The re-run of [checksum_std] (line 206) on the corrected image. *)
Lemma fix_run_recheck (buf6 : list byte) :
  length buf6 = (4 * n)%nat ->
  words_of buf6 = ws1 ->
  exists rr m,
    Nislib.checksum_std buf6 (4 * Z.of_nat n) = Ok rr
    /\ Nislib.o_cks rr = Some m
    /\ reconst_32 buf6 m = Ok cks
    /\ (forall m', Nislib.o_ckx rr = Some m' ->
          reconst_32 buf6 m' = Ok (to_u32 (ckx - bit)))
    /\ (bit = 0 -> exists m', Nislib.o_ckx rr = Some m').
Proof.
  intros L6 Hws.
  destruct fix_run_lengths as (L1 & L2 & _).
  destruct fix_run_identity as (_ & _ & Ecks & Eckx).
  destruct fix_run_ws1_lookup as (K1 & K2).
  destruct fix_run_ranges as (_ & Hx & _).
  assert (Hmod : Z.of_nat (length buf6) mod 4 = 0).
  { replace (Z.of_nat (length buf6)) with (Z.of_nat n * 4) by lia.
    apply Z.mod_mul. lia. }
  assert (Hsiz : 4 * Z.of_nat n = Z.of_nat (length buf6)) by lia.
  assert (Hloc := checksum_std_whole buf6 ltac:(lia) Hmod).
  rewrite Hws, Eckx, Ecks in Hloc. rewrite Hsiz, Hloc.
  rewrite (std_locate_spec buf6 _ _ Hmod). rewrite Hws.
  eexists. 
  assert (M1 : 4 * Z.of_nat i_cks ∈ match_offsets 0 ws1 cks).
  { apply elem_of_match_offsets. exists i_cks. split; [exact K1 | lia]. }
  destruct (last_match_offsets _ _ _ _ M1) as (m & El & Hm).
  exists m. split; [reflexivity |].
  destruct (std_finish_cells
    (Nislib.mk_scan (last (match_offsets 0 ws1 cks))
       (last (match_offsets 0 ws1 (to_u32 (ckx - bit))))
       (Z.of_nat (length (match_offsets 0 ws1 cks)))
       (Z.of_nat (length (match_offsets 0 ws1 (to_u32 (ckx - bit))))))) as [-> ->].
  cbn [Nislib.sc_cks Nislib.sc_ckx].
  split; [exact El |]. split.
  { rewrite <- Hws in Hm. apply word_match_offsets in Hm; [| exact Hmod].
    apply Hm. }
  split.
  - intros m' El'. apply last_Some in El' as [l' El'].
    assert (Hm' : m' ∈ match_offsets 0 ws1 (to_u32 (ckx - bit))).
    { rewrite El'. apply elem_of_app. right. left. }
    rewrite <- Hws in Hm'. apply word_match_offsets in Hm'; [| exact Hmod].
    apply Hm'.
  - intros Hb. rewrite Hb, Z.sub_0_r, to_u32_small by exact Hx.
    assert (M2 : 4 * Z.of_nat i_ckx ∈ match_offsets 0 ws1 ckx).
    { apply elem_of_match_offsets. exists i_ckx. split; [exact K2 | lia]. }
    destruct (last_match_offsets _ _ _ _ M2) as (m' & El' & _).
    exists m'. exact El'.
Qed.

Lemma fix_run_verdict :
  (to_u32 (ckx - bit) =? ckx) = Z.even r.
Proof.
  destruct fix_run_ranges as (_ & Hx & _).
  unfold bit. destruct (Z.even r).
  - rewrite Z.sub_0_r, to_u32_small by exact Hx. apply Z.eqb_refl.
  - apply Z.eqb_neq. unfold to_u32.
    destruct (Z.eq_dec ckx 0) as [-> | Hnz]; [discriminate |].
    rewrite Z.mod_small by lia. lia.
Qed.

Lemma fix_run_result (out : Nislib.fix_out) :
  Nislib.checksum_fix buf (4 * Z.of_nat n) (4 * Z.of_nat i_cks)
    (4 * Z.of_nat i_ckx) (4 * Z.of_nat i_cs) (4 * Z.of_nat i_cx)
    (4 * Z.of_nat i_mang) = Ok out ->
  Nislib.fx_exit out = Nislib.FixDone a a mang (Z.even r)
  /\ words_of (Nislib.fx_buf out) = ws1.
Proof.
  destruct fix_run_unfold as (buf6 & msgs & L6 & Hws & ->).
  destruct (fix_run_recheck buf6 L6 Hws) as (rr & m & Hstd & Hocs & Rm & Hx & _).
  rewrite Hstd. cbn [bind]. rewrite Hocs. cbn [bind Nislib.load_cell].
  destruct (Nislib.o_ckx rr) as [m' |]; [| discriminate].
  cbn [bind Nislib.load_cell]. rewrite Rm, (Hx m' eq_refl). cbn [bind].
  rewrite Z.eqb_refl, fix_run_verdict. cbn [andb].
  intros [= <-]. cbn [Nislib.fx_exit Nislib.fx_buf]. auto.
Qed.

Lemma fix_run_even :
  Z.even r = true ->
  exists out,
    Nislib.checksum_fix buf (4 * Z.of_nat n) (4 * Z.of_nat i_cks)
      (4 * Z.of_nat i_ckx) (4 * Z.of_nat i_cs) (4 * Z.of_nat i_cx)
      (4 * Z.of_nat i_mang) = Ok out.
Proof.
  intros He.
  destruct fix_run_unfold as (buf6 & msgs & L6 & Hws & ->).
  destruct (fix_run_recheck buf6 L6 Hws)
    as (rr & m & Hstd & Hocs & Rm & Hx & Hsome).
  destruct Hsome as [m' Hm']; [unfold bit; rewrite He; reflexivity |].
  rewrite Hstd. cbn [bind]. rewrite Hocs, Hm'. cbn [bind Nislib.load_cell].
  rewrite Rm, (Hx m' Hm').
  cbn [bind]. eexists. reflexivity.
Qed.

End FixRun.

(** What [checksum_fix] does on a buffer of [n] whole words, with the two
    targets and the three correction words at five distinct word indices.
    With [r] the sum target left for [a + b], every call that ends without a
    fault has written [a = b = r >> 1] and [mang = ckx ^ X], and has verified
    the result exactly when [r] is even; when [r] is even the call does end
    so.  After the writes the words other than the targets xor to [ckx]; they
    add up to [cks] when [r] is even and to [cks - 1] when it is odd. *)
Theorem checksum_fix_computes
    (buf : list byte) (n i_cks i_ckx i_cs i_cx i_mang : nat) (cks ckx : Z) :
  length buf = (4 * n)%nat ->
  NoDup [i_cks; i_ckx; i_cs; i_cx; i_mang] ->
  words_of buf !! i_cks = Some cks ->
  words_of buf !! i_ckx = Some ckx ->
  (i_cs < n)%nat -> (i_cx < n)%nat -> (i_mang < n)%nat ->
  let ws0 := with_corrections (words_of buf) i_cs i_cx i_mang 0 0 0 in
  let mang := fix_mang ws0 cks ckx in
  let r := fix_residue ws0 cks ckx in
  let a := Z.shiftr r 1 in
  let ws1 := with_corrections ws0 i_cs i_cx i_mang a a mang in
  let call :=
    Nislib.checksum_fix buf (4 * Z.of_nat n) (4 * Z.of_nat i_cks)
      (4 * Z.of_nat i_ckx) (4 * Z.of_nat i_cs) (4 * Z.of_nat i_cx)
      (4 * Z.of_nat i_mang) in
  (forall out, call = Ok out ->
     Nislib.fx_exit out = Nislib.FixDone a a mang (Z.even r)
     /\ words_of (Nislib.fx_buf out) = ws1)
  /\ (Z.even r = true -> exists out, call = Ok out)
  /\ xor_others ws1 cks ckx = ckx
  /\ sum_others ws1 cks ckx = to_u32 (cks - (if Z.even r then 0 else 1)).
Proof.
  intros Hlen Hslots Hcks Hckx Hcs Hcx Hmang. cbv zeta.
  split; [intros out; apply fix_run_result; assumption |].
  split; [apply fix_run_even; assumption |].
  destruct (fix_run_identity buf n i_cks i_ckx i_cs i_cx i_mang cks ckx
              Hlen Hslots Hcks Hckx Hcs Hcx Hmang) as (Hx & Hs & _).
  split; assumption.
Qed.

(** * checksum_fix on particular inputs (C1, C4) *)

(** C1, as stated, fails.  Targets [cks = 6] and [ckx = 5] at offsets 0 and
    4, free words at 8, 12 and 16, a word 4 at offset 20.  [checksum_fix]
    runs to its end, without the exit of line 166, and writes [a = b = 0]
    and [mang = 1]: the words other than the two targets then xor to 5 but
    add up to 5, not 6.  The [checksum_std] it re-runs derives 4 for the xor
    checksum and locates it at offset 20, whose word is not the target 5;
    the call says so ("could not fix checksum").  The two targets differ on
    bit 0, so no correction words could meet them. *)
Theorem checksum_fix_odd_residue :
  reconst_32 fix_image 0 = Ok 6
  /\ reconst_32 fix_image 4 = Ok 5
  /\ Nislib.checksum_fix fix_image 24 0 4 8 12 16
     = Ok (Nislib.mk_fix (Nislib.FixDone 0 0 1 false) fix_image_after
             [MsgDesired 6 5; MsgActual 4 4; MsgCorrections 2 1; MsgCouldNotFix])
  /\ words_of fix_image_after = [6; 5; 0; 0; 1; 4]
  /\ Nislib.checksum_std fix_image_after 24
     = Ok (Nislib.mk_std 0 (Some 0) (Some 20) [])
  /\ reconst_32 fix_image_after 20 = Ok 4.
Proof. repeat split; reflexivity. Qed.

(** C4, the failing input.  The guard compares [p_cks], [p_ckx], [p_cs] and
    [p_cx] with [siz] but not [p_mang]: with a 20-byte buffer and
    [p_mang = 20] the call is not refused, and the third [write_32b] stores
    its first byte at offset 23, outside the buffer. *)
Theorem checksum_fix_writes_past_end :
  length zeros20 = 20%nat
  /\ Nislib.checksum_fix zeros20 20 0 4 8 12 20 = Fault (BadWrite 23).
Proof. split; reflexivity. Qed.

(** Other arguments that pass the guard and fault: a negative offset, and an
    offset less than four bytes from the end. *)
Example checksum_fix_negative_offset :
  Nislib.checksum_fix zeros20 20 (-4) 4 8 12 16 = Fault (BadRead (-4)).
Proof. reflexivity. Qed.

Example checksum_fix_straddles_end :
  Nislib.checksum_fix zeros20 20 0 4 8 18 16 = Fault (BadWrite 21).
Proof. reflexivity. Qed.

Example checksum_fix_even_residue :
  Nislib.checksum_fix zeros20 20 0 4 8 12 16
  = Ok (Nislib.mk_fix (Nislib.FixDone 0 0 0 true) zeros20
          [MsgDesired 0 0; MsgActual 0 0; MsgCorrections 0 0; MsgManyCks;
           MsgFound 0 0 0]).
Proof. vm_compute. reflexivity. Qed.

(** * The bit loop of checksum_fix, taken alone *)

(** From some targets the loop returns early, here from [ds = 0x40000000]
    and [dx = 0xC0000000]; [checksum_fix] passes it a xor target of 0 and
    never such targets. *)
Example solve_returns_early : Nislib.solve 1073741824 3221225472 5 = None.
Proof. reflexivity. Qed.

(** * find_ramf: the search for the RAMF header (C8) *)

Example ramf_probes_32 : ramf_probes 32 = [4; -4; 8; -8; 12; 16; 20; 24; 28].
Proof. reflexivity. Qed.

Example ramf_probes_10 : ramf_probes 10 = [4; -4; 8; -8].
Proof. reflexivity. Qed.

(** The upward phase of the sweep: from [ramf_adj >= 12] with [sign = 1] the
    loop probes [ramf_adj], [ramf_adj + 4], ... below the search distance. *)
Lemma ramf_sweep_upward (rf : Nisrom.romfile) (n : nat) :
  forall (adj : Z) (fuel : nat),
    12 <= adj ->
    n = Z.to_nat ((Nisrom.pRAMF_maxdist (Nisrom.fidtype rf) - adj + 3) / 4) ->
    (n <= fuel)%nat ->
    Nisrom.ramf_sweep fuel rf adj 1
    = (let* hit := first_probe (Nisrom.buf rf) (Nisrom.p_ramf rf)
                     (Nisrom.RAMF_header (Nisrom.fidtype rf))
                     (map (fun k => adj + 4 * Z.of_nat k) (seq 0 n)) in
       Ok (ramf_found rf hit)).
Proof.
  induction n as [| n IH]; intros adj fuel Hadj Hn Hfuel.
  - assert (Nisrom.pRAMF_maxdist (Nisrom.fidtype rf) <= adj).
    { destruct (Z.lt_ge_cases adj (Nisrom.pRAMF_maxdist (Nisrom.fidtype rf)))
        as [Hlt | Hge]; [| lia].
      assert (1 <= (Nisrom.pRAMF_maxdist (Nisrom.fidtype rf) - adj + 3) / 4)
        by (apply Z.div_le_lower_bound; lia).
      lia. }
    destruct fuel; simpl;
      destruct (Z.ltb_spec adj (Nisrom.pRAMF_maxdist (Nisrom.fidtype rf)));
      try lia; reflexivity.
  - assert (Hlt : adj < Nisrom.pRAMF_maxdist (Nisrom.fidtype rf)).
    { destruct (Z.lt_ge_cases adj (Nisrom.pRAMF_maxdist (Nisrom.fidtype rf)))
        as [Hlt | Hge]; [exact Hlt |].
      assert ((Nisrom.pRAMF_maxdist (Nisrom.fidtype rf) - adj + 3) / 4 <= 0).
      { apply Z.lt_succ_r. apply Z.div_lt_upper_bound; lia. }
      lia. }
    destruct fuel as [| fuel]; [lia |].
    cbn [Nisrom.ramf_sweep seq map first_probe].
    destruct (Z.ltb_spec adj (Nisrom.pRAMF_maxdist (Nisrom.fidtype rf))); [| lia].
    replace (adj + 4 * Z.of_nat 0) with adj by lia.
    replace (1 * adj) with adj by lia.
    destruct (reconst_32 (Nisrom.buf rf) (Nisrom.p_ramf rf + adj)) as [w |];
      [| reflexivity].
    cbn [bind].
    destruct (w =? Nisrom.RAMF_header (Nisrom.fidtype rf)); [reflexivity |].
    destruct (Z.ltb_spec adj 12); [lia |].
    rewrite (IH (adj + 4) fuel); try lia.
    + rewrite <- seq_shift, map_map.
      do 2 f_equal. apply map_ext. intros k. lia.
    + replace (Nisrom.pRAMF_maxdist (Nisrom.fidtype rf) - (adj + 4) + 3)
        with (Nisrom.pRAMF_maxdist (Nisrom.fidtype rf) - adj + 3 + (-1) * 4)
        by lia.
      rewrite Z.div_add by lia. lia.
Qed.

Section Sweep.

Variable rf : Nisrom.romfile.

Let m := Nisrom.pRAMF_maxdist (Nisrom.fidtype rf).
Let h := Nisrom.RAMF_header (Nisrom.fidtype rf).
Let p := Nisrom.p_ramf rf.
Let tail := map (fun k => 16 + 4 * Z.of_nat k) (seq 0 (Z.to_nat ((m - 13) / 4))).

(** What the sweep yields when the words at the deltas [ds] are still to
    be tried. *)
Let tries (ds : list Z) : res Nisrom.romfile :=
  let* hit := first_probe (Nisrom.buf rf) p h ds in Ok (ramf_found rf hit).

Lemma ramf_sweep_stop (fuel : nat) (adj sign : Z) :
  m <= adj -> Nisrom.ramf_sweep fuel rf adj sign = Ok rf.
Proof.
  intros H. destruct fuel; cbn [Nisrom.ramf_sweep]; fold m;
    destruct (Z.ltb_spec adj m); try lia; reflexivity.
Qed.

Lemma ramf_sweep_step_pos (fuel : nat) (adj : Z) :
  adj < m -> adj < 12 ->
  Nisrom.ramf_sweep (Datatypes.S fuel) rf adj 1
  = (let* t := reconst_32 (Nisrom.buf rf) (p + adj) in
     if t =? h then Ok (ramf_found rf (Some adj))
     else Nisrom.ramf_sweep fuel rf adj (-1)).
Proof.
  intros Hm H12. cbn [Nisrom.ramf_sweep]. fold m h p.
  destruct (Z.ltb_spec adj m); [| lia].
  destruct (Z.ltb_spec adj 12); [| lia].
  replace (1 * adj) with adj by lia.
  change (- (1) =? 1) with false. reflexivity.
Qed.

Lemma ramf_sweep_step_neg (fuel : nat) (adj : Z) :
  adj < m -> adj < 12 ->
  Nisrom.ramf_sweep (Datatypes.S fuel) rf adj (-1)
  = (let* t := reconst_32 (Nisrom.buf rf) (p + - adj) in
     if t =? h then Ok (ramf_found rf (Some (- adj)))
     else Nisrom.ramf_sweep fuel rf (adj + 4) 1).
Proof.
  intros Hm H12. cbn [Nisrom.ramf_sweep]. fold m h p.
  destruct (Z.ltb_spec adj m); [| lia].
  destruct (Z.ltb_spec adj 12); [| lia].
  replace (-1 * adj) with (- adj) by lia.
  change (- (-1) =? 1) with true. reflexivity.
Qed.

Lemma tail_empty : m <= 16 -> tail = [].
Proof.
  intros H. unfold tail.
  assert ((m - 13) / 4 <= 0) as Hle.
  { apply Z.lt_succ_r. apply Z.div_lt_upper_bound; lia. }
  replace (Z.to_nat ((m - 13) / 4)) with 0%nat by lia. reflexivity.
Qed.

Lemma ramf_sweep_from_16 (fuel : nat) :
  (Z.to_nat m <= fuel + 5)%nat ->
  Nisrom.ramf_sweep fuel rf 16 1 = tries tail.
Proof.
  intros Hf. destruct (Z.lt_ge_cases 16 m) as [H | H].
  - unfold tries, tail.
    apply (ramf_sweep_upward rf (Z.to_nat ((m - 13) / 4)) 16 fuel); fold m.
    + lia.
    + do 2 f_equal. lia.
    + assert ((m - 13) / 4 <= m - 16).
      { apply Z.div_le_upper_bound; lia. }
      lia.
  - rewrite ramf_sweep_stop, tail_empty by lia. reflexivity.
Qed.

Ltac abs_consts :=
  change (Z.abs 4) with 4; change (Z.abs (-4)) with 4;
  change (Z.abs 8) with 8; change (Z.abs (-8)) with 8;
  change (Z.abs 12) with 12.

Lemma ramf_sweep_from_12 (fuel : nat) :
  (Z.to_nat m <= fuel + 4)%nat ->
  Nisrom.ramf_sweep fuel rf 12 1
  = tries (List.filter (fun d => Z.abs d <? m) [12] ++ tail).
Proof.
  intros Hf. cbn [List.filter]. abs_consts.
  destruct (Z.ltb_spec 12 m) as [H | H].
  - destruct fuel as [| fuel]; [lia |].
    cbn [Nisrom.ramf_sweep]. fold m h p.
    destruct (Z.ltb_spec 12 m); [| lia].
    change (12 <? 12) with false. replace (1 * 12) with 12 by lia.
    unfold tries. cbn [app first_probe].
    destruct (reconst_32 (Nisrom.buf rf) (p + 12)) as [w |]; [| reflexivity].
    cbn [bind]. destruct (w =? h); [reflexivity |].
    change (12 + 4) with 16. apply ramf_sweep_from_16. lia.
  - rewrite ramf_sweep_stop, tail_empty by lia. reflexivity.
Qed.

Lemma ramf_sweep_from_8 (fuel : nat) :
  (Z.to_nat m <= fuel + 2)%nat ->
  Nisrom.ramf_sweep fuel rf 8 1
  = tries (List.filter (fun d => Z.abs d <? m) [8; -8; 12] ++ tail).
Proof.
  intros Hf. cbn [List.filter]. abs_consts.
  destruct (Z.ltb_spec 8 m) as [H | H].
  - destruct fuel as [| [| fuel]]; try lia.
    rewrite ramf_sweep_step_pos by lia.
    unfold tries. cbn [app first_probe].
    destruct (reconst_32 (Nisrom.buf rf) (p + 8)) as [w |]; [| reflexivity].
    cbn [bind]. destruct (w =? h); [reflexivity |].
    rewrite ramf_sweep_step_neg by lia. change (- (8)) with (-8).
    destruct (reconst_32 (Nisrom.buf rf) (p + -8)) as [w' |]; [| reflexivity].
    cbn [bind]. destruct (w' =? h); [reflexivity |].
    change (8 + 4) with 12. rewrite ramf_sweep_from_12 by lia.
    cbn [List.filter]. abs_consts. reflexivity.
  - destruct (Z.ltb_spec 12 m); [lia |].
    rewrite ramf_sweep_stop, tail_empty by lia. reflexivity.
Qed.

(** The whole sweep, from [ramf_adj = 4] and [sign = 1]. *)
Lemma ramf_sweep_probes :
  Nisrom.ramf_sweep (Z.to_nat m) rf 4 1 = tries (ramf_probes m).
Proof.
  unfold ramf_probes. fold tail.
  change [4; -4; 8; -8; 12] with ([4; -4] ++ [8; -8; 12]).
  rewrite List.filter_app, <- app_assoc.
  cbn [List.filter]. abs_consts.
  destruct (Z.ltb_spec 4 m) as [H | H].
  - destruct (Z.to_nat m) as [| [| fuel]] eqn:Ef; try lia.
    rewrite ramf_sweep_step_pos by lia.
    unfold tries. cbn [app first_probe].
    destruct (reconst_32 (Nisrom.buf rf) (p + 4)) as [w |]; [| reflexivity].
    cbn [bind]. destruct (w =? h); [reflexivity |].
    rewrite ramf_sweep_step_neg by lia. change (- (4)) with (-4).
    destruct (reconst_32 (Nisrom.buf rf) (p + -4)) as [w' |]; [| reflexivity].
    cbn [bind]. destruct (w' =? h); [reflexivity |].
    change (4 + 4) with 8. rewrite ramf_sweep_from_8 by lia.
    cbn [List.filter]. abs_consts. reflexivity.
  - rewrite ramf_sweep_stop by lia.
    destruct (Z.ltb_spec 8 m); [lia |]. destruct (Z.ltb_spec 12 m); [lia |].
    rewrite tail_empty by lia. reflexivity.
Qed.

End Sweep.

(** C8, as the code has it.  When the word at
    [p_ramf = p_fid + sfid_size] is not the expected RAMF header,
    [find_ramf] probes the deltas +4, -4, +8, -8, +12 and then +16, +20, ...
    (there is no probe at -12), each of magnitude below [pRAMF_maxdist]; at
    the first probe whose word equals the header it records that delta as
    [ramf_offset] and adds it to [p_ramf]; when no probe matches both stay
    as they were. *)
Theorem find_ramf_header_probes (rf : Nisrom.romfile) (w : Z) :
  reconst_32 (Nisrom.buf rf) (to_u32 (Nisrom.p_fid rf + Nisrom.sfid_size rf))
  = Ok w ->
  w <> Nisrom.RAMF_header (Nisrom.fidtype rf) ->
  Nisrom.find_ramf_header rf
  = (let rf1 := Nisrom.set_ramf rf
                  (to_u32 (Nisrom.p_fid rf + Nisrom.sfid_size rf))
                  (Nisrom.ramf_offset rf) in
     let* hit := first_probe (Nisrom.buf rf) (Nisrom.p_ramf rf1)
                   (Nisrom.RAMF_header (Nisrom.fidtype rf))
                   (ramf_probes (Nisrom.pRAMF_maxdist (Nisrom.fidtype rf))) in
     Ok (ramf_found rf1 hit)).
Proof.
  intros Hw Hne. unfold Nisrom.find_ramf_header.
  cbn [Nisrom.set_ramf Nisrom.buf Nisrom.p_ramf Nisrom.fidtype].
  rewrite Hw. cbn [bind].
  destruct (Z.eqb_spec w (Nisrom.RAMF_header (Nisrom.fidtype rf))); [contradiction |].
  apply (ramf_sweep_probes
           (Nisrom.set_ramf rf (to_u32 (Nisrom.p_fid rf + Nisrom.sfid_size rf))
              (Nisrom.ramf_offset rf))).
Qed.

Lemma find_ramf_header_probes_witness :
  reconst_32 ramf_image_drift 20 = Ok 0
  /\ 0 <> 4294934528
  /\ Nisrom.find_ramf_header (ramf_rom ramf_image_drift)
     = Ok (Nisrom.set_ramf (ramf_rom ramf_image_drift) 28 8).
Proof.
  assert (Hw : reconst_32 (Nisrom.buf (ramf_rom ramf_image_drift))
                 (to_u32 (Nisrom.p_fid (ramf_rom ramf_image_drift)
                          + Nisrom.sfid_size (ramf_rom ramf_image_drift)))
               = Ok 0) by reflexivity.
  assert (Hne : 0 <> Nisrom.RAMF_header (Nisrom.fidtype (ramf_rom ramf_image_drift)))
    by discriminate.
  split; [exact Hw |]. split; [exact Hne |].
  rewrite (find_ramf_header_probes (ramf_rom ramf_image_drift) 0 Hw Hne).
  reflexivity.
Defined.

(** C8, as stated, fails: with the header word 12 bytes before the expected
    position only, the claimed order (which has a probe at -12) would record
    [ramf_offset = -12]; [find_ramf] never reads that word and leaves
    [ramf_offset] and [p_ramf] as they were. *)
Lemma find_ramf_probe_order_counterexample :
  reconst_32 ramf_image 20 = Ok 0
  /\ reconst_32 ramf_image (20 - 12) = Ok 4294934528
  /\ first_probe ramf_image 20 4294934528 (ramf_probes_claimed 32)
     = Ok (Some (-12))
  /\ Nisrom.find_ramf_header (ramf_rom ramf_image)
     = Ok (Nisrom.set_ramf (ramf_rom ramf_image) 20 0)
  /\ ~ In (-12) (ramf_probes 32).
Proof.
  repeat split; try reflexivity.
  simpl. intros H. repeat (destruct H as [H | H]; [discriminate |]). exact H.
Qed.

(** * The alt-checksum block (C9) *)

(** The four bytes of a word that [reconst_32] reads head the buffer from
    its offset on. *)
Lemma reconst_32_drop (buf : list byte) (off w : Z) :
  reconst_32 buf off = Ok w ->
  exists b0 b1 b2 b3,
    drop (Z.to_nat off) buf
    = b0 :: b1 :: b2 :: b3 :: drop (Z.to_nat (off + 4)) buf
    /\ w = be32 b0 b1 b2 b3.
Proof.
  intros H.
  apply reconst_32_inv in H as (b0 & b1 & b2 & b3 & H0 & H1 & H2 & H3 & ->).
  apply rd8_lookup in H0 as [Hoff H0], H1 as [_ H1], H2 as [_ H2], H3 as [_ H3].
  exists b0, b1, b2, b3. split; [| reflexivity].
  replace (Z.to_nat (off + 1)) with (Datatypes.S (Z.to_nat off)) in H1 by lia.
  replace (Z.to_nat (off + 2))
    with (Datatypes.S (Datatypes.S (Z.to_nat off))) in H2 by lia.
  replace (Z.to_nat (off + 3))
    with (Datatypes.S (Datatypes.S (Datatypes.S (Z.to_nat off)))) in H3 by lia.
  replace (Z.to_nat (off + 4))
    with (Datatypes.S (Datatypes.S (Datatypes.S (Datatypes.S (Z.to_nat off)))))
    by lia.
  rewrite (drop_S _ _ _ H0), (drop_S _ _ _ H1), (drop_S _ _ _ H2),
          (drop_S _ _ _ H3).
  reflexivity.
Qed.

(** [sum32] over [n] words: they lie inside the buffer and the result is
    the reference sum and xor of the block. *)
Lemma sum32_words_spec (n : nat) :
  forall (buf : list byte) (cur s x s' x' : Z),
    0 <= s < 2 ^ 32 ->
    sum32_words n buf cur (s, x) = Ok (s', x') ->
    let block := take (4 * n) (drop (Z.to_nat cur) buf) in
    length block = (4 * n)%nat
    /\ s' = to_u32 (s + foldr Z.add 0 (words_of block))
    /\ x' = Z.lxor x (foldr Z.lxor 0 (words_of block)).
Proof.
  induction n as [| n IH]; intros buf cur s x s' x' Hs H.
  - simpl in H. injection H as <- <-. simpl.
    rewrite Z.add_0_r, Z.lxor_0_r, to_u32_small by exact Hs. auto.
  - cbn [sum32_words] in H.
    destruct (reconst_32 buf cur) as [w |] eqn:Ew; [| discriminate].
    cbn [bind fst snd] in H.
    destruct (reconst_32_drop _ _ _ Ew) as (b0 & b1 & b2 & b3 & Ed & ->).
    apply IH in H; [| apply to_u32_range].
    destruct H as (Hlen & -> & ->).
    replace (4 * Datatypes.S n)%nat
      with (Datatypes.S (Datatypes.S (Datatypes.S (Datatypes.S (4 * n))))) by lia.
    cbv zeta. rewrite Ed. cbn [take length words_of foldr].
    split; [lia |]. split.
    + unfold to_u32. rewrite Zplus_mod_idemp_l. f_equal. lia.
    + rewrite Z.lxor_assoc. reflexivity.
Qed.

(** [u32memstr] returns the offset of a word that equals the needle. *)
Lemma u32memstr_words_found (n : nat) :
  forall (buf : list byte) (cur needle o : Z),
    u32memstr_words n buf cur needle = Ok (Some o) ->
    reconst_32 buf o = Ok needle
    /\ cur <= o /\ o + 4 <= cur + 4 * Z.of_nat n.
Proof.
  induction n as [| n IH]; intros buf cur needle o H.
  - discriminate.
  - cbn [u32memstr_words] in H.
    destruct (reconst_32 buf cur) as [w |] eqn:Ew; [| discriminate].
    cbn [bind] in H. destruct (Z.eqb_spec w needle) as [-> | _].
    + injection H as <-. split; [exact Ew | lia].
    + apply IH in H as (Hr & Hlo & Hhi). split; [exact Hr | lia].
Qed.

Lemma land_not3 (x : Z) :
  0 <= x < 2 ^ 32 -> Z.land x (to_u32 (Z.lnot 3)) = 4 * (x / 4).
Proof.
  intros Hx. unfold to_u32. rewrite <- Z.land_ones by lia.
  rewrite Z.land_assoc, (Z.land_comm x), <- Z.land_assoc.
  rewrite (Z.land_ones x) by lia. rewrite Z.mod_small by exact Hx.
  change (Z.lnot 3) with (Z.lnot (Z.ones 2)).
  rewrite Z.land_comm, <- Z.ldiff_land, Z.ldiff_ones_r by lia.
  rewrite Z.shiftr_div_pow2, Z.shiftl_mul_pow2 by lia.
  change (2 ^ 2) with 4. lia.
Qed.

Lemma land_lnot3 (x : Z) : 0 <= x -> Z.land x (Z.lnot 3) = 4 * (x / 4).
Proof.
  intros Hx. change (Z.lnot 3) with (Z.lnot (Z.ones 2)).
  rewrite <- Z.ldiff_land, Z.ldiff_ones_r by lia.
  rewrite Z.shiftr_div_pow2, Z.shiftl_mul_pow2 by lia.
  change (2 ^ 2) with 4. lia.
Qed.

(** [validate_altcks] on bounds that are in order and inside the ROM. *)
Lemma validate_altcks_good (rf rf' : Nisrom.romfile) (ret : Z) :
  Nisrom.siz rf <= MAX_ROMSIZE ->
  0 <= Nisrom.p_acstart rf < Nisrom.p_acend rf ->
  Nisrom.p_acend rf < Nisrom.siz rf ->
  Nisrom.cks_alt_good rf = false ->
  Nisrom.validate_altcks rf = Ok (ret, rf') ->
  Nisrom.cks_alt_good rf' = true ->
  let bsize :=
    Z.land (Nisrom.p_acend rf + 1 - Nisrom.p_acstart rf) (Z.lnot 3) + 4 in
  let block :=
    take (Z.to_nat bsize) (drop (Z.to_nat (Nisrom.p_acstart rf)) (Nisrom.buf rf)) in
  Nisrom.buf rf' = Nisrom.buf rf
  /\ Nisrom.siz rf' = Nisrom.siz rf
  /\ Nisrom.p_acstart rf' = Nisrom.p_acstart rf
  /\ Nisrom.p_acend rf' = Nisrom.p_acend rf
  /\ Z.of_nat (length block) = bsize
  /\ reconst_32 (Nisrom.buf rf) (Nisrom.p_acs rf') = Ok (wsum (words_of block))
  /\ reconst_32 (Nisrom.buf rf) (Nisrom.p_acx rf') = Ok (wxor (words_of block)).
Proof.
  intros Hsiz Hst Hend Hgood Hv Hgood'. unfold MAX_ROMSIZE in Hsiz.
  unfold Nisrom.validate_altcks in Hv.
  destruct (negb (Nisrom.has_ALTCKS (Nisrom.fidtype rf)));
    [injection Hv as _ <-; congruence |].
  destruct (_ || _ || _); [injection Hv as _ <-; congruence |].
  rewrite (to_u32_small (Nisrom.p_acend rf + 1)) in Hv by lia.
  rewrite (to_u32_small (Nisrom.p_acend rf + 1 - Nisrom.p_acstart rf)) in Hv by lia.
  rewrite land_not3 in Hv by lia.
  intros bsize block. subst bsize block. rewrite land_lnot3 by lia.
  set (x := Nisrom.p_acend rf + 1 - Nisrom.p_acstart rf) in *.
  assert (Hx : 0 <= x / 4) by (apply Z.div_pos; lia).
  assert (Hx' : 4 * (x / 4) <= x) by (apply Z.mul_div_le; lia).
  rewrite (to_u32_small (4 * (x / 4) + 4)) in Hv by lia.
  unfold sum32 in Hv.
  destruct (sum32_words _ _ _ _) as [[acs acx] |] eqn:Es; [| discriminate].
  cbn [bind fst snd] in Hv.
  apply sum32_words_spec in Es; [| lia]. cbv zeta in Es.
  replace (4 * Z.to_nat ((4 * (x / 4) + 4) / 4))%nat
    with (Z.to_nat (4 * (x / 4) + 4)) in Es.
  2: { replace (4 * (x / 4) + 4) with ((x / 4 + 1) * 4) by lia.
       rewrite Z.div_mul by lia. lia. }
  destruct Es as (Hlen & -> & ->).
  unfold u32memstr in Hv.
  destruct (u32memstr_words _ _ 0 (to_u32 _)) as [[ps |] |] eqn:Eps;
    try discriminate.
  2: { cbn [bind] in Hv.
       destruct (u32memstr_words _ _ 0 (Z.lxor _ _)) as [[px |] |];
         cbn [bind] in Hv; try discriminate;
         injection Hv as _ <-; congruence. }
  cbn [bind] in Hv.
  destruct (u32memstr_words _ _ 0 (Z.lxor _ _)) as [[px |] |] eqn:Epx;
    cbn [bind] in Hv; try discriminate.
  2: { injection Hv as _ <-; congruence. }
  injection Hv as _ <-.
  apply u32memstr_words_found in Eps as (Hrs & Hs0 & Hs1).
  apply u32memstr_words_found in Epx as (Hrx & Hx0 & Hx1).
  assert (Hq : 4 * (Nisrom.siz rf / 4) <= Nisrom.siz rf)
    by (apply Z.mul_div_le; lia).
  cbn [Nisrom.set_altcks Nisrom.buf Nisrom.siz Nisrom.p_acstart Nisrom.p_acend
       Nisrom.p_acs Nisrom.p_acx].
  rewrite (to_u32_small ps), (to_u32_small px) by lia.
  repeat split; try reflexivity.
  - lia.
  - rewrite Hrs. unfold wsum. rewrite Z.add_0_l. reflexivity.
  - rewrite Hrx. unfold wxor. rewrite Z.lxor_0_l. reflexivity.
Qed.

(** C9.  Whenever the alt-checksum stage of [find_ramf] raises
    [cks_alt_good], the bounds satisfy [p_acstart < p_acend < N], and the
    words at the recorded offsets [p_acs] and [p_acx] are the sum modulo
    2^32 and the xor of the big-endian words of the block that starts at
    [p_acstart] and is [(((p_acend + 1) - p_acstart) & ~3) + 4] bytes long,
    a block that lies inside the image. *)
Theorem cks_alt_good_block (rf rf' : Nisrom.romfile) :
  Nisrom.siz rf <= MAX_ROMSIZE ->
  0 <= Nisrom.p_acstart rf ->
  Nisrom.cks_alt_good rf = false ->
  Nisrom.find_ramf_altcks rf = Ok rf' ->
  Nisrom.cks_alt_good rf' = true ->
  let bsize :=
    Z.land (Nisrom.p_acend rf' + 1 - Nisrom.p_acstart rf') (Z.lnot 3) + 4 in
  let block :=
    take (Z.to_nat bsize)
         (drop (Z.to_nat (Nisrom.p_acstart rf')) (Nisrom.buf rf')) in
  Nisrom.p_acstart rf' < Nisrom.p_acend rf' < Nisrom.siz rf'
  /\ Z.of_nat (length block) = bsize
  /\ reconst_32 (Nisrom.buf rf') (Nisrom.p_acs rf') = Ok (wsum (words_of block))
  /\ reconst_32 (Nisrom.buf rf') (Nisrom.p_acx rf') = Ok (wxor (words_of block)).
Proof.
  intros Hsiz Hst Hgood Hf Hgood'. unfold Nisrom.find_ramf_altcks in Hf.
  destruct (Nisrom.has_ALTCKS (Nisrom.fidtype rf)); [| congruence].
  assert (Hclamp : forall rf2,
    (if negb (Nisrom.p_acstart (Nisrom.set_acbounds rf UINT32_MAX UINT32_MAX)
              =? UINT32_MAX)
     then rf2 else Ok (Nisrom.set_acbounds rf UINT32_MAX UINT32_MAX))
    <> Ok rf').
  { intros rf2. cbn [Nisrom.set_acbounds Nisrom.p_acstart].
    rewrite Z.eqb_refl. cbn [negb]. intros [= <-].
    cbn in Hgood'. congruence. }
  destruct (Z.leb_spec (Nisrom.siz rf) (Nisrom.p_acstart rf)) as [H1 | H1];
    [cbn [orb] in Hf; apply Hclamp in Hf; contradiction |].
  destruct (Z.leb_spec (Nisrom.siz rf) (Nisrom.p_acend rf)) as [H2 | H2];
    [cbn [orb] in Hf; apply Hclamp in Hf; contradiction |].
  destruct (Z.leb_spec (Nisrom.p_acend rf) (Nisrom.p_acstart rf)) as [H3 | H3];
    [cbn [orb] in Hf; apply Hclamp in Hf; contradiction |].
  cbn [orb] in Hf.
  destruct (negb (Nisrom.p_acstart rf =? UINT32_MAX)); [| congruence].
  destruct (Nisrom.validate_altcks rf) as [[ret rf1] |] eqn:Ev; [| discriminate].
  cbn [bind snd] in Hf. injection Hf as ->.
  destruct (validate_altcks_good rf rf' ret Hsiz (conj Hst H3) H2 Hgood Ev Hgood')
    as (Eb & Es & Ea & Ee & Hlen & Hs & Hx).
  cbv zeta. rewrite Eb, Es, Ea, Ee.
  split; [lia |]. split; [exact Hlen |]. split; assumption.
Qed.

Lemma cks_alt_good_block_witness :
  Nisrom.siz altcks_rom <= MAX_ROMSIZE
  /\ 0 <= Nisrom.p_acstart altcks_rom
  /\ Nisrom.cks_alt_good altcks_rom = false
  /\ Nisrom.find_ramf_altcks altcks_rom
     = Ok (Nisrom.set_altcks altcks_rom 0 0 true)
  /\ 0 < 3 < 16
  /\ reconst_32 (Nisrom.buf altcks_rom) 0 = Ok 0.
Proof.
  assert (H1 : Nisrom.siz altcks_rom <= MAX_ROMSIZE) by (vm_compute; discriminate).
  assert (H2 : 0 <= Nisrom.p_acstart altcks_rom) by (vm_compute; discriminate).
  assert (H3 : Nisrom.cks_alt_good altcks_rom = false) by reflexivity.
  assert (H4 : Nisrom.find_ramf_altcks altcks_rom
               = Ok (Nisrom.set_altcks altcks_rom 0 0 true)) by reflexivity.
  assert (H5 : Nisrom.cks_alt_good (Nisrom.set_altcks altcks_rom 0 0 true) = true)
    by reflexivity.
  pose proof (cks_alt_good_block altcks_rom _ H1 H2 H3 H4 H5) as (Hb & _ & Hs & _).
  split; [exact H1 |]. split; [exact H2 |]. split; [exact H3 |].
  split; [exact H4 |]. split; [exact Hb | exact Hs].
Defined.

Example validate_altcks_not_found :
  Nisrom.validate_altcks
    (Nisrom.mk_romfile 8 fix_image (Nisrom.mk_fidtype true 0 0)
       0 0 0 0 0 0 0 3 false)
  = Ok (-1, Nisrom.mk_romfile 8 fix_image (Nisrom.mk_fidtype true 0 0)
              0 0 0 0 0 0 0 3 false).
Proof. reflexivity. Qed.


(** * The byte-level primitives of nislib.c, in full *)

Lemma byte_of_land (x : Z) : byte.of_Z (Z.land x 255) = byte.of_Z x.
Proof.
  apply byte.unsigned_inj. rewrite !byte.unsigned_of_Z. unfold byte.wrap.
  change 255 with (Z.ones 8). rewrite Z.land_ones by lia.
  apply Z.mod_mod. lia.
Qed.

Lemma split_at_word (buf : list byte) (off : Z) :
  0 <= off -> off + 4 <= Z.of_nat (length buf) ->
  exists pre c0 c1 c2 c3 suf,
    buf = pre ++ c0 :: c1 :: c2 :: c3 :: suf /\ off = Z.of_nat (length pre).
Proof.
  intros H0 H1. exists (take (Z.to_nat off) buf).
  destruct (drop (Z.to_nat off) buf) as [| c0 [| c1 [| c2 [| c3 suf]]]] eqn:E;
    try (apply (f_equal length) in E; rewrite length_drop in E; simpl in E; lia).
  exists c0, c1, c2, c3, suf. split.
  - rewrite <- E. symmetry. apply take_drop.
  - rewrite length_take. lia.
Qed.

Lemma reconst_32_middle (pre suf : list byte) (b0 b1 b2 b3 : byte) :
  reconst_32 (pre ++ b0 :: b1 :: b2 :: b3 :: suf) (Z.of_nat (length pre))
  = Ok (be32 b0 b1 b2 b3).
Proof.
  rewrite <- (Z.add_0_r (Z.of_nat (length pre))).
  apply reconst_32_app_r, reconst_32_head.
Qed.

Lemma write_32b_middle (val : Z) (pre suf : list byte) (c0 c1 c2 c3 : byte) :
  write_32b val (pre ++ c0 :: c1 :: c2 :: c3 :: suf) (Z.of_nat (length pre))
  = Ok (pre ++ byte.of_Z (val / 2 ^ 24) :: byte.of_Z (val / 2 ^ 16)
            :: byte.of_Z (val / 2 ^ 8) :: byte.of_Z val :: suf).
Proof.
  rewrite write_32b_in_bounds by (rewrite ?length_app; simpl; lia).
  rewrite !byte_of_land, !Z.shiftr_shiftr, !Z.shiftr_div_pow2 by lia.
  replace (Z.to_nat (Z.of_nat (length pre))) with (length pre + 0)%nat by lia.
  replace (Z.to_nat (Z.of_nat (length pre) + 1)) with (length pre + 1)%nat by lia.
  replace (Z.to_nat (Z.of_nat (length pre) + 2)) with (length pre + 2)%nat by lia.
  replace (Z.to_nat (Z.of_nat (length pre) + 3)) with (length pre + 3)%nat by lia.
  rewrite !insert_app_r. reflexivity.
Qed.

(** [reconst_32] returns a value exactly when the four bytes lie inside the
    buffer, and the value is then the big-endian number they spell: the
    first byte is the most significant. *)
Theorem reconst_32_spec (buf : list byte) (off w : Z) :
  reconst_32 buf off = Ok w
  <-> exists pre b0 b1 b2 b3 suf,
        buf = pre ++ b0 :: b1 :: b2 :: b3 :: suf
        /\ off = Z.of_nat (length pre)
        /\ w = byte.unsigned b0 * 2 ^ 24 + byte.unsigned b1 * 2 ^ 16
               + byte.unsigned b2 * 2 ^ 8 + byte.unsigned b3.
Proof.
  split.
  - intros H. destruct (reconst_32_bounds _ _ _ H) as [H0 H1].
    destruct (split_at_word buf off H0 H1)
      as (pre & b0 & b1 & b2 & b3 & suf & -> & ->).
    rewrite reconst_32_middle in H. injection H as <-.
    exists pre, b0, b1, b2, b3, suf. auto.
  - intros (pre & b0 & b1 & b2 & b3 & suf & -> & -> & ->).
    apply reconst_32_middle.
Qed.

(** [write_32b] succeeds exactly when the four bytes lie inside the buffer;
    it then replaces them by the four low bytes of the value, most
    significant first, and leaves every byte before and after them, and the
    length, as they were. *)
Theorem write_32b_spec (val : Z) (buf buf' : list byte) (off : Z) :
  write_32b val buf off = Ok buf'
  <-> exists pre c0 c1 c2 c3 suf,
        buf = pre ++ c0 :: c1 :: c2 :: c3 :: suf
        /\ off = Z.of_nat (length pre)
        /\ buf' = pre ++ byte.of_Z (val / 2 ^ 24) :: byte.of_Z (val / 2 ^ 16)
                      :: byte.of_Z (val / 2 ^ 8) :: byte.of_Z val :: suf.
Proof.
  split.
  - intros H. destruct (write_32b_bounds _ _ _ _ H) as [H0 H1].
    destruct (split_at_word buf off H0 H1)
      as (pre & c0 & c1 & c2 & c3 & suf & -> & ->).
    rewrite write_32b_middle in H. injection H as <-.
    exists pre, c0, c1, c2, c3, suf. auto.
  - intros (pre & c0 & c1 & c2 & c3 & suf & -> & -> & ->).
    apply write_32b_middle.
Qed.

(** The two halves of a word: where [reconst_32] reads [w], [reconst_16]
    reads the upper 16 bits of [w] at the same offset and the lower 16 bits
    two bytes further. *)
Theorem reconst_16_halves (buf : list byte) (off w : Z) :
  reconst_32 buf off = Ok w ->
  reconst_16 buf off = Ok (w / 2 ^ 16)
  /\ reconst_16 buf (off + 2) = Ok (w mod 2 ^ 16).
Proof.
  intros H.
  apply reconst_32_inv in H as (b0 & b1 & b2 & b3 & H0 & H1 & H2 & H3 & ->).
  unfold reconst_16.
  replace (off + 2 + 1) with (off + 3) by lia.
  rewrite H0, H1, H2, H3. cbn [bind]. unfold to_u16, be32.
  pose proof (byte_unsigned_range b0). pose proof (byte_unsigned_range b1).
  pose proof (byte_unsigned_range b2). pose proof (byte_unsigned_range b3).
  assert (E : forall x y : byte,
    Z.lor (Z.shiftl (byte.unsigned x) 8) (byte.unsigned y)
    = byte.unsigned x * 2 ^ 8 + byte.unsigned y).
  { intros x y. rewrite Z.shiftl_mul_pow2 by lia.
    assert (N : Z.land (byte.unsigned x * 2 ^ 8) (byte.unsigned y) = 0).
    { rewrite <- Z.shiftl_mul_pow2 by lia. byte_bits. }
    rewrite <- Z.lxor_lor, <- Z.add_nocarry_lxor by exact N. reflexivity. }
  rewrite !E. split; f_equal.
  - rewrite Z.mod_small by lia.
    apply (Z.div_unique _ _ _ (byte.unsigned b2 * 2 ^ 8 + byte.unsigned b3)); lia.
  - rewrite (Z.mod_small (_ + _)) by lia.
    apply (Z.mod_unique _ _ (byte.unsigned b0 * 2 ^ 8 + byte.unsigned b1)); lia.
Qed.

Lemma reconst_16_halves_witness :
  reconst_32 sample_bytes 0 = Ok 3735928559
  /\ reconst_16 sample_bytes 0 = Ok 57005
  /\ reconst_16 sample_bytes 2 = Ok 48879.
Proof.
  assert (H : reconst_32 sample_bytes 0 = Ok 3735928559) by reflexivity.
  split; [exact H |].
  exact (reconst_16_halves sample_bytes 0 3735928559 H).
Defined.

(** Two writes to the same place: the later one wins. *)
Theorem write_32b_overwrite (v1 v2 : Z) (buf buf1 : list byte) (off : Z) :
  write_32b v1 buf off = Ok buf1 ->
  write_32b v2 buf1 off = write_32b v2 buf off.
Proof.
  intros H. destruct (write_32b_bounds _ _ _ _ H) as [H0 H1].
  destruct (split_at_word buf off H0 H1)
    as (pre & c0 & c1 & c2 & c3 & suf & -> & ->).
  rewrite write_32b_middle in H. injection H as <-.
  rewrite !write_32b_middle. reflexivity.
Qed.

Lemma write_32b_overwrite_witness :
  write_32b 0 sample_bytes 4 = Ok (take 4 sample_bytes ++ replicate 4 Byte.x00)
  /\ write_32b 305419896 (take 4 sample_bytes ++ replicate 4 Byte.x00) 4
     = write_32b 305419896 sample_bytes 4.
Proof.
  assert (H : write_32b 0 sample_bytes 4
              = Ok (take 4 sample_bytes ++ replicate 4 Byte.x00)) by reflexivity.
  split; [exact H |].
  exact (write_32b_overwrite 0 305419896 sample_bytes _ 4 H).
Defined.

(** Writes to two words that do not overlap can be made in either order. *)
Theorem write_32b_commute (v1 v2 : Z) (buf b1 b12 : list byte) (o1 o2 : Z) :
  o1 + 4 <= o2 \/ o2 + 4 <= o1 ->
  write_32b v1 buf o1 = Ok b1 ->
  write_32b v2 b1 o2 = Ok b12 ->
  exists b2, write_32b v2 buf o2 = Ok b2 /\ write_32b v1 b2 o1 = Ok b12.
Proof.
  intros Hd H1 H2.
  pose proof (write_32b_bounds _ _ _ _ H1) as [A0 A1].
  pose proof (write_32b_bounds _ _ _ _ H2) as [B0 B1].
  pose proof (write_32b_length _ _ _ _ H1) as L1.
  rewrite write_32b_in_bounds in H1 by lia. injection H1 as <-.
  rewrite write_32b_in_bounds in H2 by lia. injection H2 as <-.
  eexists. split; [apply write_32b_in_bounds; lia |].
  rewrite write_32b_in_bounds by (rewrite ?length_insert; lia).
  f_equal.
  assert (D : forall j k, 0 <= j < 4 -> 0 <= k < 4 ->
            Z.to_nat (o2 + j) <> Z.to_nat (o1 + k)) by (intros; lia).
  replace (Z.to_nat o1) with (Z.to_nat (o1 + 0)) by (f_equal; lia).
  replace (Z.to_nat o2) with (Z.to_nat (o2 + 0)) by (f_equal; lia).
  rewrite (list_insert_insert_ne _ (Z.to_nat (o2 + 3)) (Z.to_nat (o1 + 0))),
          (list_insert_insert_ne _ (Z.to_nat (o2 + 3)) (Z.to_nat (o1 + 1))),
          (list_insert_insert_ne _ (Z.to_nat (o2 + 3)) (Z.to_nat (o1 + 2))),
          (list_insert_insert_ne _ (Z.to_nat (o2 + 3)) (Z.to_nat (o1 + 3))),
          (list_insert_insert_ne _ (Z.to_nat (o2 + 2)) (Z.to_nat (o1 + 0))),
          (list_insert_insert_ne _ (Z.to_nat (o2 + 2)) (Z.to_nat (o1 + 1))),
          (list_insert_insert_ne _ (Z.to_nat (o2 + 2)) (Z.to_nat (o1 + 2))),
          (list_insert_insert_ne _ (Z.to_nat (o2 + 2)) (Z.to_nat (o1 + 3))),
          (list_insert_insert_ne _ (Z.to_nat (o2 + 1)) (Z.to_nat (o1 + 0))),
          (list_insert_insert_ne _ (Z.to_nat (o2 + 1)) (Z.to_nat (o1 + 1))),
          (list_insert_insert_ne _ (Z.to_nat (o2 + 1)) (Z.to_nat (o1 + 2))),
          (list_insert_insert_ne _ (Z.to_nat (o2 + 1)) (Z.to_nat (o1 + 3))),
          (list_insert_insert_ne _ (Z.to_nat (o2 + 0)) (Z.to_nat (o1 + 0))),
          (list_insert_insert_ne _ (Z.to_nat (o2 + 0)) (Z.to_nat (o1 + 1))),
          (list_insert_insert_ne _ (Z.to_nat (o2 + 0)) (Z.to_nat (o1 + 2))),
          (list_insert_insert_ne _ (Z.to_nat (o2 + 0)) (Z.to_nat (o1 + 3)))
    by (apply D; lia).
  reflexivity.
Qed.

Lemma write_32b_commute_witness :
  (0 + 4 <= 4 \/ 4 + 4 <= 0)
  /\ exists b2, write_32b 2 zeros8 4 = Ok b2
               /\ write_32b 1 b2 0
                  = Ok [Byte.x00; Byte.x00; Byte.x00; Byte.x01;
                        Byte.x00; Byte.x00; Byte.x00; Byte.x02].
Proof.
  split; [lia |].
  apply (write_32b_commute 1 2 zeros8
           [Byte.x00; Byte.x00; Byte.x00; Byte.x01;
            Byte.x00; Byte.x00; Byte.x00; Byte.x00]
           [Byte.x00; Byte.x00; Byte.x00; Byte.x01;
            Byte.x00; Byte.x00; Byte.x00; Byte.x02] 0 4);
    [lia | reflexivity | reflexivity].
Defined.

(** * checksum_std: what it reads, and what its results mean *)

Lemma checksum_std_return_witness :
  4 = Z.of_nat (length one_word) /\ 0 < 4 /\ 4 mod 4 = 0
  /\ exists r,
       Nislib.checksum_std one_word 4 = Ok r
       /\ (Nislib.std_ret r = -1 \/ Nislib.std_ret r = 0)
       /\ (Nislib.std_ret r = -1 <->
           (forall o, ~ word_match one_word 4 (derived_cks one_word) o)
           /\ (forall o, ~ word_match one_word 4 (derived_ckx one_word) o))
       /\ ((forall o, ~ word_match one_word 4 (derived_cks one_word) o) ->
           Nislib.o_cks r = None)
       /\ ((forall o, ~ word_match one_word 4 (derived_ckx one_word) o) ->
           Nislib.o_ckx r = None).
Proof.
  assert (H0 : 4 = Z.of_nat (length one_word)) by reflexivity.
  assert (H1 : 0 < 4) by lia.
  assert (H2 : 4 mod 4 = 0) by reflexivity.
  repeat (split; [assumption |]).
  exact (checksum_std_return one_word 4 H0 H1 H2).
Defined.

(** Two word loops whose bodies agree at the offsets the loop visits give
    the same result. *)
Lemma for_words_ext {S : Type} (body1 body2 : Z -> S -> res S) (siz : Z)
    (fuel : nat) (start : Z) (s : S) :
  (forall cur s', start <= cur < siz -> (cur - start) mod 4 = 0 ->
     body1 cur s' = body2 cur s') ->
  for_words fuel body1 start siz s = for_words fuel body2 start siz s.
Proof.
  revert start s. induction fuel as [| fuel IH]; intros start s H; simpl.
  - reflexivity.
  - destruct (Z.ltb_spec start siz) as [Hlt | Hge]; [| reflexivity].
    rewrite (H start s) by (rewrite ?Z.sub_diag; auto with zarith).
    destruct (body2 start s) as [s' | f]; [| reflexivity]. cbn [bind].
    apply IH. intros cur s'' Hc Hm. apply H; [lia |].
    replace (cur - start) with (cur - (start + 4) + 1 * 4) by lia.
    rewrite Z.mod_add by lia. exact Hm.
Qed.

Lemma rd8_app_l (buf extra : list byte) (off : Z) :
  off < Z.of_nat (length buf) -> rd8 (buf ++ extra) off = rd8 buf off.
Proof.
  intros H. unfold rd8. destruct (Z.ltb_spec off 0); [reflexivity |].
  rewrite lookup_app_l by lia. reflexivity.
Qed.

Lemma reconst_32_app_l (buf extra : list byte) (off : Z) :
  off + 4 <= Z.of_nat (length buf) ->
  reconst_32 (buf ++ extra) off = reconst_32 buf off.
Proof.
  intros H. unfold reconst_32. rewrite !rd8_app_l by lia. reflexivity.
Qed.

Lemma aligned_word_below (cur siz : Z) :
  0 <= cur < siz -> cur mod 4 = 0 -> siz mod 4 = 0 -> cur + 4 <= siz.
Proof.
  intros Hc Hm Hs.
  apply Z.mod_divide in Hm, Hs; try lia.
  destruct Hm as [a ->], Hs as [b ->]. lia.
Qed.

(** [checksum_std] reads nothing at or after offset [siz]: bytes that follow
    the [siz] bytes of the image have no influence on the result. *)
Theorem checksum_std_ignores_tail (buf extra : list byte) (siz : Z) :
  siz = Z.of_nat (length buf) ->
  siz mod 4 = 0 ->
  Nislib.checksum_std (buf ++ extra) siz = Nislib.checksum_std buf siz.
Proof.
  intros Hsiz Hmod. unfold Nislib.checksum_std.
  destruct (siz <=? 0); [reflexivity |].
  assert (Hrd : forall cur, 0 <= cur < siz -> (cur - 0) mod 4 = 0 ->
                reconst_32 (buf ++ extra) cur = reconst_32 buf cur).
  { intros cur Hc Hm. rewrite Z.sub_0_r in Hm. apply reconst_32_app_l.
    pose proof (aligned_word_below cur siz Hc Hm Hmod). lia. }
  assert (Ht : Nislib.std_targets (buf ++ extra) siz = Nislib.std_targets buf siz).
  { unfold Nislib.std_targets. f_equal. apply for_words_ext.
    intros cur s Hc Hm. unfold Nislib.std_fold_body.
    rewrite (Hrd cur Hc Hm). reflexivity. }
  rewrite Ht. destruct (Nislib.std_targets buf siz) as [t | f]; [| reflexivity].
  cbn [bind]. unfold Nislib.std_locate. f_equal. apply for_words_ext.
  intros cur s Hc Hm. unfold Nislib.std_scan_body.
  rewrite (Hrd cur Hc Hm). reflexivity.
Qed.

Lemma checksum_std_ignores_tail_witness :
  4 = Z.of_nat (length one_word) /\ 4 mod 4 = 0
  /\ Nislib.checksum_std (one_word ++ [Byte.xff; Byte.xff]) 4
     = Ok (Nislib.mk_std 0 (Some 0) None []).
Proof.
  assert (H0 : 4 = Z.of_nat (length one_word)) by reflexivity.
  assert (H1 : 4 mod 4 = 0) by reflexivity.
  split; [exact H0 |]. split; [exact H1 |].
  rewrite (checksum_std_ignores_tail one_word [Byte.xff; Byte.xff] 4 H0 H1).
  reflexivity.
Defined.

(** A word that starts inside the buffer and ends outside it: the load
    faults at the first byte past the end. *)
Lemma reconst_32_ragged (pre suf : list byte) :
  (0 < length suf < 4)%nat ->
  reconst_32 (pre ++ suf) (Z.of_nat (length pre))
  = Fault (BadRead (Z.of_nat (length (pre ++ suf)))).
Proof.
  intros H. unfold reconst_32.
  assert (Hin : forall k b, 0 <= k -> suf !! Z.to_nat k = Some b ->
            rd8 (pre ++ suf) (Z.of_nat (length pre) + k) = Ok b).
  { intros k b H0 Hk. apply rd8_app_r. apply rd8_lookup. auto. }
  assert (Hout : rd8 (pre ++ suf) (Z.of_nat (length (pre ++ suf)))
                 = Fault (BadRead (Z.of_nat (length (pre ++ suf))))).
  { unfold rd8. destruct (Z.ltb_spec (Z.of_nat (length (pre ++ suf))) 0); [lia |].
    rewrite Nat2Z.id, lookup_ge_None_2 by lia. reflexivity. }
  rewrite length_app in Hout |- *.
  destruct suf as [| b0 [| b1 [| b2 [| b3 r]]]]; simpl in H; try lia.
  - rewrite <- (Z.add_0_r (Z.of_nat (length pre))) at 1.
    rewrite (Hin 0 b0 ltac:(lia) eq_refl). cbn [bind].
    replace (Z.of_nat (length pre) + 1)
      with (Z.of_nat (length pre + length [b0])) by (simpl; lia).
    rewrite Hout. reflexivity.
  - rewrite <- (Z.add_0_r (Z.of_nat (length pre))) at 1.
    rewrite (Hin 0 b0 ltac:(lia) eq_refl). cbn [bind].
    rewrite (Hin 1 b1 ltac:(lia) eq_refl). cbn [bind].
    replace (Z.of_nat (length pre) + 2)
      with (Z.of_nat (length pre + length [b0; b1])) by (simpl; lia).
    rewrite Hout. reflexivity.
  - rewrite <- (Z.add_0_r (Z.of_nat (length pre))) at 1.
    rewrite (Hin 0 b0 ltac:(lia) eq_refl). cbn [bind].
    rewrite (Hin 1 b1 ltac:(lia) eq_refl). cbn [bind].
    rewrite (Hin 2 b2 ltac:(lia) eq_refl). cbn [bind].
    replace (Z.of_nat (length pre) + 3)
      with (Z.of_nat (length pre + length [b0; b1; b2])) by (simpl; lia).
    rewrite Hout. reflexivity.
Qed.

(** A word loop over a buffer that ends in a partial word runs into the
    end of the buffer. *)
Lemma for_words_ragged {S : Type} (g : Z -> Z -> S -> S)
    (body : Z -> S -> res S) (buf : list byte) :
  (forall off s, body off s = let* w := reconst_32 buf off in Ok (g off w s)) ->
  forall (n : nat) (suf pre : list byte) (s : S) (fuel : nat),
    buf = pre ++ suf ->
    (4 * n < length suf < 4 * n + 4)%nat ->
    (n < fuel)%nat ->
    for_words fuel body (Z.of_nat (length pre)) (Z.of_nat (length buf)) s
    = Fault (BadRead (Z.of_nat (length buf))).
Proof.
  intros Hbody. induction n as [| n IH]; intros suf pre s fuel Hbuf Hlen Hfuel;
    (destruct fuel as [| fuel]; [lia |]); simpl for_words;
    (destruct (Z.ltb_spec (Z.of_nat (length pre)) (Z.of_nat (length buf)));
     [| subst buf; rewrite length_app in *; lia]); rewrite Hbody.
  - subst buf. rewrite reconst_32_ragged by lia. reflexivity.
  - destruct suf as [| b0 [| b1 [| b2 [| b3 r]]]]; simpl in Hlen; try lia.
    assert (Hw : reconst_32 buf (Z.of_nat (length pre)) = Ok (be32 b0 b1 b2 b3)).
    { subst buf. rewrite <- (Z.add_0_r (Z.of_nat (length pre))).
      apply reconst_32_app_r, reconst_32_head. }
    rewrite Hw. cbn [bind].
    replace (Z.of_nat (length pre) + 4)
      with (Z.of_nat (length (pre ++ [b0; b1; b2; b3])))
      by (rewrite length_app; simpl; lia).
    apply (IH r).
    + subst buf. rewrite <- app_assoc. reflexivity.
    + lia.
    + lia.
Qed.

(** When [siz] is not a multiple of 4 and the buffer holds just [siz]
    bytes, the first loop of [checksum_std] reads the last, partial word in
    full: the call runs past the end of the buffer, at offset [siz]. *)
Theorem checksum_std_overread (buf : list byte) (siz : Z) :
  siz = Z.of_nat (length buf) ->
  siz mod 4 <> 0 ->
  Nislib.checksum_std buf siz = Fault (BadRead siz).
Proof.
  intros Hsiz Hmod. unfold Nislib.checksum_std.
  destruct (Z.leb_spec siz 0) as [Hle | Hpos].
  { assert (siz = 0) as -> by lia. exfalso. apply Hmod. reflexivity. }
  unfold Nislib.std_targets. subst siz.
  rewrite (for_words_ragged
             (fun _ w acc => (to_u32 (fst acc + w), Z.lxor (snd acc) w))
             (Nislib.std_fold_body buf) buf (fun _ _ => eq_refl)
             (length buf / 4)%nat buf [] (0, 0)).
  - reflexivity.
  - reflexivity.
  - pose proof (Nat.div_mod_eq (length buf) 4) as E.
    assert (length buf mod 4 <> 0)%nat.
    { intros E0. apply Hmod.
      change 4 with (Z.of_nat 4). rewrite <- Nat2Z.inj_mod, E0. reflexivity. }
    pose proof (Nat.mod_upper_bound (length buf) 4). lia.
  - rewrite Nat2Z.id.
    pose proof (Nat.div_mod_eq (length buf) 4) as E.
    pose proof (Nat.mod_upper_bound (length buf) 4).
    assert (0 < length buf)%nat by lia. lia.
Qed.

Lemma checksum_std_overread_witness :
  5 = Z.of_nat (length (one_word ++ [Byte.x00])) /\ 5 mod 4 <> 0
  /\ Nislib.checksum_std (one_word ++ [Byte.x00]) 5 = Fault (BadRead 5).
Proof.
  assert (H0 : 5 = Z.of_nat (length (one_word ++ [Byte.x00]))) by reflexivity.
  assert (H1 : 5 mod 4 <> 0) by discriminate.
  split; [exact H0 |]. split; [exact H1 |].
  exact (checksum_std_overread (one_word ++ [Byte.x00]) 5 H0 H1).
Defined.

(** * checksum_std and images that carry their checksums *)

(** The folds over the words with two of them zeroed. *)
Lemma folds_without (ws : list Z) (i j : nat) (u v : Z) :
  i <> j -> ws !! i = Some u -> ws !! j = Some v ->
  foldr Z.add 0 (<[i := 0]> (<[j := 0]> ws)) = foldr Z.add 0 ws - u - v
  /\ foldr Z.lxor 0 (<[i := 0]> (<[j := 0]> ws))
     = Z.lxor (Z.lxor (foldr Z.lxor 0 ws) u) v.
Proof.
  intros Hne Hi Hj.
  assert (Hi' : <[j := 0]> ws !! i = Some u)
    by (rewrite list_lookup_insert_ne by congruence; exact Hi).
  split.
  - rewrite (sum_insert _ _ _ _ Hi'), (sum_insert _ _ _ _ Hj). lia.
  - rewrite (xor_insert _ _ _ _ Hi'), (xor_insert _ _ _ _ Hj). xor_solve.
Qed.

Lemma words_xor_range (buf : list byte) :
  0 <= wxor (words_of buf) < 2 ^ 32.
Proof. apply wxor_range. intros i w. apply words_of_range. Qed.

(** The results of [checksum_std] mean what the comment at its head says:
    when the call stores two different offsets, the word at [*p_cks] is the
    sum modulo 2^32 of all the other words of the image and the word at
    [*p_ckx] is their xor. *)
Theorem checksum_std_sound (buf : list byte) (siz : Z) (r : Nislib.std_out)
    (p q : Z) :
  siz = Z.of_nat (length buf) ->
  siz mod 4 = 0 ->
  Nislib.checksum_std buf siz = Ok r ->
  Nislib.o_cks r = Some p ->
  Nislib.o_ckx r = Some q ->
  p <> q ->
  exists i j : nat,
    p = 4 * Z.of_nat i /\ q = 4 * Z.of_nat j
    /\ std_valid (words_of buf) i j.
Proof.
  intros Hsiz Hmod Hr Hp Hq Hne. subst siz.
  assert (Hpos : 0 < Z.of_nat (length buf)).
  { destruct (Z.leb_spec (Z.of_nat (length buf)) 0) as [Hle | ?]; [| assumption].
    unfold Nislib.checksum_std in Hr.
    destruct (Z.leb_spec (Z.of_nat (length buf)) 0); [| lia].
    injection Hr as <-. discriminate. }
  destruct (checksum_std_cells buf r Hpos Hmod Hr) as (Ec & Ex & _).
  rewrite Hp in Ec. rewrite Hq in Ex. symmetry in Ec, Ex.
  apply last_Some_elem_of in Ec, Ex.
  apply elem_of_match_offsets in Ec as (i & Hi & ->).
  apply elem_of_match_offsets in Ex as (j & Hj & ->).
  exists i, j. split; [lia |]. split; [lia |].
  assert (Hij : i <> j) by (intros ->; apply Hne; reflexivity).
  destruct (folds_without _ i j _ _ Hij Hi Hj) as [Es Ex].
  unfold std_valid. split; [exact Hij |].
  rewrite Hi, Hj. unfold derived_cks, derived_ckx, wsum, wxor in *.
  rewrite Es, Ex.
  pose proof (words_xor_range buf) as Rx. unfold wxor in Rx.
  split; f_equal.
  - rewrite <- (to_u32_small (foldr Z.lxor 0 (words_of buf))) at 1 by exact Rx.
    unfold to_u32. Z.mod_equality.
  - xor_solve.
Qed.

Lemma checksum_std_sound_witness :
  exists i j : nat,
    0 = 4 * Z.of_nat i /\ 4 = 4 * Z.of_nat j
    /\ std_valid (words_of valid_image) i j.
Proof.
  refine (checksum_std_sound valid_image 16
            (Nislib.mk_std 0 (Some 0) (Some 4) []) 0 4 _ _ _ _ _ _).
  - reflexivity.
  - reflexivity.
  - reflexivity.
  - reflexivity.
  - reflexivity.
  - discriminate.
Defined.

(** Conversely, an image that carries its two checksums at different word
    indices passes: [checksum_std] returns 0 and stores, for each of the two,
    an offset at or after the one given whose word holds the same value. *)
Theorem checksum_std_complete (buf : list byte) (siz : Z) (i j : nat) :
  siz = Z.of_nat (length buf) ->
  siz mod 4 = 0 ->
  std_valid (words_of buf) i j ->
  exists r p q,
    Nislib.checksum_std buf siz = Ok r
    /\ Nislib.std_ret r = 0
    /\ Nislib.o_cks r = Some p /\ Nislib.o_ckx r = Some q
    /\ 4 * Z.of_nat i <= p /\ 4 * Z.of_nat j <= q
    /\ reconst_32 buf p = reconst_32 buf (4 * Z.of_nat i)
    /\ reconst_32 buf q = reconst_32 buf (4 * Z.of_nat j).
Proof.
  intros Hsiz Hmod (Hij & Hi & Hj). subst siz.
  remember (wsum (<[i := 0]> (<[j := 0]> (words_of buf)))) as u eqn:Eu.
  remember (wxor (<[i := 0]> (<[j := 0]> (words_of buf)))) as v eqn:Ev.
  destruct (folds_without _ i j u v Hij Hi Hj) as [Es Ex].
  unfold wsum in Eu. unfold wxor in Ev. rewrite Es in Eu. rewrite Ex in Ev.
  pose proof (words_of_range _ _ _ Hi) as Ru.
  pose proof (words_of_range _ _ _ Hj) as Rv.
  assert (Hcks : derived_cks buf = u).
  { unfold derived_cks, wxor.
    transitivity (Z.lxor (Z.lxor (Z.lxor (Z.lxor (foldr Z.lxor 0 (words_of buf)) u) v) v) u);
      [xor_solve |].
    rewrite <- Ev. xor_solve. }
  assert (Hckx : derived_ckx buf = v).
  { unfold derived_ckx. fold (derived_cks buf). rewrite Hcks.
    rewrite <- (to_u32_small v Rv). unfold wsum, to_u32 in *.
    rewrite Zminus_mod_idemp_l.
    replace (foldr Z.add 0 (words_of buf) - 2 * u)
      with (v + (foldr Z.add 0 (words_of buf) - u - v - u)) by lia.
    rewrite <- Zplus_mod_idemp_r.
    rewrite <- (Zminus_mod_idemp_l (foldr Z.add 0 (words_of buf) - u - v) u).
    rewrite <- Eu, Z.sub_diag, Z.mod_0_l, Z.add_0_r by lia.
    reflexivity. }
  assert (Hpos : 0 < Z.of_nat (length buf)).
  { apply lookup_lt_Some in Hi. destruct buf; [simpl in Hi |]; simpl; lia. }
  assert (Hr : exists r, Nislib.checksum_std buf (Z.of_nat (length buf)) = Ok r).
  { rewrite (checksum_std_whole buf Hpos Hmod), std_locate_spec by exact Hmod.
    eexists. reflexivity. }
  destruct Hr as [r Hr].
  destruct (checksum_std_cells buf r Hpos Hmod Hr) as (Ec & Ex' & Eret).
  rewrite Hcks in Ec, Eret. rewrite Hckx in Ex', Eret.
  assert (Mi : 4 * Z.of_nat i ∈ match_offsets 0 (words_of buf) u).
  { apply elem_of_match_offsets. exists i. split; [exact Hi | lia]. }
  assert (Mj : 4 * Z.of_nat j ∈ match_offsets 0 (words_of buf) v).
  { apply elem_of_match_offsets. exists j. split; [exact Hj | lia]. }
  destruct (last_match_offsets _ _ _ _ Mi) as (p & Lp & Pin).
  destruct (last_match_offsets _ _ _ _ Mj) as (q & Lq & Qin).
  destruct (match_offsets_last _ _ _ _ _ Lp Mi) as [_ Hpi].
  destruct (match_offsets_last _ _ _ _ _ Lq Mj) as [_ Hqj].
  exists r, p, q. split; [exact Hr |].
  split.
  { rewrite Eret.
    destruct (match_offsets 0 (words_of buf) v) as [| ? ?]; [inversion Mj |].
    reflexivity. }
  split; [congruence |]. split; [congruence |].
  split; [exact Hpi |]. split; [exact Hqj |].
  apply elem_of_match_offsets in Pin as (k & Hk & ->).
  apply elem_of_match_offsets in Qin as (l & Hl & ->).
  rewrite !Z.add_0_l.
  rewrite (words_of_lookup _ _ _ Hk), (words_of_lookup _ _ _ Hi),
          (words_of_lookup _ _ _ Hl), (words_of_lookup _ _ _ Hj).
  auto.
Qed.

Lemma checksum_std_complete_witness :
  16 = Z.of_nat (length valid_image) /\ 16 mod 4 = 0
  /\ std_valid (words_of valid_image) 0 1
  /\ exists r p q,
       Nislib.checksum_std valid_image 16 = Ok r
       /\ Nislib.std_ret r = 0
       /\ Nislib.o_cks r = Some p /\ Nislib.o_ckx r = Some q
       /\ 4 * Z.of_nat 0 <= p /\ 4 * Z.of_nat 1 <= q
       /\ reconst_32 valid_image p = reconst_32 valid_image (4 * Z.of_nat 0)
       /\ reconst_32 valid_image q = reconst_32 valid_image (4 * Z.of_nat 1).
Proof.
  assert (H0 : 16 = Z.of_nat (length valid_image)) by reflexivity.
  assert (H1 : 16 mod 4 = 0) by reflexivity.
  assert (H2 : std_valid (words_of valid_image) 0 1).
  { split; [discriminate |]. split; reflexivity. }
  split; [exact H0 |]. split; [exact H1 |]. split; [exact H2 |].
  exact (checksum_std_complete valid_image 16 0 1 H0 H1 H2).
Defined.

(** * checksum_fix: what a call leaves behind *)

Lemma fix_image_slots : NoDup [0; 1; 2; 3; 4]%nat.
Proof.
  repeat (apply NoDup_cons; split;
          [rewrite ?elem_of_cons, elem_of_nil; lia |]).
  apply NoDup_nil_2.
Qed.

Lemma checksum_fix_computes_witness :
  xor_others
    (with_corrections (with_corrections (words_of fix_image) 2 3 4 0 0 0) 2 3 4
       (Z.shiftr (fix_residue (with_corrections (words_of fix_image) 2 3 4 0 0 0) 6 5) 1)
       (Z.shiftr (fix_residue (with_corrections (words_of fix_image) 2 3 4 0 0 0) 6 5) 1)
       (fix_mang (with_corrections (words_of fix_image) 2 3 4 0 0 0) 6 5))
    6 5 = 5.
Proof.
  assert (H1 : length fix_image = (4 * 6)%nat) by reflexivity.
  assert (H2 : words_of fix_image !! 0%nat = Some 6) by reflexivity.
  assert (H3 : words_of fix_image !! 1%nat = Some 5) by reflexivity.
  assert (H4 : (2 < 6)%nat) by lia.
  assert (H5 : (3 < 6)%nat) by lia.
  assert (H6 : (4 < 6)%nat) by lia.
  exact (proj1 (proj2 (proj2
           (checksum_fix_computes fix_image 6 0 1 2 3 4 6 5
              H1 fix_image_slots H2 H3 H4 H5 H6)))).
Defined.

Lemma checksum_fix_no_solution_unreachable_witness :
  Nislib.checksum_fix fix_image 24 0 4 8 12 16
  = Ok (Nislib.mk_fix (Nislib.FixDone 0 0 1 false) fix_image_after
          [MsgDesired 6 5; MsgActual 4 4; MsgCorrections 2 1; MsgCouldNotFix])
  /\ Nislib.FixDone 0 0 1 false <> Nislib.FixNoSolution.
Proof.
  assert (H : Nislib.checksum_fix fix_image 24 0 4 8 12 16
              = Ok (Nislib.mk_fix (Nislib.FixDone 0 0 1 false) fix_image_after
                      [MsgDesired 6 5; MsgActual 4 4; MsgCorrections 2 1;
                       MsgCouldNotFix])) by (vm_compute; reflexivity).
  split; [exact H |].
  exact (checksum_fix_no_solution_unreachable fix_image 24 0 4 8 12 16 _ H).
Defined.

(** [checksum_fix] touches the three correction words and nothing else:
    whatever the offsets, a call that ends without a fault hands back a
    buffer of the same length in which every byte outside the words at
    [p_cs], [p_cx] and [p_mang] is as it was. *)
Theorem checksum_fix_frame
    (buf : list byte) (siz p_cks p_ckx p_cs p_cx p_mang : Z)
    (out : Nislib.fix_out) :
  Nislib.checksum_fix buf siz p_cks p_ckx p_cs p_cx p_mang = Ok out ->
  length (Nislib.fx_buf out) = length buf
  /\ forall o,
       (o < p_cs \/ p_cs + 4 <= o) ->
       (o < p_cx \/ p_cx + 4 <= o) ->
       (o < p_mang \/ p_mang + 4 <= o) ->
       rd8 (Nislib.fx_buf out) o = rd8 buf o.
Proof.
  unfold Nislib.checksum_fix.
  destruct (_ || _ || _ || _ || _ || _); [intros [= <-]; auto |].
  destruct (reconst_32 buf p_cks) as [cks |]; [| discriminate].
  destruct (reconst_32 buf p_ckx) as [ckx |]; [| discriminate].
  cbn [bind].
  destruct (write_32b 0 buf p_cs) as [buf1 |] eqn:W1; [| discriminate].
  cbn [bind].
  destruct (write_32b 0 buf1 p_cx) as [buf2 |] eqn:W2; [| discriminate].
  cbn [bind].
  destruct (write_32b 0 buf2 p_mang) as [buf3 |] eqn:W3; [| discriminate].
  cbn [bind].
  destruct (for_words _ _ _ _ _) as [[s0 x0] |]; [| discriminate].
  cbn [bind fst snd].
  destruct (Nislib.solve _ _ _) as [st |].
  2: { intros [= <-]. cbn [Nislib.fx_buf].
       rewrite (write_32b_length _ _ _ _ W3), (write_32b_length _ _ _ _ W2),
               (write_32b_length _ _ _ _ W1).
       split; [reflexivity |]. intros o H1 H2 H3.
       rewrite (rd8_write_32b_other _ _ _ _ _ W3 H3),
               (rd8_write_32b_other _ _ _ _ _ W2 H2),
               (rd8_write_32b_other _ _ _ _ _ W1 H1). reflexivity. }
  destruct (write_32b _ buf3 p_cs) as [buf4 |] eqn:W4; [| discriminate].
  cbn [bind].
  destruct (write_32b _ buf4 p_cx) as [buf5 |] eqn:W5; [| discriminate].
  cbn [bind].
  destruct (write_32b _ buf5 p_mang) as [buf6 |] eqn:W6; [| discriminate].
  cbn [bind].
  destruct (Nislib.checksum_std buf6 siz) as [r |]; [| discriminate]. cbn [bind].
  destruct (Nislib.load_cell (Nislib.o_cks r)) as [ocs |]; [| discriminate].
  destruct (Nislib.load_cell (Nislib.o_ckx r)) as [ocx |]; [| discriminate].
  cbn [bind].
  destruct (reconst_32 buf6 ocs) as [ds |]; [| discriminate].
  destruct (reconst_32 buf6 ocx) as [dx |]; [| discriminate].
  cbn [bind]. intros [= <-]. cbn [Nislib.fx_buf].
  rewrite (write_32b_length _ _ _ _ W6), (write_32b_length _ _ _ _ W5),
          (write_32b_length _ _ _ _ W4), (write_32b_length _ _ _ _ W3),
          (write_32b_length _ _ _ _ W2), (write_32b_length _ _ _ _ W1).
  split; [reflexivity |]. intros o H1 H2 H3.
  rewrite (rd8_write_32b_other _ _ _ _ _ W6 H3),
          (rd8_write_32b_other _ _ _ _ _ W5 H2),
          (rd8_write_32b_other _ _ _ _ _ W4 H1),
          (rd8_write_32b_other _ _ _ _ _ W3 H3),
          (rd8_write_32b_other _ _ _ _ _ W2 H2),
          (rd8_write_32b_other _ _ _ _ _ W1 H1). reflexivity.
Qed.

Lemma checksum_fix_frame_witness :
  length fix_image_after = length fix_image
  /\ rd8 fix_image_after 23 = rd8 fix_image 23.
Proof.
  assert (H : Nislib.checksum_fix fix_image 24 0 4 8 12 16
              = Ok (Nislib.mk_fix (Nislib.FixDone 0 0 1 false) fix_image_after
                      [MsgDesired 6 5; MsgActual 4 4; MsgCorrections 2 1;
                       MsgCouldNotFix])) by (vm_compute; reflexivity).
  destruct (checksum_fix_frame fix_image 24 0 4 8 12 16 _ H) as [Hl Hb].
  split; [exact Hl |]. apply Hb; lia.
Defined.

(** * checksum_fix: validity of the result, and running it again *)

Lemma be32_inj (b0 b1 b2 b3 c0 c1 c2 c3 : byte) :
  be32 b0 b1 b2 b3 = be32 c0 c1 c2 c3 ->
  b0 = c0 /\ b1 = c1 /\ b2 = c2 /\ b3 = c3.
Proof.
  intros E. repeat split.
  - rewrite <- (word_byte0 b0 b1 b2 b3), E. apply word_byte0.
  - rewrite <- (word_byte1 b0 b1 b2 b3), E. apply word_byte1.
  - rewrite <- (word_byte2 b0 b1 b2 b3), E. apply word_byte2.
  - rewrite <- (word_byte3 b0 b1 b2 b3), E. apply word_byte3.
Qed.

Lemma words_of_inj (n : nat) (l1 l2 : list byte) :
  length l1 = (4 * n)%nat -> length l2 = (4 * n)%nat ->
  words_of l1 = words_of l2 -> l1 = l2.
Proof.
  revert l1 l2. induction n as [| n IH]; intros l1 l2 H1 H2 E.
  - destruct l1, l2; try discriminate. reflexivity.
  - destruct l1 as [| b0 [| b1 [| b2 [| b3 r1]]]]; simpl in H1; try lia.
    destruct l2 as [| c0 [| c1 [| c2 [| c3 r2]]]]; simpl in H2; try lia.
    cbn [words_of] in E. injection E as Eh Et.
    apply be32_inj in Eh as (-> & -> & -> & ->).
    f_equal. f_equal. f_equal. f_equal. apply (IH r1 r2); [lia | lia | exact Et].
Qed.

(** Writing the three correction words over correction words written
    before. *)
Lemma with_corrections_absorb (l : list Z) (i j k : nat) (a b c a' b' c' : Z) :
  i <> j -> i <> k -> j <> k ->
  with_corrections (with_corrections l i j k a b c) i j k a' b' c'
  = with_corrections l i j k a' b' c'.
Proof.
  intros Hij Hik Hjk. unfold with_corrections.
  apply list_eq. intros x.
  rewrite !list_lookup_insert, !length_insert.
  repeat case_decide; try reflexivity; exfalso; lia.
Qed.

(** After a call that ends without a fault the two target words are as
    they were, and the image carries them as its checksums (the word at
    [p_cks] is the sum of all the others, the word at [p_ckx] their xor)
    exactly when the sum target left for [a + b] was even. *)
Theorem checksum_fix_valid_iff_even
    (buf : list byte) (n i_cks i_ckx i_cs i_cx i_mang : nat) (cks ckx : Z)
    (out : Nislib.fix_out) :
  length buf = (4 * n)%nat ->
  NoDup [i_cks; i_ckx; i_cs; i_cx; i_mang] ->
  words_of buf !! i_cks = Some cks ->
  words_of buf !! i_ckx = Some ckx ->
  (i_cs < n)%nat -> (i_cx < n)%nat -> (i_mang < n)%nat ->
  Nislib.checksum_fix buf (4 * Z.of_nat n) (4 * Z.of_nat i_cks)
    (4 * Z.of_nat i_ckx) (4 * Z.of_nat i_cs) (4 * Z.of_nat i_cx)
    (4 * Z.of_nat i_mang) = Ok out ->
  words_of (Nislib.fx_buf out) !! i_cks = Some cks
  /\ words_of (Nislib.fx_buf out) !! i_ckx = Some ckx
  /\ (std_valid (words_of (Nislib.fx_buf out)) i_cks i_ckx
      <-> Z.even (fix_residue
                    (with_corrections (words_of buf) i_cs i_cx i_mang 0 0 0)
                    cks ckx) = true).
Proof.
  intros Hlen Hslots Hcks Hckx Hcs Hcx Hmang Hout.
  destruct (fix_run_result buf n i_cks i_ckx i_cs i_cx i_mang cks ckx
              Hlen Hslots Hcks Hckx Hcs Hcx Hmang out Hout) as [_ Hws].
  destruct (fix_run_ws1_lookup buf n i_cks i_ckx i_cs i_cx i_mang cks ckx
              Hlen Hslots Hcks Hckx Hcs Hcx Hmang) as [K1 K2].
  destruct (fix_run_identity buf n i_cks i_ckx i_cs i_cx i_mang cks ckx
              Hlen Hslots Hcks Hckx Hcs Hcx Hmang) as (Ix & Is & _).
  destruct (fix_run_distinct i_cks i_ckx i_cs i_cx i_mang Hslots) as (D1 & _).
  destruct (fix_run_ranges buf n i_cks i_ckx i_cs i_cx i_mang cks ckx
              Hlen Hslots Hcks Hckx Hcs Hcx Hmang) as (Rc & _).
  rewrite Hws.
  set (ws0 := with_corrections (words_of buf) i_cs i_cx i_mang 0 0 0) in *.
  set (r := fix_residue ws0 cks ckx) in *.
  set (ws1 := with_corrections ws0 i_cs i_cx i_mang _ _ _) in *.
  split; [exact K1 |]. split; [exact K2 |].
  destruct (folds_without ws1 i_cks i_ckx cks ckx D1 K1 K2) as [Es Ex].
  unfold std_valid, wsum, wxor. rewrite Es, Ex, K1, K2.
  fold (sum_others ws1 cks ckx). fold (xor_others ws1 cks ckx).
  rewrite Is, Ix. split.
  - intros (_ & E & _). injection E as E.
    destruct (Z.even r); [reflexivity |]. exfalso.
    unfold to_u32 in E. destruct (Z.eq_dec cks 0) as [-> | Hnz].
    + discriminate E.
    + rewrite Z.mod_small in E by lia. lia.
  - intros ->. rewrite Z.sub_0_r, to_u32_small by exact Rc. auto.
Qed.

Lemma checksum_fix_valid_iff_even_witness :
  words_of fix_image_after !! 0%nat = Some 6
  /\ words_of fix_image_after !! 1%nat = Some 5
  /\ (std_valid (words_of fix_image_after) 0 1
      <-> Z.even (fix_residue (with_corrections (words_of fix_image) 2 3 4 0 0 0)
                    6 5) = true).
Proof.
  assert (H1 : length fix_image = (4 * 6)%nat) by reflexivity.
  assert (H2 : words_of fix_image !! 0%nat = Some 6) by reflexivity.
  assert (H3 : words_of fix_image !! 1%nat = Some 5) by reflexivity.
  assert (H4 : (2 < 6)%nat) by lia.
  assert (H5 : (3 < 6)%nat) by lia.
  assert (H6 : (4 < 6)%nat) by lia.
  assert (H : Nislib.checksum_fix fix_image (4 * Z.of_nat 6) (4 * Z.of_nat 0)
                (4 * Z.of_nat 1) (4 * Z.of_nat 2) (4 * Z.of_nat 3)
                (4 * Z.of_nat 4)
              = Ok (Nislib.mk_fix (Nislib.FixDone 0 0 1 false) fix_image_after
                      [MsgDesired 6 5; MsgActual 4 4; MsgCorrections 2 1;
                       MsgCouldNotFix])) by (vm_compute; reflexivity).
  exact (checksum_fix_valid_iff_even fix_image 6 0 1 2 3 4 6 5 _
           H1 fix_image_slots H2 H3 H4 H5 H6 H).
Defined.

(** Running [checksum_fix] again on its own result, with the same offsets,
    changes nothing: the second call ends the same way, with the same
    correction values and the same bytes. *)
Theorem checksum_fix_idempotent
    (buf : list byte) (n i_cks i_ckx i_cs i_cx i_mang : nat) (cks ckx : Z)
    (out : Nislib.fix_out) :
  length buf = (4 * n)%nat ->
  NoDup [i_cks; i_ckx; i_cs; i_cx; i_mang] ->
  words_of buf !! i_cks = Some cks ->
  words_of buf !! i_ckx = Some ckx ->
  (i_cs < n)%nat -> (i_cx < n)%nat -> (i_mang < n)%nat ->
  Nislib.checksum_fix buf (4 * Z.of_nat n) (4 * Z.of_nat i_cks)
    (4 * Z.of_nat i_ckx) (4 * Z.of_nat i_cs) (4 * Z.of_nat i_cx)
    (4 * Z.of_nat i_mang) = Ok out ->
  exists out',
    Nislib.checksum_fix (Nislib.fx_buf out) (4 * Z.of_nat n) (4 * Z.of_nat i_cks)
      (4 * Z.of_nat i_ckx) (4 * Z.of_nat i_cs) (4 * Z.of_nat i_cx)
      (4 * Z.of_nat i_mang) = Ok out'
    /\ Nislib.fx_buf out' = Nislib.fx_buf out
    /\ Nislib.fx_exit out' = Nislib.fx_exit out.
Proof.
  intros Hlen Hslots Hcks Hckx Hcs Hcx Hmang Hout.
  destruct (fix_run_distinct i_cks i_ckx i_cs i_cx i_mang Hslots)
    as (_ & _ & _ & _ & _ & _ & _ & D8 & D9 & D10).
  destruct (fix_run_ws1_lookup buf n i_cks i_ckx i_cs i_cx i_mang cks ckx
              Hlen Hslots Hcks Hckx Hcs Hcx Hmang) as [K1 K2].
  destruct (fix_run_unfold buf n i_cks i_ckx i_cs i_cx i_mang cks ckx
              Hlen Hslots Hcks Hckx Hcs Hcx Hmang)
    as (buf6 & msgs & L6 & Hws & Hcall).
  rewrite <- Hws in K1, K2.
  destruct (fix_run_unfold buf6 n i_cks i_ckx i_cs i_cx i_mang cks ckx
              L6 Hslots K1 K2 Hcs Hcx Hmang)
    as (buf6' & msgs' & L6' & Hws' & Hcall').
  assert (E0 : with_corrections (words_of buf6) i_cs i_cx i_mang 0 0 0
               = with_corrections (words_of buf) i_cs i_cx i_mang 0 0 0).
  { rewrite Hws. rewrite !with_corrections_absorb by assumption. reflexivity. }
  rewrite E0 in Hws', Hcall'.
  assert (Eb : buf6' = buf6).
  { apply (words_of_inj n); [exact L6' | exact L6 |]. congruence. }
  subst buf6'.
  rewrite Hcall in Hout.
  destruct (Nislib.checksum_std buf6 (4 * Z.of_nat n)) as [rr |];
    [| discriminate]. cbn [bind] in *.
  destruct (Nislib.load_cell (Nislib.o_cks rr)) as [ocs |]; [| discriminate].
  destruct (Nislib.load_cell (Nislib.o_ckx rr)) as [ocx |]; [| discriminate].
  cbn [bind] in *.
  destruct (reconst_32 buf6 ocs) as [ds |]; [| discriminate].
  destruct (reconst_32 buf6 ocx) as [dx |]; [| discriminate].
  cbn [bind] in *. injection Hout as <-. cbn [Nislib.fx_buf Nislib.fx_exit].
  rewrite Hcall'. eexists. split; [reflexivity |].
  cbn [Nislib.fx_buf Nislib.fx_exit]. auto.
Qed.

Lemma checksum_fix_idempotent_witness :
  exists out',
    Nislib.checksum_fix fix_image_after (4 * Z.of_nat 6) (4 * Z.of_nat 0)
      (4 * Z.of_nat 1) (4 * Z.of_nat 2) (4 * Z.of_nat 3) (4 * Z.of_nat 4)
    = Ok out'
    /\ Nislib.fx_buf out' = fix_image_after
    /\ Nislib.fx_exit out' = Nislib.FixDone 0 0 1 false.
Proof.
  assert (H1 : length fix_image = (4 * 6)%nat) by reflexivity.
  assert (H2 : words_of fix_image !! 0%nat = Some 6) by reflexivity.
  assert (H3 : words_of fix_image !! 1%nat = Some 5) by reflexivity.
  assert (H4 : (2 < 6)%nat) by lia.
  assert (H5 : (3 < 6)%nat) by lia.
  assert (H6 : (4 < 6)%nat) by lia.
  assert (H : Nislib.checksum_fix fix_image (4 * Z.of_nat 6) (4 * Z.of_nat 0)
                (4 * Z.of_nat 1) (4 * Z.of_nat 2) (4 * Z.of_nat 3)
                (4 * Z.of_nat 4)
              = Ok (Nislib.mk_fix (Nislib.FixDone 0 0 1 false) fix_image_after
                      [MsgDesired 6 5; MsgActual 4 4; MsgCorrections 2 1;
                       MsgCouldNotFix])) by (vm_compute; reflexivity).
  exact (checksum_fix_idempotent fix_image 6 0 1 2 3 4 6 5 _
           H1 fix_image_slots H2 H3 H4 H5 H6 H).
Defined.

(** * The bit loop of checksum_fix and its equation B *)

(** Bit [i] of [(uint32_t) (x | (bit << k))]. *)
Lemma testbit_set_bit (x : Z) (c : bool) (k i : Z) :
  0 <= k -> 0 <= i ->
  Z.testbit (to_u32 (Z.lor x (Z.shiftl (Nislib.int_of_bool c) k))) i
  = (i <? 32) && (Z.testbit x i || c && (i =? k)).
Proof.
  intros Hk Hi. unfold to_u32.
  rewrite Z.testbit_mod_pow2 by lia.
  rewrite Z.lor_spec, Z.shiftl_spec by lia.
  change (Nislib.int_of_bool c) with (Z.b2z c). rewrite testbit_b2z.
  replace (i - k =? 0) with (i =? k)
    by (destruct (Z.eqb_spec i k), (Z.eqb_spec (i - k) 0); lia || reflexivity).
  reflexivity.
Qed.

(** The bits the loop has been through satisfy equation B of the comment
    on lines 132-134, [a ^ b = dx], and [b] has none of the bits of [dx];
    the other bits of [a] and [b], and [ds], [dx], [mang], are untouched. *)
Lemma bit_loop_xor (n : nat) :
  forall st st' : Nislib.solver,
    (n <= 32)%nat ->
    (forall i, 0 <= i -> i < Z.of_nat n \/ 32 <= i ->
       Z.testbit (Nislib.sv_a st) i = false
       /\ Z.testbit (Nislib.sv_b st) i = false) ->
    Nislib.bit_loop n st = Some st' ->
    Nislib.sv_ds st' = Nislib.sv_ds st
    /\ Nislib.sv_dx st' = Nislib.sv_dx st
    /\ Nislib.sv_mang st' = Nislib.sv_mang st
    /\ forall i, 0 <= i ->
         (Z.of_nat n <= i ->
            Z.testbit (Nislib.sv_a st') i = Z.testbit (Nislib.sv_a st) i
            /\ Z.testbit (Nislib.sv_b st') i = Z.testbit (Nislib.sv_b st) i)
         /\ (i < Z.of_nat n ->
               xorb (Z.testbit (Nislib.sv_a st') i) (Z.testbit (Nislib.sv_b st') i)
               = Z.testbit (Nislib.sv_dx st) i
               /\ Z.testbit (Nislib.sv_b st') i && Z.testbit (Nislib.sv_dx st) i
                  = false).
Proof.
  induction n as [| n IH]; intros st st' Hn Hz Hrun.
  - simpl in Hrun. injection Hrun as <-.
    repeat split; try reflexivity; lia.
  - cbn [Nislib.bit_loop] in Hrun.
    destruct (Nislib.bit_body (Z.of_nat n) st) as [st1 |] eqn:Hbody;
      [| discriminate].
    assert (Hstep : exists an bn carry,
      st1 = Nislib.mk_solver
              (to_u32 (Z.lor (Nislib.sv_a st)
                             (Z.shiftl (Nislib.int_of_bool an) (Z.of_nat n))))
              (to_u32 (Z.lor (Nislib.sv_b st)
                             (Z.shiftl (Nislib.int_of_bool bn) (Z.of_nat n))))
              carry (Nislib.sv_ds st) (Nislib.sv_dx st) (Nislib.sv_mang st)
      /\ xorb an bn = Z.testbit (Nislib.sv_dx st) (Z.of_nat n)
      /\ bn && Z.testbit (Nislib.sv_dx st) (Z.of_nat n) = false).
    { unfold Nislib.bit_body in Hbody.
      rewrite !bit_set_testbit in Hbody by lia.
      destruct (Z.testbit (Nislib.sv_dx st) (Z.of_nat n));
        destruct (Nislib.sv_carry st);
        [ destruct (Z.testbit (Nislib.sv_ds st) (Z.of_nat n)); [discriminate |];
          exists true, false
        | exists true, false
        | exists true, true
        | exists false, false ];
        eexists; (split; [injection Hbody as <-; reflexivity |]);
        split; reflexivity. }
    destruct Hstep as (an & bn & carry & -> & Hx & Hb).
    match type of Hrun with Nislib.bit_loop _ ?s1 = _ =>
      destruct (IH s1 st') as (E1 & E2 & E3 & Hbits); [lia | | exact Hrun |]
    end.
    { cbn [Nislib.sv_a Nislib.sv_b]. intros i Hi Hc.
      rewrite !testbit_set_bit by lia.
      destruct (Hz i Hi ltac:(lia)) as [-> ->].
      destruct (Z.ltb_spec i 32); [| auto].
      destruct (Z.eqb_spec i (Z.of_nat n)); [lia |].
      rewrite !andb_false_r. auto. }
    cbn [Nislib.sv_a Nislib.sv_b Nislib.sv_ds Nislib.sv_dx Nislib.sv_mang] in *.
    split; [exact E1 |]. split; [exact E2 |]. split; [exact E3 |].
    intros i Hi. destruct (Hbits i Hi) as [Hhi Hlo]. split.
    + intros Hge. destruct Hhi as [-> ->]; [lia |].
      rewrite !testbit_set_bit by lia.
      destruct (Z.eqb_spec i (Z.of_nat n)); [lia |].
      rewrite !andb_false_r, !orb_false_r.
      destruct (Z.ltb_spec i 32); [auto |].
      destruct (Hz i Hi ltac:(lia)) as [-> ->]. auto.
    + intros Hlt. destruct (Z.eq_dec i (Z.of_nat n)) as [-> | Hne].
      * destruct Hhi as [-> ->]; [lia |].
        rewrite !testbit_set_bit by lia.
        destruct (Hz (Z.of_nat n) Hi ltac:(lia)) as [-> ->].
        rewrite Z.eqb_refl, !andb_true_r.
        destruct (Z.ltb_spec (Z.of_nat n) 32); [| lia].
        cbn [andb orb]. auto.
      * apply Hlo. lia.
Qed.

(** Whenever the bit loop runs to its end, from whatever targets, the
    values it leaves satisfy equation B of the comment on lines 132-134:
    [a ^ b] is the xor target.  [a] has every bit of the target and [b]
    none, and [mang] is as it was. *)
Theorem solve_keeps_xor (ds dx mang : Z) (st : Nislib.solver) :
  0 <= dx < 2 ^ 32 ->
  Nislib.solve ds dx mang = Some st ->
  Z.lxor (Nislib.sv_a st) (Nislib.sv_b st) = dx
  /\ Z.land (Nislib.sv_b st) dx = 0
  /\ Nislib.sv_mang st = mang.
Proof.
  intros Hdx Hrun. unfold Nislib.solve in Hrun.
  destruct (bit_loop_xor 32 (Nislib.mk_solver 0 0 false ds dx mang) st)
    as (_ & _ & Em & Hbits); [lia | | exact Hrun |].
  { cbn [Nislib.sv_a Nislib.sv_b]. intros i _ _. rewrite Z.bits_0. auto. }
  cbn [Nislib.sv_a Nislib.sv_b Nislib.sv_dx Nislib.sv_mang] in *.
  split; [| split; [| exact Em]].
  - apply Z.bits_inj'. intros i Hi. rewrite Z.lxor_spec.
    destruct (Hbits i Hi) as [Hhi Hlo].
    destruct (Z.lt_ge_cases i 32) as [Hlt | Hge].
    + apply Hlo. exact Hlt.
    + destruct (Hhi Hge) as [-> ->]. rewrite Z.bits_0.
      symmetry. apply u32_testbit_high; assumption.
  - apply Z.bits_inj'. intros i Hi. rewrite Z.land_spec, Z.bits_0.
    destruct (Hbits i Hi) as [Hhi Hlo].
    destruct (Z.lt_ge_cases i 32) as [Hlt | Hge].
    + apply Hlo. exact Hlt.
    + destruct (Hhi Hge) as [_ ->]. rewrite Z.bits_0. reflexivity.
Qed.

Lemma solve_keeps_xor_witness :
  (0 <= 5 < 2 ^ 32)
  /\ Nislib.solve 0 5 0 = Some (Nislib.mk_solver 7 2 true 0 5 0)
  /\ Z.lxor 7 2 = 5.
Proof.
  assert (H0 : 0 <= 5 < 2 ^ 32) by lia.
  assert (H1 : Nislib.solve 0 5 0 = Some (Nislib.mk_solver 7 2 true 0 5 0))
    by reflexivity.
  split; [exact H0 |]. split; [exact H1 |].
  exact (proj1 (solve_keeps_xor 0 5 0 _ H0 H1)).
Defined.

(** * find_ramf: where the search for RAMF ends, and what it reads *)

Lemma first_probe_hit (buf : list byte) (p h d : Z) (ds : list Z) :
  first_probe buf p h ds = Ok (Some d) ->
  d ∈ ds /\ reconst_32 buf (p + d) = Ok h.
Proof.
  induction ds as [| d0 ds IH]; cbn [first_probe]; [discriminate |].
  destruct (reconst_32 buf (p + d0)) as [w |] eqn:Ew; [| discriminate].
  cbn [bind]. destruct (Z.eqb_spec w h) as [-> | _].
  - intros [= <-]. split; [left | exact Ew].
  - intros H. destruct (IH H) as [Hin Hr]. split; [right; exact Hin | exact Hr].
Qed.

(** Every delta the sweep tries is a nonzero multiple of 4 from -8 up to,
    but not including, the search distance. *)
Lemma ramf_probes_elem (m d : Z) :
  d ∈ ramf_probes m -> d <> 0 /\ d mod 4 = 0 /\ -8 <= d < m.
Proof.
  unfold ramf_probes. rewrite elem_of_app. intros [H | H].
  - apply list_elem_of_In, filter_In in H as [Hin Hlt].
    apply Z.ltb_lt in Hlt. simpl in Hin.
    destruct Hin as [<- | [<- | [<- | [<- | [<- | []]]]]];
      simpl in Hlt; repeat split; try lia; reflexivity.
  - apply list_elem_of_In, in_map_iff in H as (k & <- & Hk).
    apply in_seq in Hk.
    assert (Hq : Z.of_nat k < (m - 13) / 4) by lia.
    assert (4 * ((m - 13) / 4) <= m - 13) by (apply Z.mul_div_le; lia).
    repeat split; try lia.
    replace (16 + 4 * Z.of_nat k) with ((4 + Z.of_nat k) * 4) by lia.
    apply Z.mod_mul. lia.
Qed.

(** What [find_ramf] leaves in [p_ramf] and [ramf_offset] once the search
    for the header is over: either the expected position, with the offset
    as it was, or a position a nonzero multiple of 4 away, from 8 bytes
    before to less than the search distance after, where the header word
    is; the offset is then that distance.  No other member changes. *)
Theorem find_ramf_header_outcome (rf rf' : Nisrom.romfile) :
  Z.of_nat (length (Nisrom.buf rf)) <= 2 ^ 32 ->
  Nisrom.find_ramf_header rf = Ok rf' ->
  let e := to_u32 (Nisrom.p_fid rf + Nisrom.sfid_size rf) in
  rf' = Nisrom.set_ramf rf (Nisrom.p_ramf rf') (Nisrom.ramf_offset rf')
  /\ ((Nisrom.p_ramf rf' = e /\ Nisrom.ramf_offset rf' = Nisrom.ramf_offset rf)
      \/ (exists d,
            d <> 0 /\ d mod 4 = 0
            /\ -8 <= d < Nisrom.pRAMF_maxdist (Nisrom.fidtype rf)
            /\ Nisrom.ramf_offset rf' = d
            /\ Nisrom.p_ramf rf' = e + d
            /\ reconst_32 (Nisrom.buf rf) (Nisrom.p_ramf rf')
               = Ok (Nisrom.RAMF_header (Nisrom.fidtype rf)))).
Proof.
  intros Hlen Hrun e. unfold Nisrom.find_ramf_header in Hrun.
  cbn [Nisrom.set_ramf Nisrom.buf Nisrom.p_ramf Nisrom.fidtype] in Hrun.
  fold e in Hrun.
  destruct (reconst_32 (Nisrom.buf rf) e) as [w |]; [| discriminate].
  cbn [bind] in Hrun.
  destruct (w =? Nisrom.RAMF_header (Nisrom.fidtype rf)).
  { injection Hrun as <-. cbn. auto. }
  pose proof (ramf_sweep_probes
                (Nisrom.set_ramf rf e (Nisrom.ramf_offset rf))) as Hs.
  cbn [Nisrom.set_ramf Nisrom.buf Nisrom.p_ramf Nisrom.fidtype] in Hs.
  rewrite Hs in Hrun. clear Hs.
  destruct (first_probe _ _ _ _) as [[d |] |] eqn:Ep; [| | discriminate];
    cbn [bind ramf_found] in Hrun; injection Hrun as <-.
  - apply first_probe_hit in Ep as [Hin Hr].
    apply ramf_probes_elem in Hin as (Hnz & Hmod & Hrange).
    pose proof (reconst_32_bounds _ _ _ Hr) as [B0 B1].
    cbn [Nisrom.set_ramf Nisrom.p_ramf Nisrom.ramf_offset Nisrom.buf
         Nisrom.fidtype Nisrom.siz Nisrom.p_fid Nisrom.sfid_size Nisrom.p_acs
         Nisrom.p_acx Nisrom.p_acstart Nisrom.p_acend Nisrom.cks_alt_good].
    rewrite (to_u32_small (e + d)) by lia.
    split; [reflexivity |]. right. exists d. auto 10.
  - cbn. auto.
Qed.

Lemma find_ramf_header_outcome_witness :
  Nisrom.p_ramf (Nisrom.set_ramf (ramf_rom ramf_image_drift) 28 8) = 20 + 8
  \/ Nisrom.p_ramf (Nisrom.set_ramf (ramf_rom ramf_image_drift) 28 8) = 20.
Proof.
  assert (H0 : Z.of_nat (length (Nisrom.buf (ramf_rom ramf_image_drift))) <= 2 ^ 32)
    by (vm_compute; discriminate).
  assert (H1 : Nisrom.find_ramf_header (ramf_rom ramf_image_drift)
               = Ok (Nisrom.set_ramf (ramf_rom ramf_image_drift) 28 8))
    by reflexivity.
  destruct (find_ramf_header_outcome (ramf_rom ramf_image_drift) _ H0 H1)
    as [_ [[Hp _] | (d & _ & _ & _ & Hd & Hp & _)]].
  - right. exact Hp.
  - left. rewrite <- Hd in Hp. exact Hp.
Defined.

(** A word that does not lie inside the buffer cannot be read. *)
Lemma reconst_32_outside (buf : list byte) (off : Z) :
  off < 0 \/ Z.of_nat (length buf) < off + 4 ->
  exists o, reconst_32 buf off = Fault (BadRead o)
            /\ (o < 0 \/ Z.of_nat (length buf) <= o).
Proof.
  intros H.
  assert (Hrd : forall k, rd8 buf k <> Fault UninitRead
                          /\ rd8 buf k <> Fault OutOfFuel
                          /\ forall o, rd8 buf k = Fault (BadRead o) ->
                               o = k /\ (k < 0 \/ Z.of_nat (length buf) <= k)).
  { intros k. unfold rd8. destruct (Z.ltb_spec k 0).
    - split; [discriminate |]. split; [discriminate |].
      intros o [= <-]. auto.
    - destruct (buf !! Z.to_nat k) eqn:E.
      + repeat split; discriminate.
      + apply lookup_ge_None in E.
        split; [discriminate |]. split; [discriminate |].
        intros o [= <-]. split; [reflexivity |]. right. lia. }
  destruct (reconst_32 buf off) as [w | f] eqn:E.
  { apply reconst_32_bounds in E. lia. }
  unfold reconst_32 in E.
  assert (Hf : exists k, rd8 buf k = Fault f).
  { destruct (rd8 buf off) as [b0 |] eqn:E0; [| injection E as <-; eauto].
    destruct (rd8 buf (off + 1)) as [b1 |] eqn:E1; [| injection E as <-; eauto].
    destruct (rd8 buf (off + 2)) as [b2 |] eqn:E2; [| injection E as <-; eauto].
    destruct (rd8 buf (off + 3)) as [b3 |] eqn:E3; [| injection E as <-; eauto].
    discriminate. }
  destruct Hf as [k Hk]. destruct (Hrd k) as (N1 & N2 & Hb).
  destruct f as [o | o | |]; try contradiction.
  - exists o. split; [reflexivity |]. destruct (Hb o Hk) as [-> ?]. assumption.
  - exfalso. unfold rd8 in Hk. destruct (k <? 0); [discriminate |].
    destruct (buf !! Z.to_nat k); discriminate.
Qed.

Lemma first_probe_outside (buf : list byte) (p h d : Z) (l1 l2 : list Z) :
  (forall d', d' ∈ l1 -> exists w, reconst_32 buf (p + d') = Ok w /\ w <> h) ->
  p + d < 0 \/ Z.of_nat (length buf) < p + d + 4 ->
  exists o, first_probe buf p h (l1 ++ d :: l2) = Fault (BadRead o)
            /\ (o < 0 \/ Z.of_nat (length buf) <= o).
Proof.
  intros Hmiss Hout. induction l1 as [| d0 l1 IH]; cbn [app first_probe].
  - destruct (reconst_32_outside buf (p + d) Hout) as (o & -> & Ho).
    exists o. auto.
  - destruct (Hmiss d0) as (w & -> & Hne); [left |]. cbn [bind].
    destruct (Z.eqb_spec w h); [contradiction |].
    apply IH. intros d' Hd'. apply Hmiss. right. exact Hd'.
Qed.

(** The probes of the sweep are not checked against the bounds of the
    image.  When the header is not at the expected position and the probes
    before some delta [d] all miss, the probe at [d] is made even if it
    lies outside the buffer: [find_ramf] reads out of bounds. *)
Theorem find_ramf_header_overread (rf : Nisrom.romfile) (w0 d : Z)
    (l1 l2 : list Z) :
  let e := to_u32 (Nisrom.p_fid rf + Nisrom.sfid_size rf) in
  let h := Nisrom.RAMF_header (Nisrom.fidtype rf) in
  reconst_32 (Nisrom.buf rf) e = Ok w0 ->
  w0 <> h ->
  ramf_probes (Nisrom.pRAMF_maxdist (Nisrom.fidtype rf)) = l1 ++ d :: l2 ->
  (forall d', d' ∈ l1 ->
     exists w, reconst_32 (Nisrom.buf rf) (e + d') = Ok w /\ w <> h) ->
  e + d < 0 \/ Z.of_nat (length (Nisrom.buf rf)) < e + d + 4 ->
  exists o, Nisrom.find_ramf_header rf = Fault (BadRead o)
            /\ (o < 0 \/ Z.of_nat (length (Nisrom.buf rf)) <= o).
Proof.
  intros e h Hw Hne Hsplit Hmiss Hout. subst e h.
  unfold Nisrom.find_ramf_header.
  cbn [Nisrom.set_ramf Nisrom.buf Nisrom.p_ramf Nisrom.fidtype].
  rewrite Hw. cbn [bind].
  destruct (Z.eqb_spec w0 (Nisrom.RAMF_header (Nisrom.fidtype rf)));
    [contradiction |].
  pose proof (ramf_sweep_probes
                (Nisrom.set_ramf rf
                   (to_u32 (Nisrom.p_fid rf + Nisrom.sfid_size rf))
                   (Nisrom.ramf_offset rf))) as Hs.
  cbn [Nisrom.set_ramf Nisrom.buf Nisrom.p_ramf Nisrom.fidtype] in Hs.
  rewrite Hs, Hsplit. clear Hs.
  destruct (first_probe_outside (Nisrom.buf rf) _ _ d l1 l2 Hmiss Hout)
    as (o & -> & Ho).
  exists o. auto.
Qed.

Lemma find_ramf_header_overread_witness :
  exists o, Nisrom.find_ramf_header (ramf_rom (replicate 24 Byte.x00))
            = Fault (BadRead o)
            /\ (o < 0 \/ 24 <= o).
Proof.
  refine (find_ramf_header_overread (ramf_rom (replicate 24 Byte.x00)) 0 4 []
            [-4; 8; -8; 12; 16; 20; 24; 28] _ _ _ _ _).
  - reflexivity.
  - discriminate.
  - reflexivity.
  - intros d' H. inversion H.
  - right. vm_compute. reflexivity.
Defined.

(** * find_ramf: the alt-checksum bounds after the check *)

(** [validate_altcks] changes nothing but [p_acs], [p_acx] and
    [cks_alt_good]; it returns 0 when it sets the flag and -1, with the
    record as it was, otherwise. *)
Lemma validate_altcks_frame (rf rf' : Nisrom.romfile) (ret : Z) :
  Nisrom.validate_altcks rf = Ok (ret, rf') ->
  (ret = -1 /\ rf' = rf)
  \/ (ret = 0
      /\ rf' = Nisrom.set_altcks rf (Nisrom.p_acs rf') (Nisrom.p_acx rf') true).
Proof.
  unfold Nisrom.validate_altcks.
  destruct (negb _); [intros [= <- <-]; auto |].
  destruct (_ || _ || _); [intros [= <- <-]; auto |].
  destruct (sum32 _ _ _) as [cs |]; [| discriminate]. cbn [bind].
  destruct (u32memstr _ 0 _ (fst cs)) as [pacs |]; [| discriminate]. cbn [bind].
  destruct (u32memstr _ 0 _ (snd cs)) as [pacx |]; [| discriminate]. cbn [bind].
  destruct pacs as [ps |], pacx as [px |]; intros [= <- <-]; auto.
Qed.

(** After the check of lines 534-546 on a ROM type with an alt checksum,
    the bounds of the block are either both the invalid marker or satisfy
    [p_acstart < p_acend < siz]; in the first case no validation was tried.
    The image, its size and the RAMF position are untouched, and a flag
    [cks_alt_good] that was set stays set. *)
Theorem find_ramf_altcks_bounds (rf rf' : Nisrom.romfile) :
  Nisrom.has_ALTCKS (Nisrom.fidtype rf) = true ->
  Nisrom.find_ramf_altcks rf = Ok rf' ->
  Nisrom.buf rf' = Nisrom.buf rf
  /\ Nisrom.siz rf' = Nisrom.siz rf
  /\ Nisrom.p_ramf rf' = Nisrom.p_ramf rf
  /\ (Nisrom.cks_alt_good rf = true -> Nisrom.cks_alt_good rf' = true)
  /\ ((Nisrom.p_acstart rf' = UINT32_MAX /\ Nisrom.p_acend rf' = UINT32_MAX
       /\ Nisrom.p_acs rf' = Nisrom.p_acs rf
       /\ Nisrom.p_acx rf' = Nisrom.p_acx rf
       /\ Nisrom.cks_alt_good rf' = Nisrom.cks_alt_good rf)
      \/ (Nisrom.p_acstart rf' = Nisrom.p_acstart rf
          /\ Nisrom.p_acend rf' = Nisrom.p_acend rf
          /\ Nisrom.p_acstart rf' < Nisrom.p_acend rf' < Nisrom.siz rf')).
Proof.
  intros Hft Hrun. unfold Nisrom.find_ramf_altcks in Hrun. rewrite Hft in Hrun.
  destruct (Z.leb_spec (Nisrom.siz rf) (Nisrom.p_acstart rf)) as [H1 | H1];
    destruct (Z.leb_spec (Nisrom.siz rf) (Nisrom.p_acend rf)) as [H2 | H2];
    destruct (Z.leb_spec (Nisrom.p_acend rf) (Nisrom.p_acstart rf)) as [H3 | H3];
    cbn [orb] in Hrun;
    try (cbn [Nisrom.set_acbounds Nisrom.p_acstart] in Hrun;
         rewrite Z.eqb_refl in Hrun; cbn [negb] in Hrun;
         injection Hrun as <-; cbn; auto 10).
  destruct (negb (Nisrom.p_acstart rf =? UINT32_MAX)).
  - destruct (Nisrom.validate_altcks rf) as [[ret rf1] |] eqn:Ev;
      [| discriminate]. cbn [bind snd] in Hrun. injection Hrun as <-.
    destruct (validate_altcks_frame rf rf1 ret Ev) as [[_ ->] | [_ ->]].
    + repeat split; auto; right; repeat split; lia.
    + cbn. repeat split; auto; right; repeat split; lia.
  - injection Hrun as <-. repeat split; auto; right; repeat split; lia.
Qed.

Lemma find_ramf_altcks_bounds_witness :
  Nisrom.has_ALTCKS (Nisrom.fidtype altcks_rom) = true
  /\ Nisrom.find_ramf_altcks altcks_rom
     = Ok (Nisrom.set_altcks altcks_rom 0 0 true)
  /\ Nisrom.siz (Nisrom.set_altcks altcks_rom 0 0 true) = Nisrom.siz altcks_rom.
Proof.
  assert (H0 : Nisrom.has_ALTCKS (Nisrom.fidtype altcks_rom) = true)
    by reflexivity.
  assert (H1 : Nisrom.find_ramf_altcks altcks_rom
               = Ok (Nisrom.set_altcks altcks_rom 0 0 true)) by reflexivity.
  split; [exact H0 |]. split; [exact H1 |].
  exact (proj1 (proj2 (find_ramf_altcks_bounds altcks_rom _ H0 H1))).
Defined.

(** * nisrom.c: the directory part of a file name *)

Lemma char_at_lookup (s : list byte) (i : nat) (c : byte) :
  s !! i = Some c -> Nisrom.char_at s i = c.
Proof. intros H. unfold Nisrom.char_at. rewrite H. reflexivity. Qed.

Lemma char_at_dirsep (s : list byte) (i : nat) :
  Nisrom.is_dirsep (Nisrom.char_at s i) = true ->
  exists c, s !! i = Some c /\ Nisrom.is_dirsep c = true.
Proof.
  unfold Nisrom.char_at. destruct (s !! i) as [c |]; simpl.
  - intros H. exists c. auto.
  - discriminate.
Qed.

(** The scan from index [p], when no separator lies after [p]. *)
Lemma scan_back_spec (filename : list byte) (p : nat) :
  (forall i c, (p < i)%nat -> filename !! i = Some c ->
     Nisrom.is_dirsep c = false) ->
  (forall i c, (Nisrom.scan_back filename p <= i)%nat -> (1 <= i)%nat ->
     filename !! i = Some c -> Nisrom.is_dirsep c = false)
  /\ (Nisrom.scan_back filename p = 0%nat
      \/ exists c,
           (2 <= Nisrom.scan_back filename p <= length filename)%nat
           /\ (Nisrom.scan_back filename p <= p + 1)%nat
           /\ filename !! (Nisrom.scan_back filename p - 1)%nat = Some c
           /\ Nisrom.is_dirsep c = true).
Proof.
  induction p as [| k IH]; intros Hafter; cbn [Nisrom.scan_back].
  - split; [| left; reflexivity].
    intros i c _ Hi. apply Hafter. lia.
  - destruct (Nisrom.is_dirsep (Nisrom.char_at filename (Datatypes.S k))) eqn:E.
    + apply char_at_dirsep in E as (c & Hc & Hs). split.
      * intros i c' Hi _. apply Hafter. lia.
      * right. exists c. pose proof (lookup_lt_Some _ _ _ Hc).
        replace (Datatypes.S (Datatypes.S k) - 1)%nat with (Datatypes.S k) by lia.
        repeat split; try lia; assumption.
    + destruct IH as [Hno Hr].
      { intros i c Hi Hc. destruct (Nat.eq_dec i (Datatypes.S k)) as [-> | Hne].
        - rewrite (char_at_lookup _ _ _ Hc) in E. exact E.
        - apply (Hafter i); [lia | exact Hc]. }
      split; [exact Hno |].
      destruct Hr as [-> | (c & H1 & H2 & H3 & H4)]; [left; reflexivity |].
      right. exists c. repeat split; try lia; assumption.
Qed.

(** [get_path_len] is one past the last directory separator, except that
    the first character of the name is never looked at: a separator there
    does not count.  So the result is 0, or at least 2 with a separator
    just before it, and in both cases no separator follows, the first
    character apart. *)
Theorem get_path_len_spec (filename : list byte) :
  let r := Nisrom.get_path_len filename in
  (r <= length filename)%nat
  /\ (forall i c, (r <= i)%nat -> (1 <= i)%nat -> filename !! i = Some c ->
        Nisrom.is_dirsep c = false)
  /\ (r = 0%nat
      \/ exists c, (2 <= r)%nat /\ filename !! (r - 1)%nat = Some c
                   /\ Nisrom.is_dirsep c = true).
Proof.
  cbv zeta. unfold Nisrom.get_path_len.
  destruct (scan_back_spec filename (length filename)) as [Hno Hr].
  { intros i c Hi Hc. apply lookup_lt_Some in Hc. lia. }
  split; [| split; [exact Hno |]].
  - destruct Hr as [-> | (c & H1 & _)]; lia.
  - destruct Hr as [E | (c & H1 & _ & H3 & H4)]; [left; exact E |].
    right. exists c. repeat split; try lia; assumption.
Qed.

Lemma get_path_len_dir (dir name : list byte) (c : byte) :
  dir <> [] ->
  Nisrom.is_dirsep c = true ->
  Forall (fun x => Nisrom.is_dirsep x = false) name ->
  Nisrom.get_path_len (dir ++ c :: name) = Datatypes.S (length dir).
Proof.
  intros Hdir Hc Hname. unfold Nisrom.get_path_len.
  destruct (scan_back_spec (dir ++ c :: name) (length (dir ++ c :: name)))
    as [Hno Hr].
  { intros i x Hi Hx. apply lookup_lt_Some in Hx. lia. }
  assert (Hlen : (1 <= length dir)%nat) by (destruct dir; [congruence | simpl; lia]).
  assert (Hmid : (dir ++ c :: name) !! length dir = Some c)
    by (apply list_lookup_middle; reflexivity).
  set (r := Nisrom.scan_back _ _) in *.
  assert (Hgt : (length dir < r)%nat).
  { destruct (Nat.lt_ge_cases (length dir) r) as [? | Hle]; [assumption |].
    rewrite (Hno (length dir) c Hle Hlen Hmid) in Hc. discriminate. }
  destruct Hr as [E | (x & H1 & _ & H3 & H4)]; [lia |].
  destruct (Nat.eq_dec (r - 1)%nat (length dir)) as [E | Hne]; [lia |].
  exfalso.
  rewrite lookup_app_r in H3 by lia.
  destruct (r - 1 - length dir)%nat as [| j] eqn:Ej; [lia |].
  simpl in H3. rewrite Forall_lookup in Hname.
  rewrite (Hname j x H3) in H4. discriminate.
Qed.

(** For a program path [dir/name], with a directory part that is not
    empty, the path built is [dir/csv_filename], appended to what [dest]
    held. *)
Theorem generate_csv_path_dir (dest csv_filename dir name : list byte)
    (c : byte) :
  dir <> [] ->
  Nisrom.is_dirsep c = true ->
  Forall (fun x => Nisrom.is_dirsep x = false) name ->
  Nisrom.generate_csv_path dest csv_filename (dir ++ c :: name)
  = dest ++ dir ++ c :: csv_filename.
Proof.
  intros Hdir Hc Hname. unfold Nisrom.generate_csv_path.
  rewrite (get_path_len_dir dir name c Hdir Hc Hname).
  replace (dir ++ c :: name) with ((dir ++ [c]) ++ name)
    by (rewrite <- app_assoc; reflexivity).
  rewrite take_app_length' by (rewrite length_app; simpl; lia).
  rewrite <- !app_assoc. reflexivity.
Qed.

Lemma generate_csv_path_dir_witness :
  Nisrom.generate_csv_path []
    (String.list_byte_of_string "file.csv")
    (String.list_byte_of_string "~/d/stuff/nisrom")
  = String.list_byte_of_string "~/d/stuff/file.csv".
Proof.
  apply (generate_csv_path_dir []
           (String.list_byte_of_string "file.csv")
           (String.list_byte_of_string "~/d/stuff")
           (String.list_byte_of_string "nisrom") Byte.x2f).
  - discriminate.
  - reflexivity.
  - repeat constructor.
Defined.

(** A program path with no separator after its first character, such as
    [nisrom] or [/nisrom], has no directory part for [get_path_len]: the
    path built is [csv_filename] alone, relative to the current
    directory. *)
Theorem generate_csv_path_bare (dest csv_filename argv0 : list byte) :
  (forall i c, (1 <= i)%nat -> argv0 !! i = Some c ->
     Nisrom.is_dirsep c = false) ->
  Nisrom.generate_csv_path dest csv_filename argv0 = dest ++ csv_filename.
Proof.
  intros Hno. unfold Nisrom.generate_csv_path, Nisrom.get_path_len.
  destruct (scan_back_spec argv0 (length argv0)) as [_ Hr].
  { intros i c Hi Hc. apply lookup_lt_Some in Hc. lia. }
  destruct Hr as [-> | (c & H1 & _ & H3 & H4)].
  - rewrite take_0, app_nil_r. reflexivity.
  - apply Hno in H3; [congruence | lia].
Qed.

Lemma generate_csv_path_bare_witness :
  Nisrom.generate_csv_path []
    (String.list_byte_of_string "file.csv")
    (String.list_byte_of_string "/nisrom")
  = String.list_byte_of_string "file.csv".
Proof.
  apply (generate_csv_path_bare []
           (String.list_byte_of_string "file.csv")
           (String.list_byte_of_string "/nisrom")).
  intros i c Hi Hc.
  do 7 (destruct i as [| i];
        [first [exfalso; lia | injection Hc as <-; reflexivity] |]).
  discriminate.
Defined.

(** * nisrom.c: the digest as a string *)

Lemma rd8_middle (pre suf : list byte) (b : byte) :
  rd8 (pre ++ b :: suf) (Z.of_nat (length pre)) = Ok b.
Proof.
  apply rd8_lookup. split; [lia |].
  rewrite Nat2Z.id. apply list_lookup_middle. reflexivity.
Qed.

Lemma wr8_middle (pre suf : list byte) (b c : byte) :
  wr8 (pre ++ b :: suf) (Z.of_nat (length pre)) c = Ok (pre ++ c :: suf).
Proof.
  rewrite wr8_in_bounds by (rewrite length_app; simpl; lia).
  rewrite Nat2Z.id.
  replace (length pre) with (length pre + 0)%nat at 1 by lia.
  rewrite insert_app_r. reflexivity.
Qed.

Lemma rd8_hex (v : Z) :
  0 <= v < 16 -> rd8 Nisrom.hex v = Ok (hex_digit v).
Proof.
  intros Hv. unfold hex_digit. apply rd8_lookup. split; [lia |].
  assert (Z.to_nat v < 16)%nat as Hn by lia.
  destruct (Z.to_nat v) as [| [| [| [| [| [| [| [| [| [| [| [| [| [| [| [| k]]]]]]]]]]]]]]]];
    try reflexivity; lia.
Qed.

Lemma length_hex_string (l : list byte) :
  length (hex_string l) = (2 * length l)%nat.
Proof. induction l as [| d r IH]; simpl; [reflexivity | rewrite IH; lia]. Qed.

Lemma hex_string_app (l1 l2 : list byte) :
  hex_string (l1 ++ l2) = hex_string l1 ++ hex_string l2.
Proof. induction l1 as [| d r IH]; simpl; [reflexivity | rewrite IH; reflexivity]. Qed.

(** The loop, with [pre] rendered and [rest] to go. *)
Lemma render_md5_loop_spec (rest : list byte) :
  forall (pre todo tail : list byte) (fuel : nat),
    length todo = (2 * length rest)%nat ->
    (length rest <= fuel)%nat ->
    Nisrom.render_md5_loop fuel (Z.of_nat (length (pre ++ rest))) (pre ++ rest)
      (hex_string pre ++ todo ++ tail) (Z.of_nat (length pre))
    = Ok (hex_string (pre ++ rest) ++ tail, Z.of_nat (length (pre ++ rest))).
Proof.
  induction rest as [| d rest IH]; intros pre todo tail fuel Htodo Hfuel.
  - destruct todo; [| discriminate]. rewrite app_nil_r.
    destruct fuel; simpl; rewrite Z.ltb_irrefl; reflexivity.
  - destruct fuel as [| fuel]; [simpl in Hfuel; lia |].
    destruct todo as [| t0 [| t1 todo]]; try (simpl in Htodo; lia).
    cbn [Nisrom.render_md5_loop].
    destruct (Z.ltb_spec (Z.of_nat (length pre))
                (Z.of_nat (length (pre ++ d :: rest)))) as [_ | Hge];
      [| rewrite length_app in Hge; simpl in Hge; lia].
    rewrite rd8_middle. cbn [bind].
    pose proof (byte_unsigned_range d) as Rd.
    rewrite Z.shiftr_div_pow2 by lia. change (2 ^ 4) with 16.
    rewrite rd8_hex by (split; [apply Z.div_pos; lia | apply Z.div_lt_upper_bound; lia]).
    cbn [bind].
    replace (Z.of_nat (length pre) + Z.of_nat (length pre))
      with (Z.of_nat (length (hex_string pre)))
      by (rewrite length_hex_string; lia).
    cbn [app]. rewrite wr8_middle. cbn [bind].
    change 15 with (Z.ones 4). rewrite Z.land_ones by lia. change (2 ^ 4) with 16.
    rewrite rd8_hex by (apply Z.mod_pos_bound; lia).
    cbn [bind].
    replace (hex_string pre ++ hex_digit (byte.unsigned d / 16) :: t1 :: todo ++ tail)
      with ((hex_string pre ++ [hex_digit (byte.unsigned d / 16)])
            ++ t1 :: todo ++ tail)
      by (rewrite <- app_assoc; reflexivity).
    replace (Z.of_nat (length (hex_string pre)) + 1)
      with (Z.of_nat (length (hex_string pre ++ [hex_digit (byte.unsigned d / 16)])))
      by (rewrite length_app; simpl; lia).
    rewrite wr8_middle. cbn [bind].
    replace (pre ++ d :: rest) with ((pre ++ [d]) ++ rest)
      by (rewrite <- app_assoc; reflexivity).
    replace (Z.of_nat (length pre) + 1) with (Z.of_nat (length (pre ++ [d])))
      by (rewrite length_app; simpl; lia).
    replace ((hex_string pre ++ [hex_digit (byte.unsigned d / 16)])
             ++ hex_digit (byte.unsigned d mod 16) :: todo ++ tail)
      with (hex_string (pre ++ [d]) ++ todo ++ tail)
      by (rewrite hex_string_app, <- !app_assoc; reflexivity).
    apply IH; simpl in *; lia.
Qed.

Lemma render_md5_whole (digest body tail : list byte) :
  length body = (2 * length digest + 1)%nat ->
  Nisrom.render_md5 (Z.of_nat (length digest)) digest (body ++ tail)
  = Ok (hex_string digest ++ Byte.x00 :: tail).
Proof.
  intros Hbody. unfold Nisrom.render_md5.
  assert (Hsplit : exists todo t, body = todo ++ [t]).
  { destruct body as [| b body] using rev_ind; [simpl in Hbody; lia | eauto]. }
  destruct Hsplit as (todo & t & ->).
  rewrite length_app in Hbody. simpl in Hbody.
  pose proof (render_md5_loop_spec digest [] todo (t :: tail)
                (Z.to_nat (Z.of_nat (length digest)))) as H.
  cbn [app hex_string length] in H. change (Z.of_nat 0) with 0 in H.
  rewrite <- app_assoc. cbn [app].
  rewrite H by lia. cbn [bind fst snd].
  replace (Z.of_nat (length digest) + Z.of_nat (length digest))
    with (Z.of_nat (length (hex_string digest)))
    by (rewrite length_hex_string; lia).
  apply wr8_middle.
Qed.

Lemma hex_digit_inj (v w : Z) :
  0 <= v < 16 -> 0 <= w < 16 -> hex_digit v = hex_digit w -> v = w.
Proof.
  intros Hv Hw. unfold hex_digit.
  assert (Z.to_nat v < 16)%nat as Hn by lia.
  assert (Z.to_nat w < 16)%nat as Hm by lia.
  intros E. apply Z2Nat.inj; try lia. revert E.
  destruct (Z.to_nat v) as [| [| [| [| [| [| [| [| [| [| [| [| [| [| [| [| k]]]]]]]]]]]]]]]];
    try lia;
    destruct (Z.to_nat w) as [| [| [| [| [| [| [| [| [| [| [| [| [| [| [| [| j]]]]]]]]]]]]]]]];
    try lia; intros E; try reflexivity; discriminate E.
Qed.

Lemma hex_digit_alphabet (v : Z) :
  0 <= v < 16 -> hex_digit v ∈ take 16 Nisrom.hex.
Proof.
  intros Hv. unfold hex_digit.
  assert (Z.to_nat v < 16)%nat as Hn by lia.
  apply (list_elem_of_lookup_2 _ (Z.to_nat v)).
  rewrite lookup_take_lt by exact Hn.
  destruct (Z.to_nat v) as [| [| [| [| [| [| [| [| [| [| [| [| [| [| [| [| k]]]]]]]]]]]]]]]];
    try reflexivity; lia.
Qed.

Lemma hex_string_alphabet (l : list byte) :
  Forall (fun c => c ∈ take 16 Nisrom.hex) (hex_string l).
Proof.
  induction l as [| d r IH]; cbn [hex_string]; [constructor |].
  pose proof (byte_unsigned_range d) as Rd.
  constructor; [| constructor; [| exact IH]]; apply hex_digit_alphabet.
  - split; [apply Z.div_pos; lia | apply Z.div_lt_upper_bound; lia].
  - apply Z.mod_pos_bound. lia.
Qed.

Lemma hex_string_inj (l1 l2 : list byte) :
  hex_string l1 = hex_string l2 -> l1 = l2.
Proof.
  revert l2. induction l1 as [| a r1 IH]; intros [| b r2] E;
    try discriminate; [reflexivity |].
  cbn [hex_string] in E. injection E as Eh El Er.
  pose proof (byte_unsigned_range a) as Ra.
  pose proof (byte_unsigned_range b) as Rb.
  apply hex_digit_inj in Eh;
    [| split; [apply Z.div_pos; lia | apply Z.div_lt_upper_bound; lia] ..].
  apply hex_digit_inj in El; [| apply Z.mod_pos_bound; lia ..].
  f_equal; [| apply IH; exact Er].
  apply byte.unsigned_inj.
  rewrite (Z.div_mod (byte.unsigned a) 16), (Z.div_mod (byte.unsigned b) 16) by lia.
  rewrite Eh, El. reflexivity.
Qed.

(** [render_md5] over a digest and an output buffer with room for two
    characters per digest byte and the terminator: the buffer then holds,
    for each byte in order, its high and its low hexadecimal digit, all from
    [0123456789abcdef], followed by a NUL; what lies after is untouched. *)
Theorem render_md5_spec (digest body tail : list byte) :
  length body = (2 * length digest + 1)%nat ->
  Nisrom.render_md5 (Z.of_nat (length digest)) digest (body ++ tail)
  = Ok (hex_string digest ++ Byte.x00 :: tail)
  /\ length (hex_string digest) = (2 * length digest)%nat
  /\ Forall (fun c => c ∈ take 16 Nisrom.hex) (hex_string digest).
Proof.
  intros Hbody. split; [apply render_md5_whole; exact Hbody |].
  split; [apply length_hex_string | apply hex_string_alphabet].
Qed.

Lemma render_md5_spec_witness :
  Nisrom.render_md5 2 [Byte.xde; Byte.x0a] (replicate 5 Byte.xff ++ [Byte.xff])
  = Ok (String.list_byte_of_string "de0a" ++ [Byte.x00; Byte.xff]).
Proof.
  exact (proj1 (render_md5_spec [Byte.xde; Byte.x0a] (replicate 5 Byte.xff)
                  [Byte.xff] eq_refl)).
Defined.

(** Digests that differ are rendered differently: from the same output
    buffer, two digests of the same length that give the same result are
    equal. *)
Theorem render_md5_injective (d1 d2 out : list byte) :
  length d1 = length d2 ->
  (2 * length d1 + 1 <= length out)%nat ->
  Nisrom.render_md5 (Z.of_nat (length d1)) d1 out
  = Nisrom.render_md5 (Z.of_nat (length d2)) d2 out ->
  d1 = d2.
Proof.
  intros Hlen Hout E.
  rewrite <- (take_drop (2 * length d1 + 1) out) in E.
  rewrite (render_md5_whole d1) in E by (rewrite length_take; lia).
  rewrite (render_md5_whole d2) in E by (rewrite length_take; lia).
  injection E as E. apply app_inj_1 in E as [E _].
  - apply hex_string_inj. exact E.
  - rewrite !length_hex_string. lia.
Qed.

Lemma render_md5_injective_witness :
  [Byte.xde; Byte.x0a] = [Byte.xde; Byte.x0a].
Proof.
  refine (render_md5_injective [Byte.xde; Byte.x0a] [Byte.xde; Byte.x0a]
            (replicate 6 Byte.xff) _ _ _).
  - reflexivity.
  - simpl. lia.
  - reflexivity.
Defined.

(** * nisrom.c: the ECUID in a file name *)

Lemma toupper_alnum (c : byte) :
  Nisrom.isalnum c = true -> is_upper_alnum (Nisrom.toupper c).
Proof.
  unfold Nisrom.isalnum, Nisrom.toupper, is_upper_alnum. cbv zeta.
  pose proof (byte_unsigned_range c) as Rc. intros H.
  destruct (Z.leb_spec 97 (byte.unsigned c));
    destruct (Z.leb_spec (byte.unsigned c) 122); cbn [andb].
  - rewrite byte.unsigned_of_Z. unfold byte.wrap.
    rewrite Z.mod_small by lia. lia.
  - exfalso. revert H.
    destruct (Z.leb_spec 48 (byte.unsigned c));
      destruct (Z.leb_spec (byte.unsigned c) 57);
      destruct (Z.leb_spec 65 (byte.unsigned c));
      destruct (Z.leb_spec (byte.unsigned c) 90); cbn; try discriminate; lia.
  - revert H.
    destruct (Z.leb_spec 48 (byte.unsigned c));
      destruct (Z.leb_spec (byte.unsigned c) 57);
      destruct (Z.leb_spec 65 (byte.unsigned c));
      destruct (Z.leb_spec (byte.unsigned c) 90); cbn; try discriminate; lia.
  - revert H.
    destruct (Z.leb_spec 48 (byte.unsigned c));
      destruct (Z.leb_spec (byte.unsigned c) 57);
      destruct (Z.leb_spec 65 (byte.unsigned c));
      destruct (Z.leb_spec (byte.unsigned c) 90); cbn; try discriminate; lia.
Qed.

Lemma upper_alnum_spec (tok tok' : list byte) :
  Nisrom.upper_alnum tok = Some tok' ->
  tok' = map Nisrom.toupper tok
  /\ Forall (fun c => Nisrom.isalnum c = true) tok
  /\ Forall is_upper_alnum tok'.
Proof.
  revert tok'. induction tok as [| c r IH]; intros tok'; cbn [Nisrom.upper_alnum].
  - intros [= <-]. repeat constructor.
  - destruct (Nisrom.isalnum c) eqn:Ec; [| discriminate].
    destruct (Nisrom.upper_alnum r) as [r' |]; [| discriminate].
    intros [= <-]. destruct (IH r' eq_refl) as (-> & F1 & F2).
    repeat split; try constructor; auto. apply toupper_alnum. exact Ec.
Qed.

(** Whatever the file name, an ECUID that [ecuid_from_filename] hands out
    has [ECUID_LEN] characters, each a digit or an upper-case letter. *)
Theorem ecuid_from_filename_shape (ECUID_LEN : nat)
    (filename ecuid : list byte) :
  Nisrom.ecuid_from_filename ECUID_LEN filename = Some ecuid ->
  length ecuid = ECUID_LEN /\ Forall is_upper_alnum ecuid.
Proof.
  unfold Nisrom.ecuid_from_filename. cbv zeta.
  destruct (_ <? ECUID_LEN)%nat; [discriminate |].
  destruct (Nisrom.strtok _) as [tok |]; [| discriminate].
  destruct (negb _ && negb _); [discriminate |].
  destruct (Nisrom.upper_alnum tok) as [tok' |] eqn:Eu; [| discriminate].
  destruct (upper_alnum_spec tok tok' Eu) as (-> & _ & F).
  destruct (Nat.eqb_spec (length tok) (ECUID_LEN + 1)) as [E1 | E1]; cbn [andb].
  - destruct (_ =? 49).
    + intros [= <-]. split.
      * rewrite length_drop, length_map. lia.
      * apply Forall_drop. exact F.
    + destruct (Nat.eqb_spec (length tok) ECUID_LEN); [lia | discriminate].
  - destruct (Nat.eqb_spec (length tok) ECUID_LEN) as [E2 | E2]; [| discriminate].
    intros [= <-]. split; [rewrite length_map; exact E2 | exact F].
Qed.

Lemma ecuid_from_filename_shape_witness :
  length (String.list_byte_of_string "8U92A") = 5%nat
  /\ Forall is_upper_alnum (String.list_byte_of_string "8U92A").
Proof.
  apply (ecuid_from_filename_shape 5
           (String.list_byte_of_string "roms/18u92a-x.bin")).
  reflexivity.
Defined.

Lemma alnum_plain (c : byte) :
  Nisrom.isalnum c = true ->
  Nisrom.is_delim c = false /\ Nisrom.is_dirsep c = false.
Proof.
  unfold Nisrom.isalnum, Nisrom.is_delim, Nisrom.is_dirsep. cbv zeta.
  intros H. rewrite !orb_true_iff, !andb_true_iff, !Z.leb_le in H.
  split; apply not_true_is_false; intros F.
  - cbn [existsb Nisrom.ecuid_delims String.list_byte_of_string] in F.
    change (existsb _ Nisrom.ecuid_delims)
      with ((byte.unsigned c =? 45) || ((byte.unsigned c =? 95)
            || ((byte.unsigned c =? 46) || ((byte.unsigned c =? 32) || false))))
      in F.
    rewrite !orb_true_iff, !Z.eqb_eq in F. intuition lia.
  - rewrite !orb_true_iff, !Z.eqb_eq in F. lia.
Qed.

Lemma upper_alnum_map (tok : list byte) :
  Forall (fun c => Nisrom.isalnum c = true) tok ->
  Nisrom.upper_alnum tok = Some (map Nisrom.toupper tok).
Proof.
  induction 1 as [| c r Hc _ IH]; cbn [Nisrom.upper_alnum map];
    [reflexivity |].
  rewrite Hc, IH. reflexivity.
Qed.

Lemma token_app (e r : list byte) :
  Forall (fun c => Nisrom.is_delim c = false) e ->
  (r = [] \/ exists c r', r = c :: r' /\ Nisrom.is_delim c = true) ->
  Nisrom.token (e ++ r) = e.
Proof.
  intros He Hr. induction He as [| c e Hc _ IH]; cbn [app Nisrom.token].
  - destruct Hr as [-> | (c & r' & -> & Hc)]; [reflexivity |].
    cbn [Nisrom.token]. rewrite Hc. reflexivity.
  - rewrite Hc, IH. reflexivity.
Qed.

Lemma strtok_token (c : byte) (e r : list byte) :
  Forall (fun x => Nisrom.is_delim x = false) (c :: e) ->
  (r = [] \/ exists d r', r = d :: r' /\ Nisrom.is_delim d = true) ->
  Nisrom.strtok ((c :: e) ++ r) = Some (c :: e).
Proof.
  intros He Hr. unfold Nisrom.strtok. pose proof He as He'.
  apply Forall_cons in He' as [Hc _].
  cbn [app Nisrom.skip_delims]. rewrite Hc.
  change (c :: e ++ r) with ((c :: e) ++ r).
  rewrite (token_app _ _ He Hr). reflexivity.
Qed.

(** The scan for the base name, over a directory prefix and a name that
    holds no separator. *)
Lemma scan_back_prefix (prefix body : list byte) :
  (prefix = []
   \/ exists dir c, dir <> [] /\ Nisrom.is_dirsep c = true
                    /\ prefix = dir ++ [c]) ->
  Forall (fun x => Nisrom.is_dirsep x = false) body ->
  Nisrom.scan_back (prefix ++ body) (length (prefix ++ body)) = length prefix.
Proof.
  intros [-> | (dir & c & Hdir & Hc & ->)] Hbody.
  - cbn [app length].
    destruct (scan_back_spec body (length body)) as [_ Hr].
    { intros i c Hi Hc. apply lookup_lt_Some in Hc. lia. }
    destruct Hr as [E | (c & _ & _ & H3 & H4)]; [exact E |].
    rewrite Forall_lookup in Hbody. rewrite (Hbody _ c H3) in H4. discriminate.
  - rewrite <- app_assoc. cbn [app].
    rewrite (length_app dir [c]). cbn [length].
    replace (length dir + 1)%nat with (Datatypes.S (length dir)) by lia.
    exact (get_path_len_dir dir body c Hdir Hc Hbody).
Qed.

Lemma take_tail_delim (k : nat) (rest : list byte) :
  (rest = [] \/ exists c r, rest = c :: r /\ Nisrom.is_delim c = true) ->
  take (Datatypes.S k) rest = []
  \/ exists c r, take (Datatypes.S k) rest = c :: r /\ Nisrom.is_delim c = true.
Proof.
  intros [-> | (c & r & -> & Hc)]; [left; reflexivity |].
  right. exists c, (take k r). auto.
Qed.

(** A file name whose base name starts with [ECUID_LEN] alphanumeric
    characters, followed by nothing or by one of the delimiters, yields
    these characters in upper case, whatever the directory; and so does the
    same name with a [1] put before the characters. *)
Theorem ecuid_from_filename_finds (ECUID_LEN : nat)
    (prefix e rest : list byte) :
  (1 <= ECUID_LEN)%nat ->
  length e = ECUID_LEN ->
  Forall (fun c => Nisrom.isalnum c = true) e ->
  (prefix = []
   \/ exists dir c, dir <> [] /\ Nisrom.is_dirsep c = true
                    /\ prefix = dir ++ [c]) ->
  (rest = [] \/ exists c r, rest = c :: r /\ Nisrom.is_delim c = true) ->
  Forall (fun c => Nisrom.is_dirsep c = false) rest ->
  Nisrom.ecuid_from_filename ECUID_LEN (prefix ++ e ++ rest)
  = Some (map Nisrom.toupper e)
  /\ Nisrom.ecuid_from_filename ECUID_LEN (prefix ++ Byte.x31 :: e ++ rest)
     = Some (map Nisrom.toupper e).
Proof.
  intros HL Hlen He Hprefix Hrest Hsep.
  assert (He1 : Forall (fun c => Nisrom.isalnum c = true) (Byte.x31 :: e))
    by (constructor; [reflexivity | exact He]).
  assert (Hplain : forall l, Forall (fun c => Nisrom.isalnum c = true) l ->
            Forall (fun c => Nisrom.is_delim c = false) l
            /\ Forall (fun c => Nisrom.is_dirsep c = false) l).
  { intros l Hl. split; eapply Forall_impl; try exact Hl;
      intros c Hc; apply (alnum_plain c Hc). }
  destruct (Hplain e He) as [Hd Hs].
  destruct (Hplain _ He1) as [Hd1 Hs1].
  split; unfold Nisrom.ecuid_from_filename; cbv zeta.
  - rewrite (scan_back_prefix prefix (e ++ rest) Hprefix)
      by (apply Forall_app; auto).
    rewrite drop_app_length.
    destruct (Nat.ltb_spec (length (e ++ rest)) ECUID_LEN) as [Hlt | _];
      [rewrite length_app in Hlt; lia |].
    rewrite take_app_add' by (symmetry; exact Hlen).
    destruct e as [| c e]; [simpl in Hlen; lia |].
    rewrite (strtok_token c e _ Hd (take_tail_delim 1 rest Hrest)).
    rewrite Hlen, Nat.eqb_refl. cbn [negb andb].
    rewrite (upper_alnum_map _ He).
    destruct (Nat.eqb_spec ECUID_LEN (ECUID_LEN + 1)); [lia |].
    cbn [andb]. reflexivity.
  - rewrite (scan_back_prefix prefix (Byte.x31 :: e ++ rest) Hprefix)
      by (change (Byte.x31 :: e ++ rest) with ((Byte.x31 :: e) ++ rest);
          apply Forall_app; auto).
    rewrite drop_app_length.
    change (Byte.x31 :: e ++ rest) with ((Byte.x31 :: e) ++ rest).
    destruct (Nat.ltb_spec (length ((Byte.x31 :: e) ++ rest)) ECUID_LEN)
      as [Hlt | _]; [rewrite length_app in Hlt; simpl in Hlt; lia |].
    replace (ECUID_LEN + 2)%nat with (length (Byte.x31 :: e) + 1)%nat
      by (simpl; lia).
    rewrite take_app_add' by reflexivity.
    rewrite (strtok_token Byte.x31 e _ Hd1 (take_tail_delim 0 rest Hrest)).
    cbn [length]. rewrite Hlen.
    destruct (Nat.eqb_spec (Datatypes.S ECUID_LEN) ECUID_LEN); [lia |].
    destruct (Nat.eqb_spec (Datatypes.S ECUID_LEN) (1 + ECUID_LEN)); [| lia].
    cbn [negb andb].
    rewrite (upper_alnum_map _ He1).
    destruct (Nat.eqb_spec (Datatypes.S ECUID_LEN) (ECUID_LEN + 1)); [| lia].
    reflexivity.
Qed.

Lemma ecuid_from_filename_finds_witness :
  Nisrom.ecuid_from_filename 5 (String.list_byte_of_string "roms/8u92a-x.bin")
  = Some (String.list_byte_of_string "8U92A")
  /\ Nisrom.ecuid_from_filename 5 (String.list_byte_of_string "roms/18u92a-x.bin")
     = Some (String.list_byte_of_string "8U92A").
Proof.
  apply (ecuid_from_filename_finds 5
           (String.list_byte_of_string "roms/")
           (String.list_byte_of_string "8u92a")
           (String.list_byte_of_string "-x.bin")).
  - lia.
  - reflexivity.
  - repeat constructor.
  - right. exists (String.list_byte_of_string "roms"), Byte.x2f.
    split; [discriminate |]. split; reflexivity.
  - right. exists Byte.x2d, (String.list_byte_of_string "x.bin").
    split; reflexivity.
  - repeat constructor.
Defined.

(** * checksum_fix: the offsets it does not check, the results it does not check *)

Lemma wr8_outside (buf : list byte) (off : Z) (b : byte) :
  off < 0 \/ Z.of_nat (length buf) <= off ->
  wr8 buf off b = Fault (BadWrite off).
Proof.
  intros H. unfold wr8.
  destruct (Z.leb_spec 0 off); destruct (Z.ltb_spec off (Z.of_nat (length buf)));
    try reflexivity; lia.
Qed.

Lemma wr8_fault (buf : list byte) (off : Z) (b : byte) (f : fault) :
  wr8 buf off b = Fault f ->
  f = BadWrite off /\ (off < 0 \/ Z.of_nat (length buf) <= off).
Proof.
  unfold wr8.
  destruct (Z.leb_spec 0 off); destruct (Z.ltb_spec off (Z.of_nat (length buf)));
    cbn [andb]; try discriminate; intros [= <-]; split; auto; lia.
Qed.

(** A word that does not lie inside the buffer cannot be written. *)
Lemma write_32b_outside (val : Z) (buf : list byte) (off : Z) :
  off < 0 \/ Z.of_nat (length buf) < off + 4 ->
  exists o, write_32b val buf off = Fault (BadWrite o)
            /\ (o < 0 \/ Z.of_nat (length buf) <= o).
Proof.
  intros H. destruct (write_32b val buf off) as [buf' | f] eqn:E.
  { apply write_32b_bounds in E. lia. }
  unfold write_32b in E.
  destruct (wr8 buf (off + 3) _) as [b1 |] eqn:E1.
  2: { injection E as <-. apply wr8_fault in E1 as [-> ?]. eauto. }
  cbn [bind] in E. apply wr8_inv in E1 as [_ ->].
  destruct (wr8 _ (off + 2) _) as [b2 |] eqn:E2.
  2: { injection E as <-. apply wr8_fault in E2 as [-> ?].
       rewrite !length_insert in *. eauto. }
  cbn [bind] in E. apply wr8_inv in E2 as [_ ->].
  destruct (wr8 _ (off + 1) _) as [b3 |] eqn:E3.
  2: { injection E as <-. apply wr8_fault in E3 as [-> ?].
       rewrite !length_insert in *. eauto. }
  cbn [bind] in E. apply wr8_inv in E3 as [_ ->].
  apply wr8_fault in E as [-> ?]. rewrite !length_insert in *. eauto.
Qed.

(** The guard of lines 107-109 does not look at [p_mang].  With the other
    four offsets at words inside the buffer, a [p_mang] whose word does not
    lie inside the buffer is written through all the same: the call stores
    out of bounds. *)
Theorem checksum_fix_unchecked_mang
    (buf : list byte) (siz p_cks p_ckx p_cs p_cx p_mang : Z) :
  siz = Z.of_nat (length buf) ->
  0 < siz -> Z.land siz 3 = 0 ->
  0 <= p_cks -> p_cks + 4 <= siz ->
  0 <= p_ckx -> p_ckx + 4 <= siz ->
  0 <= p_cs -> p_cs + 4 <= siz ->
  0 <= p_cx -> p_cx + 4 <= siz ->
  p_mang < 0 \/ siz < p_mang + 4 ->
  exists o,
    Nislib.checksum_fix buf siz p_cks p_ckx p_cs p_cx p_mang
    = Fault (BadWrite o)
    /\ (o < 0 \/ siz <= o).
Proof.
  intros Hsiz Hpos Hal C0 C1 X0 X1 S0 S1 T0 T1 Hm. subst siz.
  unfold Nislib.checksum_fix. rewrite Hal.
  destruct (Z.leb_spec (Z.of_nat (length buf)) 0); [lia |].
  destruct (Z.leb_spec (Z.of_nat (length buf)) p_cks); [lia |].
  destruct (Z.leb_spec (Z.of_nat (length buf)) p_ckx); [lia |].
  destruct (Z.leb_spec (Z.of_nat (length buf)) p_cs); [lia |].
  destruct (Z.leb_spec (Z.of_nat (length buf)) p_cx); [lia |].
  cbn [orb Nislib.bool_of_int Z.eqb negb].
  destruct (reconst_32_in_bounds buf p_cks C0 C1) as [cks ->].
  destruct (reconst_32_in_bounds buf p_ckx X0 X1) as [ckx ->]. cbn [bind].
  destruct (write_32b_ok 0 buf p_cs S0 S1) as [buf1 W1].
  rewrite W1. cbn [bind]. pose proof (write_32b_length _ _ _ _ W1) as L1.
  destruct (write_32b_ok 0 buf1 p_cx) as [buf2 W2]; try lia.
  rewrite W2. cbn [bind]. pose proof (write_32b_length _ _ _ _ W2) as L2.
  destruct (write_32b_outside 0 buf2 p_mang) as (o & -> & Ho); [lia |].
  exists o. split; [reflexivity | lia].
Qed.

Lemma checksum_fix_unchecked_mang_witness :
  exists o,
    Nislib.checksum_fix zeros20 20 0 4 8 12 20 = Fault (BadWrite o)
    /\ (o < 0 \/ 20 <= o).
Proof.
  apply (checksum_fix_unchecked_mang zeros20 20 0 4 8 12 20);
    try reflexivity; lia.
Defined.

(** The return value of the [checksum_std] of line 206 is thrown away, and
    [ocs], [ocx] are read whether or not they were stored.  When the sum
    target left for [a + b] is odd, the xor value that [checksum_std]
    derives from the corrected image is [ckx - 1]; if no word of the
    corrected image holds it, [ocx] is never assigned and line 208 indexes
    the buffer with an uninitialised variable. *)
Theorem checksum_fix_uninit_read
    (buf : list byte) (n i_cks i_ckx i_cs i_cx i_mang : nat) (cks ckx : Z) :
  length buf = (4 * n)%nat ->
  NoDup [i_cks; i_ckx; i_cs; i_cx; i_mang] ->
  words_of buf !! i_cks = Some cks ->
  words_of buf !! i_ckx = Some ckx ->
  (i_cs < n)%nat -> (i_cx < n)%nat -> (i_mang < n)%nat ->
  let ws0 := with_corrections (words_of buf) i_cs i_cx i_mang 0 0 0 in
  let mang := fix_mang ws0 cks ckx in
  let r := fix_residue ws0 cks ckx in
  let a := Z.shiftr r 1 in
  let ws1 := with_corrections ws0 i_cs i_cx i_mang a a mang in
  Z.even r = false ->
  (forall j, ws1 !! j <> Some (to_u32 (ckx - 1))) ->
  Nislib.checksum_fix buf (4 * Z.of_nat n) (4 * Z.of_nat i_cks)
    (4 * Z.of_nat i_ckx) (4 * Z.of_nat i_cs) (4 * Z.of_nat i_cx)
    (4 * Z.of_nat i_mang) = Fault UninitRead.
Proof.
  intros Hlen Hslots Hcks Hckx Hcs Hcx Hmang ws0 mang r a ws1 Hodd Hnone.
  destruct (fix_run_unfold buf n i_cks i_ckx i_cs i_cx i_mang cks ckx
              Hlen Hslots Hcks Hckx Hcs Hcx Hmang)
    as (buf6 & msgs & L6 & Hws & ->).
  destruct (fix_run_recheck buf n i_cks i_ckx i_cs i_cx i_mang cks ckx
              Hlen Hslots Hcks Hckx Hcs Hcx Hmang buf6 L6 Hws)
    as (rr & m & Hstd & Hocs & _).
  destruct (fix_run_identity buf n i_cks i_ckx i_cs i_cx i_mang cks ckx
              Hlen Hslots Hcks Hckx Hcs Hcx Hmang) as (_ & _ & _ & Ed).
  change (words_of buf6 = ws1) in Hws.
  change (to_u32 (wsum ws1 - 2 * wxor ws1)
          = to_u32 (ckx - (if Z.even r then 0 else 1))) in Ed.
  rewrite Hodd in Ed.
  assert (Hsz : 4 * Z.of_nat n = Z.of_nat (length buf6)) by lia.
  rewrite Hstd. cbn [bind]. rewrite Hocs. cbn [bind Nislib.load_cell].
  rewrite Hsz in Hstd.
  destruct (checksum_std_cells buf6 rr) as (_ & Ex & _); [| | exact Hstd |].
  { apply lookup_lt_Some in Hcks.
    rewrite (length_words_of n) in Hcks by exact Hlen. lia. }
  { rewrite <- Hsz, Z.mul_comm. apply Z.mod_mul. lia. }
  unfold derived_ckx in Ex. rewrite Hws, Ed in Ex.
  destruct (last (match_offsets 0 ws1 (to_u32 (ckx - 1)))) as [q |] eqn:El.
  - exfalso. apply last_Some_elem_of, elem_of_match_offsets in El
      as (j & Hj & _).
    exact (Hnone j Hj).
  - rewrite Ex. reflexivity.
Qed.

Lemma checksum_fix_uninit_read_witness :
  Nislib.checksum_fix fix_image_odd (4 * Z.of_nat 6) (4 * Z.of_nat 0)
    (4 * Z.of_nat 1) (4 * Z.of_nat 2) (4 * Z.of_nat 3) (4 * Z.of_nat 4)
  = Fault UninitRead.
Proof.
  assert (H1 : length fix_image_odd = (4 * 6)%nat) by reflexivity.
  assert (H2 : words_of fix_image_odd !! 0%nat = Some 6) by reflexivity.
  assert (H3 : words_of fix_image_odd !! 1%nat = Some 5) by reflexivity.
  assert (H4 : (2 < 6)%nat) by lia.
  assert (H5 : (3 < 6)%nat) by lia.
  assert (H6 : (4 < 6)%nat) by lia.
  apply (checksum_fix_uninit_read fix_image_odd 6 0 1 2 3 4 6 5
           H1 fix_image_slots H2 H3 H4 H5 H6).
  - reflexivity.
  - intros j. do 6 (destruct j as [| j]; [discriminate |]). discriminate.
Defined.

(** * checksum_fix: when it succeeds (C1) *)

Lemma odd_to_u32 (x : Z) : Z.odd (to_u32 x) = Z.odd x.
Proof.
  unfold to_u32. rewrite <- !Z.bit0_odd. apply Z.mod_pow2_bits_low. lia.
Qed.

Lemma odd_lxor (x y : Z) : Z.odd (Z.lxor x y) = xorb (Z.odd x) (Z.odd y).
Proof. rewrite <- !Z.bit0_odd. apply Z.lxor_spec. Qed.

(** Sum and xor of the same words agree on bit 0. *)
Lemma sum_xor_parity (ws : list Z) :
  Z.odd (foldr Z.add 0 ws) = Z.odd (foldr Z.lxor 0 ws).
Proof.
  induction ws as [| w ws IH]; simpl; [reflexivity |].
  rewrite Z.odd_add, odd_lxor, IH. reflexivity.
Qed.

(** The sum target left for [a + b] is even exactly when the two targets
    agree on bit 0.  As the sum and the xor of any words agree on bit 0,
    targets that differ there cannot both be met, whatever is written. *)
Lemma fix_residue_parity (ws0 : list Z) (cks ckx : Z) :
  Z.even (fix_residue ws0 cks ckx) = Bool.eqb (Z.odd cks) (Z.odd ckx).
Proof.
  rewrite <- Z.negb_odd. unfold fix_residue, fix_mang, sum_others, xor_others.
  repeat (rewrite odd_to_u32 || rewrite Z.odd_sub || rewrite odd_lxor).
  rewrite sum_xor_parity.
  destruct (Z.odd cks), (Z.odd ckx), (Z.odd (foldr Z.lxor 0 ws0)); reflexivity.
Qed.

(** C1, as the code has it.  On a buffer of [n] whole words with the two
    targets and the three correction words at five distinct word indices,
    a call of [checksum_fix] that returns reports success ("found
    correction vals") exactly when the two targets agree on bit 0, and the
    buffer it hands back is the one given with the three correction words
    replaced.  When it reports success the fold identity holds: the
    [checksum_std] run on the result returns offsets whose words are the
    two targets, and the word at [p_cks] is the sum, the word at [p_ckx]
    the xor, of all the other words.  When the targets agree on bit 0 the
    call does return. *)
Theorem checksum_fix_success_identity
    (buf : list byte) (n i_cks i_ckx i_cs i_cx i_mang : nat) (cks ckx : Z) :
  length buf = (4 * n)%nat ->
  NoDup [i_cks; i_ckx; i_cs; i_cx; i_mang] ->
  words_of buf !! i_cks = Some cks ->
  words_of buf !! i_ckx = Some ckx ->
  (i_cs < n)%nat -> (i_cx < n)%nat -> (i_mang < n)%nat ->
  let call :=
    Nislib.checksum_fix buf (4 * Z.of_nat n) (4 * Z.of_nat i_cks)
      (4 * Z.of_nat i_ckx) (4 * Z.of_nat i_cs) (4 * Z.of_nat i_cx)
      (4 * Z.of_nat i_mang) in
  (forall out, call = Ok out ->
     exists a b mang,
       Nislib.fx_exit out
       = Nislib.FixDone a b mang (Bool.eqb (Z.odd cks) (Z.odd ckx))
       /\ words_of (Nislib.fx_buf out)
          = with_corrections (words_of buf) i_cs i_cx i_mang a b mang
       /\ (Z.odd cks = Z.odd ckx ->
           std_valid (words_of (Nislib.fx_buf out)) i_cks i_ckx
           /\ exists rr o_s o_x,
                Nislib.checksum_std (Nislib.fx_buf out) (4 * Z.of_nat n) = Ok rr
                /\ Nislib.o_cks rr = Some o_s
                /\ Nislib.o_ckx rr = Some o_x
                /\ reconst_32 (Nislib.fx_buf out) o_s = Ok cks
                /\ reconst_32 (Nislib.fx_buf out) o_x = Ok ckx))
  /\ (Z.odd cks = Z.odd ckx -> exists out, call = Ok out).
Proof.
  intros Hlen Hslots Hcks Hckx Hcs Hcx Hmang call. subst call.
  set (ws0 := with_corrections (words_of buf) i_cs i_cx i_mang 0 0 0).
  set (r := fix_residue ws0 cks ckx).
  set (mang := fix_mang ws0 cks ckx).
  set (a := Z.shiftr r 1).
  set (ws1 := with_corrections ws0 i_cs i_cx i_mang a a mang).
  assert (Hpar : Z.even r = Bool.eqb (Z.odd cks) (Z.odd ckx))
    by apply fix_residue_parity.
  assert (Heven : Z.odd cks = Z.odd ckx -> Z.even r = true).
  { intros E. rewrite Hpar, E. apply eqb_reflx. }
  destruct (fix_run_distinct i_cks i_ckx i_cs i_cx i_mang Hslots)
    as (D1 & _ & _ & _ & _ & _ & _ & D8 & D9 & D10).
  split.
  - intros out Hout.
    destruct (fix_run_unfold buf n i_cks i_ckx i_cs i_cx i_mang cks ckx
                Hlen Hslots Hcks Hckx Hcs Hcx Hmang)
      as (buf6 & msgs & L6 & Hws & Hcall).
    destruct (fix_run_recheck buf n i_cks i_ckx i_cs i_cx i_mang cks ckx
                Hlen Hslots Hcks Hckx Hcs Hcx Hmang buf6 L6 Hws)
      as (rr & m & Hstd & Hocs & Rm & Hx & Hsome).
    destruct (fix_run_result buf n i_cks i_ckx i_cs i_cx i_mang cks ckx
                Hlen Hslots Hcks Hckx Hcs Hcx Hmang out Hout) as [Hexit Hwords].
    change (words_of buf6 = ws1) in Hws.
    change (Nislib.fx_exit out = Nislib.FixDone a a mang (Z.even r)) in Hexit.
    change (words_of (Nislib.fx_buf out) = ws1) in Hwords.
    assert (Hbuf : Nislib.fx_buf out = buf6).
    { rewrite Hcall, Hstd in Hout. cbn [bind] in Hout.
      rewrite Hocs in Hout. cbn [bind Nislib.load_cell] in Hout.
      destruct (Nislib.load_cell (Nislib.o_ckx rr)) as [ocx |]; [| discriminate].
      cbn [bind] in Hout.
      destruct (reconst_32 buf6 m) as [ds |]; [| discriminate].
      destruct (reconst_32 buf6 ocx) as [dx |]; [| discriminate].
      cbn [bind] in Hout. injection Hout as <-. reflexivity. }
    exists a, a, mang. rewrite Hexit, Hpar, Hwords.
    split; [reflexivity |]. split.
    { unfold ws1, ws0. apply with_corrections_absorb; assumption. }
    intros Eodd. specialize (Heven Eodd). split.
    + destruct (fix_run_ws1_lookup buf n i_cks i_ckx i_cs i_cx i_mang cks ckx
                  Hlen Hslots Hcks Hckx Hcs Hcx Hmang) as [K1 K2].
      destruct (fix_run_identity buf n i_cks i_ckx i_cs i_cx i_mang cks ckx
                  Hlen Hslots Hcks Hckx Hcs Hcx Hmang) as (Ix & Is & _).
      destruct (fix_run_ranges buf n i_cks i_ckx i_cs i_cx i_mang cks ckx
                  Hlen Hslots Hcks Hckx Hcs Hcx Hmang) as (Rc & _).
      change (ws1 !! i_cks = Some cks) in K1.
      change (ws1 !! i_ckx = Some ckx) in K2.
      change (xor_others ws1 cks ckx = ckx) in Ix.
      change (sum_others ws1 cks ckx
              = to_u32 (cks - (if Z.even r then 0 else 1))) in Is.
      rewrite Heven, Z.sub_0_r, to_u32_small in Is by exact Rc.
      destruct (folds_without ws1 i_cks i_ckx cks ckx D1 K1 K2) as [Es Ex].
      unfold std_valid, wsum, wxor. rewrite Es, Ex, K1, K2.
      fold (sum_others ws1 cks ckx). fold (xor_others ws1 cks ckx).
      rewrite Is, Ix. auto.
    + rewrite Hbuf. destruct Hsome as [m' Hm'].
      { change ((if Z.even r then 0 else 1) = 0). rewrite Heven. reflexivity. }
      exists rr, m, m'. repeat split; try assumption.
      specialize (Hx m' Hm').
      change (reconst_32 buf6 m'
              = Ok (to_u32 (ckx - (if Z.even r then 0 else 1)))) in Hx.
      destruct (fix_run_ranges buf n i_cks i_ckx i_cs i_cx i_mang cks ckx
                  Hlen Hslots Hcks Hckx Hcs Hcx Hmang) as (_ & Rx & _).
      rewrite Heven, Z.sub_0_r, to_u32_small in Hx by exact Rx. exact Hx.
  - intros Eodd.
    apply (fix_run_even buf n i_cks i_ckx i_cs i_cx i_mang cks ckx
             Hlen Hslots Hcks Hckx Hcs Hcx Hmang).
    exact (Heven Eodd).
Qed.

Lemma checksum_fix_success_identity_witness :
  exists out,
    Nislib.checksum_fix fix_image_even (4 * Z.of_nat 6) (4 * Z.of_nat 0)
      (4 * Z.of_nat 1) (4 * Z.of_nat 2) (4 * Z.of_nat 3) (4 * Z.of_nat 4)
    = Ok out.
Proof.
  assert (H1 : length fix_image_even = (4 * 6)%nat) by reflexivity.
  assert (H2 : words_of fix_image_even !! 0%nat = Some 6) by reflexivity.
  assert (H3 : words_of fix_image_even !! 1%nat = Some 4) by reflexivity.
  assert (H4 : (2 < 6)%nat) by lia.
  assert (H5 : (3 < 6)%nat) by lia.
  assert (H6 : (4 < 6)%nat) by lia.
  apply (proj2 (checksum_fix_success_identity fix_image_even 6 0 1 2 3 4 6 4
                  H1 fix_image_slots H2 H3 H4 H5 H6)).
  reflexivity.
Defined.
